(** * UML editor: diagram model, deduplication, merge engine and realtime
    reconciliation

    Shallow embedding of the diagram logic of the browser UML editor:
    - [lib/gemini-service.ts]: [mergeDiagramModifications],
      [modifyExistingDiagram];
    - [app/editor/page.tsx]: the by-id duplicate filters,
      [handleRealtimeUpdate], [updateClass], [removeClass],
      [handleModifyDiagram];
    - [components/diagram-canvas.tsx]: [memoizedClasses],
      [memoizedAssociations], and, further down, the assistant panel
      ([AIAssistantPanel]) with its own [handleModifyDiagram];
    - the hook [useRealtimeSync] of [@/hooks/use-realtime-sync];
    - the types of [@/types/uml] and the validation result of
      [lib/uml-validator.ts].

    JavaScript objects are records, arrays are lists, a [Map] is an
    association list kept in insertion order, a [Set] of strings is a
    [gset string]; React state and refs are fields of explicit state
    records that the handlers transform, and timers sit in an explicit
    queue. *)

From Stdlib Require Import ZArith Ascii String.
From stdpp Require Import base option list strings gmap pretty.

Local Open Scope string_scope.
Local Open Scope list_scope.
Local Open Scope Z_scope.

(* ===================================================================== *)
(** * JavaScript primitives used by the code *)
(* ===================================================================== *)

Module JS.

(** [String.prototype.toLowerCase].  The function lowers every cased
    letter of Unicode by the tables of the standard, which are not written
    out here: the merge engine only compares its results, and what is
    proved of the engine holds whatever the function is. *)
Class Lowering := toLowerCase : string → string.

(** Truthiness of a possibly absent string: [undefined] and the empty
    string are falsy. *)
Definition truthyStr (o : option string) : bool :=
  match o with
  | Some s => negb (String.eqb s "")
  | None => false
  end.

(** [a || b] where [a] is a possibly absent object (objects are truthy). *)
Definition orObj {A : Type} (a b : option A) : option A :=
  match a with
  | Some v => Some v
  | None => b
  end.

(** [{ ...a, ...b }.k] for an optional key [k]: the value that [b] has for
    the key when it has one, the value of [a] otherwise. *)
Definition spreadKey {A : Type} (a b : option A) : option A :=
  match b with
  | Some v => Some v
  | None => a
  end.

(** [a || b] where [a] is a possibly absent string and [b] a string. *)
Definition orStr (a : option string) (b : string) : string :=
  match a with
  | Some s => if String.eqb s "" then b else s
  | None => b
  end.

(** [s.includes(sub)] *)
Definition includes (sub s : string) : bool :=
  match String.index 0 sub s with
  | Some _ => true
  | None => false
  end.

(** [Array.prototype.findIndex]: index of the first element satisfying the
    callback, [-1] when there is none. *)
Fixpoint findIndexFrom {A : Type} (p : A → bool) (l : list A) (i : Z) : Z :=
  match l with
  | [] => -1
  | a :: l' => if p a then i else findIndexFrom p l' (i + 1)
  end.

Definition findIndex {A : Type} (p : A → bool) (l : list A) : Z :=
  findIndexFrom p l 0.

(** [Array.prototype.filter] with the three-argument callback
    [(element, index, array)]. *)
Fixpoint filterFrom {A : Type} (cb : A → Z → list A → bool)
    (self l : list A) (i : Z) : list A :=
  match l with
  | [] => []
  | a :: l' =>
      if cb a i self then a :: filterFrom cb self l' (i + 1)
      else filterFrom cb self l' (i + 1)
  end.

Definition filterIdx {A : Type} (cb : A → Z → list A → bool) (l : list A) : list A :=
  filterFrom cb l l 0.

End JS.

(** [Map<string, V>]: entries in insertion order.  [set] on a present key
    overwrites the value in place, [set] on an absent key appends, [delete]
    removes the entry, and iteration ([forEach], [values]) follows the
    order of the entries. *)
Module JsMap.

Definition t (V : Type) : Type := list (string * V).

Section Ops.
Context {V : Type}.

Definition empty : t V := [].

Fixpoint get (k : string) (m : t V) : option V :=
  match m with
  | [] => None
  | (k', v) :: m' => if decide (k' = k) then Some v else get k m'
  end.

Fixpoint set (k : string) (v : V) (m : t V) : t V :=
  match m with
  | [] => [(k, v)]
  | (k', v') :: m' =>
      if decide (k' = k) then (k', v) :: m' else (k', v') :: set k v m'
  end.

Fixpoint delete (k : string) (m : t V) : t V :=
  match m with
  | [] => []
  | (k', v) :: m' => if decide (k' = k) then m' else (k', v) :: delete k m'
  end.

Definition keys (m : t V) : list string := m.*1.

Definition values (m : t V) : list V := m.*2.

(** [new Map(entries)] *)
Definition ofEntries (es : list (string * V)) : t V :=
  foldl (λ m e, set e.1 e.2 m) empty es.
End Ops.

End JsMap.

(* ===================================================================== *)
(** * Data model ([@/types/uml]) *)
(* ===================================================================== *)

Inductive DataType :=
  | TString | TInteger | TBoolean | TDouble | TLong | TDate | TLocalDateTime.

Inductive RelationshipType :=
  | association | inheritance | aggregation | composition.

Inductive InheritanceType := extends | implements.

(** [{ x: number; y: number }]; the coordinates are only ever copied by the
    code modelled here. *)
Record Position := { x : Z; y : Z }.

Module UMLAttribute.
Record t := { id : string; name : string; type : DataType }.
End UMLAttribute.

(** [position] is declared mandatory, but the merge engine guards against
    its absence ([aiClass.position || idMatch.position]), hence the option. *)
Module UMLClass.
Record t := {
  id : string;
  name : string;
  attributes : list UMLAttribute.t;
  position : option Position
}.
End UMLClass.

Module AssociationClass.
Record t := {
  id : string;
  name : string;
  attributes : list UMLAttribute.t;
  position : Position
}.
End AssociationClass.

Module Association.
Record t := {
  id : string;
  fromClassId : string;
  toClassId : string;
  fromMultiplicity : string;
  toMultiplicity : string;
  relationshipType : RelationshipType;
  associationClass : option AssociationClass.t;
  inheritanceType : option InheritanceType;
  cascadeDelete : option bool
}.
End Association.

Global Instance DataType_eq_dec : EqDecision DataType.
Proof. solve_decision. Defined.
Global Instance RelationshipType_eq_dec : EqDecision RelationshipType.
Proof. solve_decision. Defined.
Global Instance InheritanceType_eq_dec : EqDecision InheritanceType.
Proof. solve_decision. Defined.
Global Instance Position_eq_dec : EqDecision Position.
Proof. solve_decision. Defined.
Global Instance UMLAttribute_eq_dec : EqDecision UMLAttribute.t.
Proof. solve_decision. Defined.
Global Instance UMLClass_eq_dec : EqDecision UMLClass.t.
Proof. solve_decision. Defined.
Global Instance AssociationClass_eq_dec : EqDecision AssociationClass.t.
Proof. solve_decision. Defined.
Global Instance Association_eq_dec : EqDecision Association.t.
Proof. solve_decision. Defined.

(** Entities with an [id] field. *)
Class HasId (A : Type) := entityId : A → string.
Global Instance UMLClass_HasId : HasId UMLClass.t := UMLClass.id.
Global Instance Association_HasId : HasId Association.t := Association.id.

(** The ids of a list of entities. *)
Abbreviation ids l := (entityId <$> l).

(* ===================================================================== *)
(** * Deduplication by id *)
(* ===================================================================== *)

Module Dedup.
Section Generic.
Context {A : Type} `{HasId A}.

(** [page.tsx]:
    [arr.filter((e, index, self) => index === self.findIndex(c => c.id === e.id))] *)
Definition uniqueById (arr : list A) : list A :=
  JS.filterIdx
    (λ e index self,
       Z.eqb index (JS.findIndex (λ c, bool_decide (entityId c = entityId e)) self))
    arr.

(** [diagram-canvas.tsx], [memoizedClasses] / [memoizedAssociations]:
    a filter whose callback consults and extends the [seen] set (the
    warning it logs for a dropped entry is not part of the model). *)
Fixpoint filterSeen (seen : gset string) (arr : list A) : list A :=
  match arr with
  | [] => []
  | e :: arr' =>
      if bool_decide (entityId e ∈ seen) then filterSeen seen arr'
      else e :: filterSeen ({[entityId e]} ∪ seen) arr'
  end.

Definition memoized (arr : list A) : list A := filterSeen ∅ arr.

(** The final pass of the merge engine:
    [m = new Map(); arr.forEach(e => m.set(e.id, e)); Array.from(m.values())] *)
Definition indexed (arr : list A) : JsMap.t A :=
  foldl (λ m e, JsMap.set (entityId e) e m) JsMap.empty arr.

Definition viaMap (arr : list A) : list A := JsMap.values (indexed arr).

(** [out] is [arr] deduplicated by id: a subsequence of [arr] in which no
    id occurs twice and which has, for every entry of [arr], exactly one
    entry with its id, namely the first entry of [arr] with that id. *)
Definition firstPerId (arr out : list A) : Prop :=
  out `sublist_of` arr
  ∧ NoDup (ids out)
  ∧ ∀ e, e ∈ arr →
         ∃ f, head (filter (λ c, entityId c = entityId e) arr) = Some f
              ∧ filter (λ c, entityId c = entityId e) out = [f].
End Generic.
End Dedup.

(* ===================================================================== *)
(** * Merge engine ([lib/gemini-service.ts]) *)
(* ===================================================================== *)

Module Merge.

Section WithLowering.
Context `{JS.Lowering}.

(** The mutable locals of the class loop: the [mergedClasses] array and
    the two lookup maps. *)
Record ClassLoop := {
  mergedClasses : list UMLClass.t;
  existingClassById : JsMap.t UMLClass.t;
  existingClassByName : JsMap.t UMLClass.t
}.

(** Body of [aiClasses.forEach(aiClass => ...)]. *)
Definition classStep (st : ClassLoop) (aiClass : UMLClass.t) : ClassLoop :=
  match JsMap.get (UMLClass.id aiClass) (existingClassById st) with
  | Some idMatch =>
      {| mergedClasses := mergedClasses st ++
           [ {| UMLClass.id := UMLClass.id aiClass;
                UMLClass.name := UMLClass.name aiClass;
                UMLClass.attributes := UMLClass.attributes aiClass;
                UMLClass.position :=
                  JS.orObj (UMLClass.position aiClass) (UMLClass.position idMatch) |} ];
         existingClassById :=
           JsMap.delete (UMLClass.id aiClass) (existingClassById st);
         existingClassByName :=
           JsMap.delete (JS.toLowerCase (UMLClass.name idMatch)) (existingClassByName st) |}
  | None =>
      match JsMap.get (JS.toLowerCase (UMLClass.name aiClass)) (existingClassByName st) with
      | Some nameMatch =>
          {| mergedClasses := mergedClasses st ++
               [ {| UMLClass.id := UMLClass.id nameMatch;
                    UMLClass.name := UMLClass.name aiClass;
                    UMLClass.attributes := UMLClass.attributes aiClass;
                    UMLClass.position :=
                      JS.orObj (UMLClass.position aiClass) (UMLClass.position nameMatch) |} ];
             existingClassById :=
               JsMap.delete (UMLClass.id nameMatch) (existingClassById st);
             existingClassByName :=
               JsMap.delete (JS.toLowerCase (UMLClass.name nameMatch))
                 (existingClassByName st) |}
      | None =>
          {| mergedClasses := mergedClasses st ++ [aiClass];
             existingClassById := existingClassById st;
             existingClassByName := existingClassByName st |}
      end
  end.

Definition classInit (existingClasses : list UMLClass.t) : ClassLoop :=
  {| mergedClasses := [];
     existingClassById :=
       JsMap.ofEntries (map (λ cls, (UMLClass.id cls, cls)) existingClasses);
     existingClassByName :=
       JsMap.ofEntries
         (map (λ cls, (JS.toLowerCase (UMLClass.name cls), cls)) existingClasses) |}.

(** [mergedClasses] after the loop over the proposal and the
    "keep untouched classes" loop. *)
Definition mergedClassList (existingClasses aiClasses : list UMLClass.t)
    : list UMLClass.t :=
  let st := foldl classStep (classInit existingClasses) aiClasses in
  mergedClasses st ++ JsMap.values (existingClassById st).

Definition finalClasses (existingClasses aiClasses : list UMLClass.t)
    : list UMLClass.t :=
  Dedup.viaMap (mergedClassList existingClasses aiClasses).

Record AssocLoop := {
  mergedAssociations : list Association.t;
  existingAssocById : JsMap.t Association.t
}.

(** [{ ...existing, ...aiAssoc }]: the six mandatory fields come from the
    proposal, an optional field comes from the proposal when it has the
    key and from the existing association otherwise. *)
Definition spreadAssoc (existing aiAssoc : Association.t) : Association.t :=
  {| Association.id := Association.id aiAssoc;
     Association.fromClassId := Association.fromClassId aiAssoc;
     Association.toClassId := Association.toClassId aiAssoc;
     Association.fromMultiplicity := Association.fromMultiplicity aiAssoc;
     Association.toMultiplicity := Association.toMultiplicity aiAssoc;
     Association.relationshipType := Association.relationshipType aiAssoc;
     Association.associationClass :=
       JS.spreadKey (Association.associationClass existing)
                    (Association.associationClass aiAssoc);
     Association.inheritanceType :=
       JS.spreadKey (Association.inheritanceType existing)
                    (Association.inheritanceType aiAssoc);
     Association.cascadeDelete :=
       JS.spreadKey (Association.cascadeDelete existing)
                    (Association.cascadeDelete aiAssoc) |}.

(** Body of [aiAssociations.forEach(aiAssoc => ...)]. *)
Definition assocStep (st : AssocLoop) (aiAssoc : Association.t) : AssocLoop :=
  match JsMap.get (Association.id aiAssoc) (existingAssocById st) with
  | Some existing =>
      {| mergedAssociations := mergedAssociations st ++ [spreadAssoc existing aiAssoc];
         existingAssocById :=
           JsMap.delete (Association.id aiAssoc) (existingAssocById st) |}
  | None =>
      {| mergedAssociations := mergedAssociations st ++ [aiAssoc];
         existingAssocById := existingAssocById st |}
  end.

Definition assocInit (existingAssociations : list Association.t) : AssocLoop :=
  {| mergedAssociations := [];
     existingAssocById :=
       JsMap.ofEntries (map (λ assoc, (Association.id assoc, assoc)) existingAssociations) |}.

Definition mergedAssocList (existingAssociations aiAssociations : list Association.t)
    : list Association.t :=
  let st := foldl assocStep (assocInit existingAssociations) aiAssociations in
  mergedAssociations st ++ JsMap.values (existingAssocById st).

Definition finalAssociations (existingAssociations aiAssociations : list Association.t)
    : list Association.t :=
  Dedup.viaMap (mergedAssocList existingAssociations aiAssociations).

Record Result := {
  resultClasses : list UMLClass.t;
  resultAssociations : list Association.t
}.

Definition mergeDiagramModifications
    (existingClasses : list UMLClass.t) (existingAssociations : list Association.t)
    (aiClasses : list UMLClass.t) (aiAssociations : list Association.t) : Result :=
  {| resultClasses := finalClasses existingClasses aiClasses;
     resultAssociations := finalAssociations existingAssociations aiAssociations |}.

(** Endpoint integrity of a diagram: both ends of every association are ids
    of classes of the diagram. *)
Definition endpointIntegrity (classes : list UMLClass.t)
    (associations : list Association.t) : Prop :=
  Forall (λ a, Association.fromClassId a ∈ ids classes
               ∧ Association.toClassId a ∈ ids classes)
    associations.

(** [a] has the endpoints of some association of [l]. *)
Definition endpointsFrom (l : list Association.t) (a : Association.t) : Prop :=
  ∃ b, b ∈ l ∧ Association.fromClassId a = Association.fromClassId b
            ∧ Association.toClassId a = Association.toClassId b.

(** An id that the name fallback cannot take away: the id of an existing
    class, or the id of a proposed class whose lower-cased name no existing
    class has. *)
Definition settled (existingClasses aiClasses : list UMLClass.t) (k : string) : Prop :=
  k ∈ ids existingClasses
  ∨ ∃ c, c ∈ aiClasses ∧ UMLClass.id c = k
         ∧ JS.toLowerCase (UMLClass.name c)
           ∉ (λ e, JS.toLowerCase (UMLClass.name e)) <$> existingClasses.

(** What the class loop maintains: the two lookup maps only ever lose
    entries. *)
Record loopInv (existing : list UMLClass.t) (st : ClassLoop) : Prop := {
  inv_byId : existingClassById st `sublist_of` existingClassById (classInit existing);
  inv_byName : existingClassByName st `sublist_of` existingClassByName (classInit existing)
}.

(** A proposed class that shares neither the id nor the lower-cased name of
    the existing class [E]. *)
Definition unrelated (E Q : UMLClass.t) : Prop :=
  UMLClass.id Q ≠ UMLClass.id E
  ∧ JS.toLowerCase (UMLClass.name Q) ≠ JS.toLowerCase (UMLClass.name E).

(** The class pushed when the proposed class [P] is matched with the
    existing class [E] by name:
    [{ ...E, ...P, id: E.id, position: P.position || E.position }]. *)
Definition absorbed (E P : UMLClass.t) : UMLClass.t :=
  {| UMLClass.id := UMLClass.id E;
     UMLClass.name := UMLClass.name P;
     UMLClass.attributes := UMLClass.attributes P;
     UMLClass.position := JS.orObj (UMLClass.position P) (UMLClass.position E) |}.

(** After [P] has been matched with [E]: [E]'s id is no longer a key of
    [existingClassById], and the last class pushed under that id is the
    absorbed one. *)
Record afterInv (existing : list UMLClass.t) (E P : UMLClass.t) (st : ClassLoop)
    : Prop := {
  after_loopInv : loopInv existing st;
  after_byId : JsMap.get (UMLClass.id E) (existingClassById st) = None;
  after_last :
    last (filter (λ c, UMLClass.id c = UMLClass.id E) (mergedClasses st))
    = Some (absorbed E P)
}.

(** Every existing id is either already the id of a merged class or still a
    key of [existingClassById]. *)
Definition covers (existing : list UMLClass.t) (st : ClassLoop) : Prop :=
  ∀ k, k ∈ ids existing →
       k ∈ ids (mergedClasses st) ∨ k ∈ JsMap.keys (existingClassById st).

End WithLowering.

End Merge.

(* ===================================================================== *)
(** * Realtime channel hook ([useRealtimeSync]) *)
(* ===================================================================== *)

Module Sse.

(** [EventSource.readyState] *)
Inductive ReadyState := CONNECTING | OPEN | CLOSED.

Record DiagramData := {
  classes : option (list UMLClass.t);
  associations : option (list Association.t)
}.

Record DiagramUpdate := {
  type : string;
  diagram_id : string;
  diagram_data : option DiagramData;
  timestamp : string;
  user_id : option string
}.

(** [event.data] as the message handler classifies it: a keepalive (blank,
    or starting with a colon), a text on which [JSON.parse] throws, or a
    parsed update. *)
Inductive MessageData :=
  | Keepalive
  | Unparsable
  | Json (data : DiagramUpdate).

(** The refs of the hook.  [eventSourceRef] holds the number of the current
    [EventSource] object, [reconnectTimeoutRef] the delay of the reconnect
    timer it points to; [created] counts the [EventSource] objects built so
    far, [scheduled] logs the delay of every reconnect timer started, and
    [cleanupRegistered] records whether the last run of the effect returned
    a cleanup function. *)
Record Refs := {
  eventSourceRef : option nat;
  reconnectTimeoutRef : option Z;
  reconnectAttemptsRef : Z;
  is404ErrorRef : bool;
  created : nat;
  scheduled : list Z;
  cleanupRegistered : bool
}.

Definition initial : Refs :=
  {| eventSourceRef := None; reconnectTimeoutRef := None;
     reconnectAttemptsRef := 0; is404ErrorRef := false;
     created := 0; scheduled := []; cleanupRegistered := false |}.

Definition maxReconnectAttempts : Z := 5.

(** [connect()]; the [EventSource] constructor is taken not to throw. *)
Definition connect (r : Refs) : Refs :=
  if is404ErrorRef r then r
  else
    {| eventSourceRef := Some (created r);
       reconnectTimeoutRef := reconnectTimeoutRef r;
       reconnectAttemptsRef := reconnectAttemptsRef r;
       is404ErrorRef := is404ErrorRef r;
       created := S (created r);
       scheduled := scheduled r;
       cleanupRegistered := cleanupRegistered r |}.

(** [eventSource.onopen] *)
Definition onopen (r : Refs) : Refs :=
  {| eventSourceRef := eventSourceRef r;
     reconnectTimeoutRef := None;
     reconnectAttemptsRef := 0;
     is404ErrorRef := false;
     created := created r;
     scheduled := scheduled r;
     cleanupRegistered := cleanupRegistered r |}.

(** [eventSource.onmessage]: the arguments of the call to [onUpdate], if
    the handler makes one. *)
Definition onmessage (currentUserId : option string) (m : MessageData)
    : option (list UMLClass.t * list Association.t) :=
  match m with
  | Keepalive => None
  | Unparsable => None
  | Json data =>
      if bool_decide (type data = "update") then
        match diagram_data data with
        | Some dd =>
            if JS.truthyStr (user_id data) && bool_decide (user_id data = currentUserId)
            then None
            else Some (default [] (classes dd), default [] (associations dd))
        | None => None
        end
      else None
  end.

(** [Math.min(1000 * Math.pow(2, attempts), 10000)] *)
Definition reconnectDelay (attempts : Z) : Z :=
  Z.min (1000 * 2 ^ attempts) 10000.

(** [eventSource.onerror], given the [readyState] of the source. *)
Definition onerror (rs : ReadyState) (r : Refs) : Refs :=
  match rs with
  | CLOSED =>
      if reconnectAttemptsRef r =? 0 then
        {| eventSourceRef := eventSourceRef r;
           reconnectTimeoutRef := reconnectTimeoutRef r;
           reconnectAttemptsRef := reconnectAttemptsRef r;
           is404ErrorRef := true;
           created := created r;
           scheduled := scheduled r;
           cleanupRegistered := cleanupRegistered r |}
      else if negb (is404ErrorRef r) && (reconnectAttemptsRef r <? maxReconnectAttempts) then
        let attempts := reconnectAttemptsRef r + 1 in
        let delay := reconnectDelay attempts in
        {| eventSourceRef := eventSourceRef r;
           reconnectTimeoutRef := Some delay;
           reconnectAttemptsRef := attempts;
           is404ErrorRef := is404ErrorRef r;
           created := created r;
           scheduled := scheduled r ++ [delay];
           cleanupRegistered := cleanupRegistered r |}
      else r
  | CONNECTING => r
  | OPEN => r
  end.

(** The cleanup function returned by the effect. *)
Definition cleanup (r : Refs) : Refs :=
  {| eventSourceRef := None;
     reconnectTimeoutRef := None;
     reconnectAttemptsRef := 0;
     is404ErrorRef := false;
     created := created r;
     scheduled := scheduled r;
     cleanupRegistered := false |}.

(** [!enabled || !diagramId || diagramId === 'undefined' || diagramId === 'null'] *)
Definition mustNotConnect (enabled : bool) (diagramId : option string) : bool :=
  negb enabled || negb (JS.truthyStr diagramId)
  || bool_decide (diagramId = Some "undefined") || bool_decide (diagramId = Some "null").

(** Body of the effect. *)
Definition effectBody (enabled : bool) (diagramId : option string) (r : Refs) : Refs :=
  if mustNotConnect enabled diagramId then
    {| eventSourceRef := None;
       reconnectTimeoutRef := reconnectTimeoutRef r;
       reconnectAttemptsRef := reconnectAttemptsRef r;
       is404ErrorRef := is404ErrorRef r;
       created := created r;
       scheduled := scheduled r;
       cleanupRegistered := false |}
  else
    let r' := connect
      {| eventSourceRef := eventSourceRef r;
         reconnectTimeoutRef := reconnectTimeoutRef r;
         reconnectAttemptsRef := 0;
         is404ErrorRef := false;
         created := created r;
         scheduled := scheduled r;
         cleanupRegistered := cleanupRegistered r |} in
    {| eventSourceRef := eventSourceRef r';
       reconnectTimeoutRef := reconnectTimeoutRef r';
       reconnectAttemptsRef := reconnectAttemptsRef r';
       is404ErrorRef := is404ErrorRef r';
       created := created r';
       scheduled := scheduled r';
       cleanupRegistered := true |}.

(** What can happen to the hook: the effect runs (on mount and whenever
    the diagram identifier or another dependency changes, after the
    cleanup of the previous run when there is one), the component
    unmounts, the current source opens, delivers a message (which leaves
    the refs alone) or reports an error, or the reconnect timer fires. *)
Inductive Event :=
  | RunEffect (enabled : bool) (diagramId : option string)
  | Unmounted
  | Opened
  | Received (m : MessageData)
  | Errored (rs : ReadyState)
  | ReconnectTimerFired.

Definition step (r : Refs) (e : Event) : Refs :=
  match e with
  | RunEffect enabled diagramId =>
      effectBody enabled diagramId (if cleanupRegistered r then cleanup r else r)
  | Unmounted => if cleanupRegistered r then cleanup r else r
  | Opened => onopen r
  | Received _ => r
  | Errored rs => onerror rs r
  | ReconnectTimerFired =>
      match reconnectTimeoutRef r with
      | Some _ => connect r
      | None => r
      end
  end.

Definition run (es : list Event) : Refs := foldl step initial es.

(** The attempt counter is zero and no reconnect timer has ever been
    started. *)
Definition neverRetried (r : Refs) : Prop :=
  reconnectAttemptsRef r = 0 ∧ scheduled r = [] ∧ reconnectTimeoutRef r = None.

End Sse.


(* ===================================================================== *)
(** * Editor page ([app/editor/page.tsx]) *)
(* ===================================================================== *)

(** [Partial<UMLClass>] *)
Module PartialUMLClass.
Record t := {
  id : option string;
  name : option string;
  attributes : option (list UMLAttribute.t);
  position : option Position
}.
End PartialUMLClass.

Global Instance PartialUMLClass_eq_dec : EqDecision PartialUMLClass.t.
Proof. solve_decision. Defined.

Module Editor.

(** Callbacks handed to [setTimeout] by [updateClass]. *)
Inductive TimerCallback :=
  | ApplyClassUpdate (id : string) (updatedClass : PartialUMLClass.t)
  | ResetDragging.

Global Instance TimerCallback_eq_dec : EqDecision TimerCallback.
Proof. solve_decision. Defined.

Record Timer := { handle : nat; due : Z; callback : TimerCallback }.

(** The state of the page that the handlers below read and write: the
    [classes], [associations] and [selectedClass] React states, the two
    refs, and the browser's queue of pending timers kept in firing order
    (by due time, then by creation). *)
Record State := {
  classes : list UMLClass.t;
  associations : list Association.t;
  selectedClass : option string;
  isDraggingRef : bool;
  dragTimeoutRef : option nat;
  timers : list Timer;
  nextHandle : nat
}.

Definition initial : State :=
  {| classes := []; associations := []; selectedClass := None;
     isDraggingRef := false; dragTimeoutRef := None;
     timers := []; nextHandle := 1 |}.

Definition setClasses (f : list UMLClass.t → list UMLClass.t) (st : State) : State :=
  {| classes := f (classes st); associations := associations st;
     selectedClass := selectedClass st; isDraggingRef := isDraggingRef st;
     dragTimeoutRef := dragTimeoutRef st; timers := timers st;
     nextHandle := nextHandle st |}.

Definition setAssociations (f : list Association.t → list Association.t) (st : State) : State :=
  {| classes := classes st; associations := f (associations st);
     selectedClass := selectedClass st; isDraggingRef := isDraggingRef st;
     dragTimeoutRef := dragTimeoutRef st; timers := timers st;
     nextHandle := nextHandle st |}.

Definition setSelectedClass (s : option string) (st : State) : State :=
  {| classes := classes st; associations := associations st;
     selectedClass := s; isDraggingRef := isDraggingRef st;
     dragTimeoutRef := dragTimeoutRef st; timers := timers st;
     nextHandle := nextHandle st |}.

Definition setDragging (b : bool) (ref : option nat) (st : State) : State :=
  {| classes := classes st; associations := associations st;
     selectedClass := selectedClass st; isDraggingRef := b;
     dragTimeoutRef := ref; timers := timers st;
     nextHandle := nextHandle st |}.

Definition setTimers (q : list Timer) (next : nat) (st : State) : State :=
  {| classes := classes st; associations := associations st;
     selectedClass := selectedClass st; isDraggingRef := isDraggingRef st;
     dragTimeoutRef := dragTimeoutRef st; timers := q;
     nextHandle := next |}.

(** A new timer goes behind the pending ones that are due no later. *)
Fixpoint enqueue (tm : Timer) (q : list Timer) : list Timer :=
  match q with
  | [] => [tm]
  | tm' :: q' => if due tm' <=? due tm then tm' :: enqueue tm q' else tm :: q
  end.

(** [setTimeout(callback, delay)] at time [now]; the new handle is the old
    [nextHandle]. *)
Definition setTimeout (now delay : Z) (cb : TimerCallback) (st : State) : State :=
  setTimers
    (enqueue {| handle := nextHandle st; due := now + delay; callback := cb |} (timers st))
    (S (nextHandle st)) st.

(** [clearTimeout(h)] *)
Definition clearTimeout (h : nat) (st : State) : State :=
  setTimers (filter (λ tm, handle tm ≠ h) (timers st)) (nextHandle st) st.

(** [{ ...cls, ...updatedClass }] *)
Definition spread (cls : UMLClass.t) (updatedClass : PartialUMLClass.t) : UMLClass.t :=
  {| UMLClass.id := default (UMLClass.id cls) (PartialUMLClass.id updatedClass);
     UMLClass.name := default (UMLClass.name cls) (PartialUMLClass.name updatedClass);
     UMLClass.attributes :=
       default (UMLClass.attributes cls) (PartialUMLClass.attributes updatedClass);
     UMLClass.position :=
       JS.spreadKey (UMLClass.position cls) (PartialUMLClass.position updatedClass) |}.

(** The updater that [updateClass] defers:
    [prev => prev.find(c => c.id === id) ? prev.map(...) : prev] *)
Definition applyClassUpdate (id : string) (updatedClass : PartialUMLClass.t)
    (prev : list UMLClass.t) : list UMLClass.t :=
  match List.find (λ c, bool_decide (UMLClass.id c = id)) prev with
  | None => prev
  | Some _ =>
      map (λ cls, if bool_decide (UMLClass.id cls = id) then spread cls updatedClass else cls)
        prev
  end.

Definition fire (st : State) (tm : Timer) : State :=
  match callback tm with
  | ApplyClassUpdate id updatedClass => setClasses (applyClassUpdate id updatedClass) st
  | ResetDragging => setDragging false None st
  end.

(** The event loop up to time [now]: every pending timer that is due runs,
    in queue order, before anything that happens at [now]. *)
Definition advance (now : Z) (st : State) : State :=
  foldl fire
    (setTimers (filter (λ tm, now < due tm) (timers st)) (nextHandle st) st)
    (filter (λ tm, due tm ≤ now) (timers st)).

(** [JSON.stringify(prev) !== JSON.stringify(next)].  On values of the
    record types above (fixed key order, optional keys absent or present)
    the two texts differ exactly when the values do. *)
Definition jsonDiffers {A : Type} `{EqDecision A} (prev next : A) : bool :=
  negb (bool_decide (prev = next)).

(** [handleRealtimeUpdate(newClasses, newAssociations)] *)
Definition handleRealtimeUpdate (newClasses : list UMLClass.t)
    (newAssociations : list Association.t) (st : State) : State :=
  if negb (isDraggingRef st) then
    let uniqueClasses := Dedup.uniqueById newClasses in
    let uniqueAssociations := Dedup.uniqueById newAssociations in
    setAssociations
      (λ prev, if jsonDiffers prev uniqueAssociations then uniqueAssociations else prev)
      (setClasses
         (λ prev, if jsonDiffers prev uniqueClasses then uniqueClasses else prev)
         st)
  else st.

(** [updateClass(id, updatedClass)] called at time [now]. *)
Definition updateClass (now : Z) (id : string) (updatedClass : PartialUMLClass.t)
    (st : State) : State :=
  match PartialUMLClass.position updatedClass with
  | Some _ =>
      let st1 := setDragging true (dragTimeoutRef st) st in
      let st2 := setTimeout now 0 (ApplyClassUpdate id updatedClass) st1 in
      let st3 :=
        match dragTimeoutRef st2 with
        | Some h => clearTimeout h st2
        | None => st2
        end in
      let h := nextHandle st3 in
      setDragging (isDraggingRef st3) (Some h) (setTimeout now 200 ResetDragging st3)
  | None => setTimeout now 0 (ApplyClassUpdate id updatedClass) st
  end.

(** [removeClass(id)] *)
Definition removeClass (id : string) (st : State) : State :=
  let st1 := setClasses (λ prev, filter (λ cls, UMLClass.id cls ≠ id) prev) st in
  let st2 :=
    setAssociations
      (λ prev, filter (λ assoc, Association.fromClassId assoc ≠ id
                                ∧ Association.toClassId assoc ≠ id) prev)
      st1 in
  if bool_decide (selectedClass st = Some id) then setSelectedClass None st2 else st2.

(** [handleGenerateClasses(newClasses)] *)
Definition handleGenerateClasses (newClasses : list UMLClass.t) (st : State) : State :=
  setClasses
    (λ prev,
       let existingIds : gset string := list_to_set (map UMLClass.id prev) in
       prev ++ filter (λ cls, UMLClass.id cls ∉ existingIds) newClasses)
    st.

(** [handleGenerateAssociations(newAssociations)] *)
Definition handleGenerateAssociations (newAssociations : list Association.t)
    (st : State) : State :=
  setAssociations
    (λ prev,
       let existingIds : gset string := list_to_set (map Association.id prev) in
       prev ++ filter (λ assoc, Association.id assoc ∉ existingIds) newAssociations)
    st.

(** [handleModifyDiagram(newClasses, newAssociations)] *)
Definition handleModifyDiagram (newClasses : list UMLClass.t)
    (newAssociations : list Association.t) (st : State) : State :=
  let uniqueClasses := Dedup.uniqueById newClasses in
  let uniqueAssociations := Dedup.uniqueById newAssociations in
  setAssociations (λ _, uniqueAssociations) (setClasses (λ _, uniqueClasses) st).

(** What happens on the page, each occurrence stamped with its time. *)
Inductive Event :=
  | UpdateClass (id : string) (updatedClass : PartialUMLClass.t)
  | RealtimeUpdate (newClasses : list UMLClass.t) (newAssociations : list Association.t)
  | RemoveClass (id : string)
  | ModifyDiagram (newClasses : list UMLClass.t) (newAssociations : list Association.t).

Definition handle_event (now : Z) (e : Event) (st : State) : State :=
  match e with
  | UpdateClass id updatedClass => updateClass now id updatedClass st
  | RealtimeUpdate newClasses newAssociations =>
      handleRealtimeUpdate newClasses newAssociations st
  | RemoveClass id => removeClass id st
  | ModifyDiagram newClasses newAssociations =>
      handleModifyDiagram newClasses newAssociations st
  end.

Definition step (st : State) (te : Z * Event) : State :=
  handle_event te.1 te.2 (advance te.1 st).

Definition run (st : State) (trace : list (Z * Event)) : State := foldl step st trace.

(** The pending timers that will clear the drag flag. *)
Definition resets (st : State) : list Timer :=
  filter (λ tm, callback tm = ResetDragging) (timers st).

(** No drag is in progress: the flag is down and no timer is left to clear
    it. *)
Definition Idle (st : State) : Prop :=
  resets st = [] ∧ isDraggingRef st = false.

(** A drag is in progress: the flag is up, and the one pending timer that
    will clear it is the one [dragTimeoutRef] holds; it is due at [d]. *)
Definition Dragging (d : Z) (st : State) : Prop :=
  ∃ tm, resets st = [tm] ∧ due tm = d
        ∧ dragTimeoutRef st = Some (handle tm) ∧ isDraggingRef st = true.

(** The states the page can be in. *)
Definition wf (st : State) : Prop := Idle st ∨ ∃ d, Dragging d st.

(** A position update, the kind of event that raises the drag flag. *)
Definition isDrag (e : Event) : bool :=
  match e with
  | UpdateClass _ updatedClass =>
      match PartialUMLClass.position updatedClass with
      | Some _ => true
      | None => false
      end
  | _ => false
  end.

(** The message handler of the realtime hook wired to the page
    ([onUpdate: handleRealtimeUpdate], [currentUserId: user?.id]). *)
Definition onRealtimeMessage (currentUserId : option string) (m : Sse.MessageData)
    (st : State) : State :=
  match Sse.onmessage currentUserId m with
  | Some (newClasses, newAssociations) => handleRealtimeUpdate newClasses newAssociations st
  | None => st
  end.

End Editor.

(* ===================================================================== *)
(** * AI modification ([modifyExistingDiagram], [AIAssistantPanel]) *)
(* ===================================================================== *)

(** [UMLAssociationJSON] of [lib/uml-validator.ts] *)
Module UMLAssociationJSON.
Record t := {
  id : string;
  fromClassId : string;
  toClassId : string;
  fromMultiplicity : string;
  toMultiplicity : string;
  relationshipType : RelationshipType;
  inheritanceType : option InheritanceType;
  cascadeDelete : option bool;
  associationClass : option AssociationClass.t
}.
End UMLAssociationJSON.

Module Gemini.

(** [UMLDiagramJSON]; the validator accepts a diagram without an
    [associations] key. *)
Record UMLDiagramJSON := {
  jsonClasses : list UMLClass.t;
  jsonAssociations : option (list UMLAssociationJSON.t)
}.

(** The value returned by [validateUMLDiagramJSON]. *)
Record Validation := {
  isValid : bool;
  validatedDiagram : option UMLDiagramJSON;
  validationError : option string
}.

(** The four failing returns of [validateUMLDiagramJSON]; [detail] is the
    text interpolated into the message (the error of the class or
    association validation, or the message of the exception caught). *)
Inductive ValidationFailure :=
  | ClassesInvalid (detail : string)
  | AssociationsNotArray
  | AssociationsInvalid (detail : string)
  | InvalidJSON (detail : string).

Definition failureText (f : ValidationFailure) : string :=
  match f with
  | ClassesInvalid detail => "Classes validation failed: " +:+ detail
  | AssociationsNotArray => "associations must be an array"
  | AssociationsInvalid detail => "Associations validation failed: " +:+ detail
  | InvalidJSON detail => "Invalid JSON: " +:+ detail
  end.

(** [{ isValid: false, error: ... }] *)
Definition failed (f : ValidationFailure) : Validation :=
  {| isValid := false; validatedDiagram := None;
     validationError := Some (failureText f) |}.

Record Diagram := {
  classes : list UMLClass.t;
  associations : list Association.t
}.

Record GenerateDiagramResponse := {
  success : bool;
  diagram : option Diagram;
  message : string;
  error : option string
}.

(** The callback of [validation.diagram.associations.map(...)]. *)
Definition toAssociation (assoc : UMLAssociationJSON.t) : Association.t :=
  {| Association.id := UMLAssociationJSON.id assoc;
     Association.fromClassId := UMLAssociationJSON.fromClassId assoc;
     Association.toClassId := UMLAssociationJSON.toClassId assoc;
     Association.fromMultiplicity :=
       JS.orStr (Some (UMLAssociationJSON.fromMultiplicity assoc)) "1";
     Association.toMultiplicity :=
       JS.orStr (Some (UMLAssociationJSON.toMultiplicity assoc)) "1";
     Association.relationshipType := UMLAssociationJSON.relationshipType assoc;
     Association.associationClass := None;
     Association.inheritanceType := None;
     Association.cascadeDelete := None |}.

(** [validation.diagram.associations.map(...)] raises a [TypeError] when
    [associations] is not an array: the validator lets a diagram through
    whose [associations] is missing, [null], [false], [0] or the empty
    string.  The message of the error depends on the engine and on which
    of these values it met; it is left open. *)
Class MapError := mapError : string.

(** The [catch] block of [modifyExistingDiagram] for an [Error] without an
    [error] property, as that [TypeError] is: [error.message] is the
    [detailedError] it starts from, and of the tests for an overloaded
    model only the ones on the message can succeed. *)
Definition caughtError (detailedError : string) : GenerateDiagramResponse :=
  if JS.includes "overloaded" detailedError then
    {| success := false; diagram := None;
       message := "El modelo de IA está sobrecargado. Por favor, intenta de nuevo en unos momentos.";
       error := Some "Modelo sobrecargado - Servicio temporalmente no disponible" |}
  else
    {| success := false; diagram := None;
       message := "Error modifying diagram with AI service";
       error := Some detailedError |}.

(** [modifyExistingDiagram] from the point where the response of the AI
    service has been validated: the argument [validation] stands for
    [validateUMLDiagramJSON(fixedJsonText)]. *)
Definition modifyExistingDiagram `{JS.Lowering} `{MapError}
    (existingClasses : list UMLClass.t)
    (existingAssociations : list Association.t) (validation : Validation)
    : GenerateDiagramResponse :=
  match isValid validation, validatedDiagram validation with
  | true, Some d =>
      match jsonAssociations d with
      | Some assocs =>
          let aiClasses := jsonClasses d in
          let aiAssociations := map toAssociation assocs in
          let r := Merge.mergeDiagramModifications existingClasses existingAssociations
                     aiClasses aiAssociations in
          {| success := true;
             diagram := Some {| classes := Merge.resultClasses r;
                                associations := Merge.resultAssociations r |};
             message := "Successfully modified diagram: "
                        +:+ pretty (length (Merge.resultClasses r))
                        +:+ " classes and "
                        +:+ pretty (length (Merge.resultAssociations r))
                        +:+ " associations";
             error := None |}
      | None => caughtError mapError
      end
  | _, _ =>
      {| success := false; diagram := None;
         message := "Failed to generate valid modified UML diagram";
         error := validationError validation |}
  end.

End Gemini.

Module AiPanel.

(** The React states of the assistant panel that [handleModifyDiagram]
    writes, and [isChatMode], which decides with [modificationMode] what
    the panel renders. *)
Record State := {
  isChatMode : bool;
  modificationPrompt : string;
  modificationMode : bool;
  error : option string;
  isModifying : bool
}.

(** [response.error || response.message || "Error desconocido ..."] *)
Definition errorMsg (response : Gemini.GenerateDiagramResponse) : string :=
  JS.orStr
    (Some (JS.orStr (Gemini.error response) (Gemini.message response)))
    "Error desconocido al modificar el diagrama".

(** [handleModifyDiagram] once [modifyExistingDiagram] has returned
    [response]; [onModifyDiagram] is the optional prop, and the page passes
    [Editor.handleModifyDiagram]. *)
Definition handleModifyDiagram
    (onModifyDiagram :
       option (list UMLClass.t → list Association.t → Editor.State → Editor.State))
    (response : Gemini.GenerateDiagramResponse)
    (panel : State) (page : Editor.State) : State * Editor.State :=
  match Gemini.success response, Gemini.diagram response with
  | true, Some d =>
      let page' :=
        match onModifyDiagram with
        | Some f => f (Gemini.classes d) (Gemini.associations d) page
        | None =>
            Editor.handleGenerateAssociations (Gemini.associations d)
              (Editor.handleGenerateClasses (Gemini.classes d) page)
        end in
      ({| isChatMode := isChatMode panel;
          modificationPrompt := ""; modificationMode := false;
          error := None; isModifying := false |}, page')
  | _, _ =>
      ({| isChatMode := isChatMode panel;
          modificationPrompt := modificationPrompt panel;
          modificationMode := modificationMode panel;
          error := Some (errorMsg response); isModifying := false |}, page)
  end.

(** The whole modification round.  The request is made with
    [existingClasses] and [existingAssociations], the props of the panel
    at the click; [panel] and [page] are the panel and the page as they
    are when the service has answered, and it is they that receive the
    outcome. *)
Definition modifyRound `{JS.Lowering} `{Gemini.MapError}
    (validation : Gemini.Validation)
    (existingClasses : list UMLClass.t) (existingAssociations : list Association.t)
    (panel : State) (page : Editor.State) : State * Editor.State :=
  handleModifyDiagram (Some Editor.handleModifyDiagram)
    (Gemini.modifyExistingDiagram existingClasses existingAssociations validation)
    panel page.

(** The buttons [Create New] and [Modify Existing]:
    [setModificationMode(b)]. *)
Definition setModificationMode (b : bool) (panel : State) : State :=
  {| isChatMode := isChatMode panel;
     modificationPrompt := modificationPrompt panel;
     modificationMode := b;
     error := error panel; isModifying := isModifying panel |}.

(** The red box of the panel, [{error && (<div>...{error}...</div>)}].
    The JSX has it in one place, inside the creation-mode branch of the
    generation tab: the box is rendered when the chat tab is not the open
    one, [modificationMode] is off and [error] is a non-empty string. *)
Definition errorBox (panel : State) : option string :=
  if isChatMode panel then None
  else if modificationMode panel then None
  else if JS.truthyStr (error panel) then error panel
  else None.

End AiPanel.


(** Lower-cased name of a class, the key of [existingClassByName]. *)
Abbreviation lname c := (JS.toLowerCase (UMLClass.name c)).

(** A timer whose callback clears the drag flag. *)
Abbreviation isReset tm := (Editor.callback tm = Editor.ResetDragging).

(* ===================================================================== *)
(** * Sample diagrams *)
(* ===================================================================== *)

Module Sample.

(** [toLowerCase] on a text written in ASCII, as the names of the sample
    diagrams are: the letters A to Z are lowered and every other character
    is kept. *)
Definition lowerAscii (c : ascii) : ascii :=
  let n := nat_of_ascii c in
  if ((65 <=? n)%nat && (n <=? 90)%nat)%bool then ascii_of_nat (n + 32) else c.

Fixpoint asciiToLowerCase (s : string) : string :=
  match s with
  | EmptyString => EmptyString
  | String c s' => String (lowerAscii c) (asciiToLowerCase s')
  end.

Definition lowering : JS.Lowering := asciiToLowerCase.

(** A message of V8 for [undefined.map(...)]. *)
Definition mapOfUndefined : Gemini.MapError :=
  "Cannot read properties of undefined (reading 'map')".

Definition cls (id name : string) : UMLClass.t :=
  {| UMLClass.id := id; UMLClass.name := name;
     UMLClass.attributes := []; UMLClass.position := None |}.

Definition placed (id name : string) (x y : Z) : UMLClass.t :=
  {| UMLClass.id := id; UMLClass.name := name;
     UMLClass.attributes := []; UMLClass.position := Some {| x := x; y := y |} |}.

Definition email : UMLAttribute.t :=
  {| UMLAttribute.id := "attr-2"; UMLAttribute.name := "email";
     UMLAttribute.type := TString |}.

(** A plain association from class [from] to class [to]. *)
Definition link (id from to : string) : Association.t :=
  {| Association.id := id;
     Association.fromClassId := from;
     Association.toClassId := to;
     Association.fromMultiplicity := "1";
     Association.toMultiplicity := "*";
     Association.relationshipType := association;
     Association.associationClass := None;
     Association.inheritanceType := None;
     Association.cascadeDelete := None |}.

(** The proposal of the AI service that renames nothing but gives the class
    "User" a fresh id and new content. *)
Definition proposedUser : UMLClass.t :=
  {| UMLClass.id := "c2"; UMLClass.name := "USER";
     UMLClass.attributes := [email]; UMLClass.position := None |}.

(** A pointer move that puts class [id] at [(x, y)]. *)
Definition moveTo (x y : Z) : PartialUMLClass.t :=
  {| PartialUMLClass.id := None; PartialUMLClass.name := None;
     PartialUMLClass.attributes := None;
     PartialUMLClass.position := Some {| x := x; y := y |} |}.

(** A realtime message from user [uid] carrying [classes] and no
    associations. *)
Definition pushFrom (uid : option string) (classes : list UMLClass.t) : Sse.DiagramUpdate :=
  {| Sse.type := "update"; Sse.diagram_id := "d1";
     Sse.diagram_data := Some {| Sse.classes := Some classes; Sse.associations := None |};
     Sse.timestamp := "2025-01-01T00:00:00Z";
     Sse.user_id := uid |}.

(** The page showing the classes A and B and one association from A to B. *)
Definition pageAB : Editor.State :=
  {| Editor.classes := [cls "A" "A"; cls "B" "B"];
     Editor.associations := [link "ab" "A" "B"];
     Editor.selectedClass := Some "A";
     Editor.isDraggingRef := false;
     Editor.dragTimeoutRef := None;
     Editor.timers := [];
     Editor.nextHandle := 1 |}.

End Sample.

(* ===================================================================== *)
(** * More handlers of the editor page ([app/editor/page.tsx]) *)
(* ===================================================================== *)

Module Page.

(** [addClass(newClass)] *)
Definition addClass (newClass : UMLClass.t) (st : Editor.State) : Editor.State :=
  Editor.setClasses
    (λ prev,
       if existsb (λ cls, bool_decide (UMLClass.id cls = UMLClass.id newClass)) prev
       then prev
       else prev ++ [newClass])
    st.

(** [addAssociation(association)] *)
Definition addAssociation (association : Association.t) (st : Editor.State)
    : Editor.State :=
  Editor.setAssociations
    (λ prev,
       if existsb (λ assoc, bool_decide (Association.id assoc = Association.id association))
            prev
       then prev
       else prev ++ [association])
    st.

(** [updateAssociation(updatedAssociation)] *)
Definition updateAssociation (updatedAssociation : Association.t) (st : Editor.State)
    : Editor.State :=
  Editor.setAssociations
    (λ prev,
       map (λ assoc,
              if bool_decide (Association.id assoc = Association.id updatedAssociation)
              then updatedAssociation else assoc)
         prev)
    st.

(** [removeAssociation(id)] *)
Definition removeAssociation (id : string) (st : Editor.State) : Editor.State :=
  Editor.setAssociations (λ prev, filter (λ assoc, Association.id assoc ≠ id) prev) st.

(** The part of [loadDiagram] (and of [handleJoinDiagram]) that puts the
    stored [diagram_data] on the page:
    [classes = diagramData.classes || []], the by-id filter, [setClasses];
    the same for the associations. *)
Definition loadDiagramData (diagramData : Sse.DiagramData) (st : Editor.State)
    : Editor.State :=
  let classes := default [] (Sse.classes diagramData) in
  let associations := default [] (Sse.associations diagramData) in
  let uniqueClasses := Dedup.uniqueById classes in
  let uniqueAssociations := Dedup.uniqueById associations in
  Editor.setAssociations (λ _, uniqueAssociations)
    (Editor.setClasses (λ _, uniqueClasses) st).

(** The two id lists of the page have no repetition. *)
Definition uniqueIds (st : Editor.State) : Prop :=
  NoDup (ids (Editor.classes st)) ∧ NoDup (ids (Editor.associations st)).

(** Endpoint integrity of the page. *)
Definition integral (st : Editor.State) : Prop :=
  Merge.endpointIntegrity (Editor.classes st) (Editor.associations st).

(** Everything the page can be asked to do to its diagram: the events of
    [Editor] and the handlers above. *)
Inductive Action :=
  | Edit (e : Editor.Event)
  | AddClass (newClass : UMLClass.t)
  | AddAssociation (association : Association.t)
  | UpdateAssociation (updatedAssociation : Association.t)
  | RemoveAssociation (id : string)
  | GenerateClasses (newClasses : list UMLClass.t)
  | GenerateAssociations (newAssociations : list Association.t)
  | LoadDiagram (diagramData : Sse.DiagramData).

Definition handle (now : Z) (act : Action) (st : Editor.State) : Editor.State :=
  match act with
  | Edit e => Editor.handle_event now e st
  | AddClass newClass => addClass newClass st
  | AddAssociation assoc => addAssociation assoc st
  | UpdateAssociation updatedAssociation => updateAssociation updatedAssociation st
  | RemoveAssociation id => removeAssociation id st
  | GenerateClasses newClasses => Editor.handleGenerateClasses newClasses st
  | GenerateAssociations newAssociations =>
      Editor.handleGenerateAssociations newAssociations st
  | LoadDiagram diagramData => loadDiagramData diagramData st
  end.

(** The timers that are due run first, as in [Editor.step]. *)
Definition step (st : Editor.State) (ta : Z * Action) : Editor.State :=
  handle ta.1 ta.2 (Editor.advance ta.1 st).

Definition run (st : Editor.State) (trace : list (Z * Action)) : Editor.State :=
  foldl step st trace.

(** A deferred class update that has no [id] key, as the updates sent by
    the canvas ([{ position }]) and by the class editor
    ([{ name, attributes }]). *)
Definition keepsId (cb : Editor.TimerCallback) : Prop :=
  match cb with
  | Editor.ApplyClassUpdate _ updatedClass => PartialUMLClass.id updatedClass = None
  | Editor.ResetDragging => True
  end.

(** The invariant of the page: no id is repeated, and no pending class
    update can change an id. *)
Definition invariant (st : Editor.State) : Prop :=
  uniqueIds st
  ∧ Forall (λ tm, keepsId (Editor.callback tm)) (Editor.timers st).

(** An action whose class update has no [id] key and whose generated list
    has no repeated id. *)
Definition tame (act : Action) : Prop :=
  match act with
  | Edit (Editor.UpdateClass _ updatedClass) => PartialUMLClass.id updatedClass = None
  | GenerateClasses newClasses => NoDup (ids newClasses)
  | GenerateAssociations newAssociations => NoDup (ids newAssociations)
  | _ => True
  end.

End Page.

(* ===================================================================== *)
(** * Retrying the AI service ([retryWithBackoff], [lib/gemini-service.ts]) *)
(* ===================================================================== *)

Module Retry.

(** What the retry loop reads of a thrown value: [error?.error?.code] and
    [error?.error?.status]. *)
Record ApiError := {
  code : option Z;
  status : option string;
  message : string
}.

(** How a call of [fn] settles. *)
Inductive Outcome (T : Type) :=
  | Resolved (value : T)
  | Rejected (error : ApiError).
Arguments Resolved {T} value.
Arguments Rejected {T} error.

(** How [retryWithBackoff] settles; [Threw None] is [throw lastError] with
    [lastError] still undefined. *)
Inductive Settled (T : Type) :=
  | Returned (value : T)
  | Threw (error : option ApiError).
Arguments Returned {T} value.
Arguments Threw {T} error.

(** A run of [retryWithBackoff]: how it settled, how many times [fn] was
    called, and the delays it waited, in order. *)
Record Run (T : Type) := {
  settled : Settled T;
  calls : nat;
  delays : list Z
}.
Arguments settled {T} r.
Arguments calls {T} r.
Arguments delays {T} r.

(** [code === 401 || code === 403 || code === 400] *)
Definition notRetried (e : ApiError) : bool :=
  bool_decide (code e = Some 401) || bool_decide (code e = Some 403)
  || bool_decide (code e = Some 400).

(** [code === 503 || code === 429 || status === "UNAVAILABLE"] *)
Definition retried (e : ApiError) : bool :=
  bool_decide (code e = Some 503) || bool_decide (code e = Some 429)
  || bool_decide (status e = Some "UNAVAILABLE").

(** [baseDelay * Math.pow(2, attempt)] *)
Definition delayOf (baseDelay : Z) (attempt : nat) : Z := baseDelay * 2 ^ Z.of_nat attempt.

(** The [for] loop from [attempt] on, [remaining] being
    [maxRetries - attempt]; [fn k] is how the call number [k] of [fn]
    settles. *)
Fixpoint loop {T : Type} (fn : nat → Outcome T) (maxRetries : nat) (baseDelay : Z)
    (attempt remaining : nat) (waited : list Z) : Run T :=
  match remaining with
  | O => {| settled := Threw None; calls := attempt; delays := waited |}
  | S remaining' =>
      match fn attempt with
      | Resolved value =>
          {| settled := Returned value; calls := S attempt; delays := waited |}
      | Rejected error =>
          if notRetried error then
            {| settled := Threw (Some error); calls := S attempt; delays := waited |}
          else if retried error && (Z.of_nat attempt <? Z.of_nat maxRetries - 1) then
            loop fn maxRetries baseDelay (S attempt) remaining'
              (waited ++ [delayOf baseDelay attempt])
          else
            {| settled := Threw (Some error); calls := S attempt; delays := waited |}
      end
  end.

(** [retryWithBackoff(fn, maxRetries, baseDelay)] *)
Definition retryWithBackoff {T : Type} (fn : nat → Outcome T) (maxRetries : nat)
    (baseDelay : Z) : Run T :=
  loop fn maxRetries baseDelay 0 maxRetries [].

(** The call made by [modifyExistingDiagram]: [retryWithBackoff(..., 3, 2000)]. *)
Definition callModel {T : Type} (fn : nat → Outcome T) : Run T :=
  retryWithBackoff fn 3 2000.

End Retry.

(* ===================================================================== *)
(** * Unwrapping a fenced answer ([cleanupJsonString], [lib/utils.ts]) *)
(* ===================================================================== *)

Module Text.

(** The line feed. *)
Definition LF : ascii := "010"%char.

(** The three backticks of a fence, and the opening fence with its tag. *)
Definition fence : list ascii := ["`"; "`"; "`"]%char.
Definition fenceJson : list ascii := fence ++ ["j"; "s"; "o"; "n"]%char.

(** [s.startsWith(p)], on the characters. *)
Fixpoint startsWith (p s : list ascii) : bool :=
  match p, s with
  | [], _ => true
  | _ :: _, [] => false
  | a :: p', b :: s' => bool_decide (a = b) && startsWith p' s'
  end.

(** [s.replace(/p\n?/, '')] on a text that starts with [p], where the
    first match is the one at the start: the opening fence goes, and a line
    feed right behind it. *)
Definition dropOpening (p s : list ascii) : list ascii :=
  match drop (length p) s with
  | c :: rest => if bool_decide (c = LF) then rest else c :: rest
  | [] => []
  end.

(** [s.replace(/\n?```$/, '')]: three backticks at the very end go, and a
    line feed right before them. *)
Definition dropClosing (s : list ascii) : list ascii :=
  match reverse s with
  | c1 :: c2 :: c3 :: before =>
      if bool_decide ([c1; c2; c3] = fence) then
        match before with
        | c :: before' => if bool_decide (c = LF) then reverse before' else reverse before
        | [] => []
        end
      else s
  | _ => s
  end.

Definition cleanupChars (s : list ascii) : list ascii :=
  if startsWith fenceJson s then dropClosing (dropOpening fenceJson s)
  else if startsWith fence s then dropClosing (dropOpening fence s)
  else s.

(** [cleanupJsonString(jsonString)] *)
Definition cleanupJsonString (jsonString : string) : string :=
  string_of_list_ascii (cleanupChars (list_ascii_of_string jsonString)).

End Text.

(* ===================================================================== *)
(** * Invariants of the association loop of the merge engine *)
(* ===================================================================== *)

Module AssocInv.

(** What the association loop maintains: [existingAssocById] only ever
    loses entries. *)
Definition keyed (existing : list Association.t) (st : Merge.AssocLoop) : Prop :=
  Merge.existingAssocById st
    `sublist_of` Merge.existingAssocById (Merge.assocInit existing).

(** The ids in play: the ids of the merged associations and the keys still
    in the map. *)
Definition known (st : Merge.AssocLoop) (k : string) : Prop :=
  k ∈ ids (Merge.mergedAssociations st) ∨ k ∈ JsMap.keys (Merge.existingAssocById st).

End AssocInv.


(* ===================================================================== *)
(** * More sample data *)
(* ===================================================================== *)

Module Fixture.

(** A composition from class [from] to class [to] that deletes in cascade. *)
Definition owned (id from to : string) : Association.t :=
  {| Association.id := id;
     Association.fromClassId := from;
     Association.toClassId := to;
     Association.fromMultiplicity := "1";
     Association.toMultiplicity := "*";
     Association.relationshipType := composition;
     Association.associationClass := None;
     Association.inheritanceType := None;
     Association.cascadeDelete := Some true |}.

(** The same composition as the AI service writes it. *)
Definition answered (id from to : string) : UMLAssociationJSON.t :=
  {| UMLAssociationJSON.id := id;
     UMLAssociationJSON.fromClassId := from;
     UMLAssociationJSON.toClassId := to;
     UMLAssociationJSON.fromMultiplicity := "1";
     UMLAssociationJSON.toMultiplicity := "*";
     UMLAssociationJSON.relationshipType := composition;
     UMLAssociationJSON.inheritanceType := None;
     UMLAssociationJSON.cascadeDelete := None;
     UMLAssociationJSON.associationClass := None |}.

End Fixture.


(* ===================================================================== *)
(** * Counting the connections of the realtime hook *)
(* ===================================================================== *)

Module SseCount.

(** A run of the effect that gets as far as [connect()]. *)
Definition connects (e : Sse.Event) : bool :=
  match e with
  | Sse.RunEffect enabled diagramId => negb (Sse.mustNotConnect enabled diagramId)
  | _ => false
  end.

End SseCount.


(* ===================================================================== *)
(** * JSON values and the validator ([lib/uml-validator.ts]) *)
(* ===================================================================== *)

Module Json.

(** What the code below takes from the JavaScript engine: the numbers
    that [JSON.parse] makes of a number token, which are the doubles and,
    for a token out of range such as [1e400], [Infinity] or [-Infinity];
    whether a number is falsy (zero); whether it is finite, which decides
    if [JSON.stringify] writes it or writes [null]; the message of the
    [SyntaxError] of [JSON.parse(undefined)]; and the message of the
    [TypeError] of reading a property of [null]. *)
Class Engine := {
  Num : Type;
  isZero : Num → bool;
  isFinite : Num → bool;
  undefinedIsNotJson : string;
  cannotReadNull : string → string
}.

(** A computation inside a [try]: its result, or the message of the error
    thrown. *)
Inductive Try (A : Type) :=
  | Done (a : A)
  | Thrown (message : string).
Arguments Done {A} a.
Arguments Thrown {A} message.

(** The answers of [typeof]. *)
Inductive TypeOf := TUndefined | TObject | TBoolean | TNumber | TString.

Global Instance TypeOf_eq_dec : EqDecision TypeOf.
Proof. solve_decision. Defined.

#[local] Set Warnings "-register-all".

Section Values.
Context `{Engine}.

(** A value made by [JSON.parse]; the fields of an object are in the order
    of its keys. *)
Inductive t :=
  | JNull
  | JBool (b : bool)
  | JNum (n : Num)
  | JStr (s : string)
  | JArr (items : list t)
  | JObj (fields : JsMap.t t).

(** A JSON text as [JSON.parse] sees it: the value it stands for, or the
    message of the [SyntaxError]. *)
Inductive Text :=
  | Parsed (v : t)
  | Malformed (message : string).

(** The value that the text [JSON.stringify(v)] stands for, [v] being a
    value made by [JSON.parse]: [JSON.stringify] writes [null] for a number
    that is not finite, inside arrays and objects too, and writes every
    other value so that it is read back (up to the sign of a zero, which
    nothing below reads). *)
Fixpoint roundTrip (v : t) : t :=
  match v with
  | JNum n => if isFinite n then JNum n else JNull
  | JArr items => JArr (map roundTrip items)
  | JObj fields => JObj (map (λ kv, let '(k, w) := kv in (k, roundTrip w)) fields)
  | _ => v
  end.

(** [JSON.stringify(v)] *)
Definition stringify (v : t) : Text := Parsed (roundTrip v).

(** [typeof v]; a value read from a property is an [option], [None] being
    [undefined]. *)
Definition typeOf (v : option t) : TypeOf :=
  match v with
  | None => TUndefined
  | Some JNull => TObject
  | Some (JBool _) => TBoolean
  | Some (JNum _) => TNumber
  | Some (JStr _) => TString
  | Some (JArr _) => TObject
  | Some (JObj _) => TObject
  end.

Definition truthy (v : option t) : bool :=
  match v with
  | None => false
  | Some JNull => false
  | Some (JBool b) => b
  | Some (JNum n) => negb (isZero n)
  | Some (JStr s) => negb (String.eqb s "")
  | Some (JArr _) => true
  | Some (JObj _) => true
  end.

Definition isNull (v : t) : bool :=
  match v with
  | JNull => true
  | _ => false
  end.

(** [Array.isArray(v)] *)
Definition isArray (v : option t) : bool :=
  match v with
  | Some (JArr _) => true
  | _ => false
  end.

(** [v.k] for a value [v] that is not [null] and one of the keys read
    below (none of them is an index or [length]): an object has the
    property or not, a boolean, a number, a string and an array have not. *)
Definition prop (k : string) (v : t) : option t :=
  match v with
  | JObj fields => JsMap.get k fields
  | _ => None
  end.

(** [v.k] where [v] itself was read from a property and is known to be an
    object. *)
Definition propOf (k : string) (v : option t) : option t :=
  match v with
  | Some o => prop k o
  | None => None
  end.

(** The text of a value that is a string, as a template literal inserts
    it. *)
Definition str (v : option t) : string :=
  match v with
  | Some (JStr s) => s
  | _ => ""
  end.

(** The elements of a value that is an array. *)
Definition elements (v : option t) : list t :=
  match v with
  | Some (JArr items) => items
  | _ => []
  end.

(** [list.includes(v)] for a list of strings. *)
Definition includes (list : list string) (v : option t) : bool :=
  match v with
  | Some (JStr s) => bool_decide (s ∈ list)
  | _ => false
  end.

(** [JSON.stringify(v)] for a value [v] read from a property, as
    [JSON.parse] sees it: [JSON.stringify(undefined)] is [undefined], which
    [JSON.parse] refuses. *)
Definition reparse (v : option t) : Text :=
  match v with
  | Some w => stringify w
  | None => Malformed undefinedIsNotJson
  end.

End Values.

End Json.

Module Validator.
Import Json.

(** [{ isValid: true, ... }] with what it carries, or
    [{ isValid: false, error }]. *)
Inductive Outcome (A : Type) :=
  | Accepted (a : A)
  | Rejected (error : string).
Arguments Accepted {A} a.
Arguments Rejected {A} error.

Definition allowedTypes : list string :=
  ["String"; "Integer"; "Boolean"; "Double"; "Long"; "Date"; "LocalDateTime"].

Definition validRelationships : list string :=
  ["association"; "inheritance"; "aggregation"; "composition"].

Definition validMultiplicities : list string := ["1"; "*"; "0..1"; "1..*"; "0..*"].

(** The double quote. *)
Definition quote : string := String "034"%char EmptyString.

(** [list.join(sep)] *)
Fixpoint join (sep : string) (list : list string) : string :=
  match list with
  | [] => ""
  | [s] => s
  | s :: rest => s +:+ sep +:+ join sep rest
  end.

Section Checks.
Context `{Engine}.

(** [!v || typeof v !== 'string'] *)
Definition notAString (v : option t) : bool :=
  negb (truthy v) || negb (bool_decide (typeOf v = TString)).

(** The loop over [cls.attributes.entries()] of [validateUMLClass], from
    [attrIndex] on; [className] is [cls.name]. *)
Fixpoint validateAttributes (className : string) (attrs : list t) (attrIndex : nat)
    : Try (Outcome ()) :=
  match attrs with
  | [] => Done (Accepted ())
  | attr :: rest =>
      if isNull attr then Thrown (cannotReadNull "id")
      else if notAString (prop "id" attr) then
        Done (Rejected ("Attribute " +:+ pretty attrIndex +:+ " in class '" +:+ className
                        +:+ "' missing required field 'id' (string)"))
      else if notAString (prop "name" attr) then
        Done (Rejected ("Attribute " +:+ pretty attrIndex +:+ " in class '" +:+ className
                        +:+ "' missing required field 'name' (string)"))
      else if notAString (prop "type" attr) then
        Done (Rejected ("Attribute " +:+ pretty attrIndex +:+ " in class '" +:+ className
                        +:+ "' missing required field 'type' (string)"))
      else if negb (includes allowedTypes (prop "type" attr)) then
        Done (Rejected ("Attribute '" +:+ str (prop "name" attr) +:+ "' in class '"
                        +:+ className +:+ "' has invalid type '"
                        +:+ str (prop "type" attr) +:+ "'. Allowed: "
                        +:+ join ", " allowedTypes))
      else validateAttributes className rest (S attrIndex)
  end.

(** [validateUMLClass(cls, index)] *)
Definition validateUMLClass (cls : t) (index : nat) : Try (Outcome ()) :=
  if negb (bool_decide (typeOf (Some cls) = TObject)) || isNull cls then
    Done (Rejected ("Class at index " +:+ pretty index +:+ " must be an object"))
  else if notAString (prop "id" cls) then
    Done (Rejected ("Class at index " +:+ pretty index
                    +:+ " missing required field 'id' (string)"))
  else if notAString (prop "name" cls) then
    Done (Rejected ("Class at index " +:+ pretty index
                    +:+ " missing required field 'name' (string)"))
  else if negb (truthy (prop "attributes" cls)) || negb (isArray (prop "attributes" cls)) then
    Done (Rejected ("Class at index " +:+ pretty index
                    +:+ " missing required field 'attributes' (array)"))
  else if negb (truthy (prop "position" cls))
          || negb (bool_decide (typeOf (prop "position" cls) = TObject)) then
    Done (Rejected ("Class at index " +:+ pretty index
                    +:+ " missing required field 'position' (object)"))
  else if negb (bool_decide (typeOf (propOf "x" (prop "position" cls)) = TNumber))
          || negb (bool_decide (typeOf (propOf "y" (prop "position" cls)) = TNumber)) then
    Done (Rejected ("Class at index " +:+ pretty index
                    +:+ " position must have numeric x and y coordinates"))
  else validateAttributes (str (prop "name" cls)) (elements (prop "attributes" cls)) 0.

(** The loop over [parsed.entries()] of [validateUMLClassesJSON], from
    [index] on. *)
Fixpoint validateClasses (classes : list t) (index : nat) : Try (Outcome ()) :=
  match classes with
  | [] => Done (Accepted ())
  | cls :: rest =>
      match validateUMLClass cls index with
      | Done (Accepted _) => validateClasses rest (S index)
      | Done (Rejected error) => Done (Rejected error)
      | Thrown message => Thrown message
      end
  end.

(** [validateUMLClassesJSON(jsonString)]; an accepted text comes back as
    the list of its classes. *)
Definition validateUMLClassesJSON (jsonString : Text) : Outcome (list t) :=
  match jsonString with
  | Malformed message => Rejected ("Invalid JSON format: " +:+ message)
  | Parsed parsed =>
      if negb (isArray (Some parsed)) then Rejected "JSON must be an array of classes"
      else
        match validateClasses (elements (Some parsed)) 0 with
        | Done (Accepted _) => Accepted (elements (Some parsed))
        | Done (Rejected error) => Rejected error
        | Thrown message => Rejected ("Invalid JSON format: " +:+ message)
        end
  end.

(** [validateUMLAssociation(assoc, index, classIds)] *)
Definition validateUMLAssociation (assoc : t) (index : nat) (classIds : list string)
    : Outcome () :=
  if negb (bool_decide (typeOf (Some assoc) = TObject)) || isNull assoc then
    Rejected ("Association at index " +:+ pretty index +:+ " must be an object")
  else if notAString (prop "id" assoc) then
    Rejected ("Association at index " +:+ pretty index
              +:+ " missing required field 'id' (string)")
  else if notAString (prop "fromClassId" assoc) then
    Rejected ("Association at index " +:+ pretty index
              +:+ " missing required field 'fromClassId' (string)")
  else if notAString (prop "toClassId" assoc) then
    Rejected ("Association at index " +:+ pretty index
              +:+ " missing required field 'toClassId' (string)")
  else if negb (includes classIds (prop "fromClassId" assoc)) then
    Rejected ("Association " +:+ pretty index +:+ ": fromClassId " +:+ quote
              +:+ str (prop "fromClassId" assoc) +:+ quote +:+ " does not exist")
  else if negb (includes classIds (prop "toClassId" assoc)) then
    Rejected ("Association " +:+ pretty index +:+ ": toClassId " +:+ quote
              +:+ str (prop "toClassId" assoc) +:+ quote +:+ " does not exist")
  else if negb (includes validRelationships (prop "relationshipType" assoc)) then
    Rejected ("Association " +:+ pretty index +:+ ": relationshipType must be one of: "
              +:+ join ", " validRelationships)
  else if negb (includes validMultiplicities (prop "fromMultiplicity" assoc)) then
    Rejected ("Association " +:+ pretty index +:+ ": fromMultiplicity must be one of: "
              +:+ join ", " validMultiplicities)
  else if negb (includes validMultiplicities (prop "toMultiplicity" assoc)) then
    Rejected ("Association " +:+ pretty index +:+ ": toMultiplicity must be one of: "
              +:+ join ", " validMultiplicities)
  else Accepted ().

(** The loop over [parsed.entries()] of [validateUMLAssociationsJSON]. *)
Fixpoint validateAssociations (assocs : list t) (index : nat) (classIds : list string)
    : Outcome () :=
  match assocs with
  | [] => Accepted ()
  | assoc :: rest =>
      match validateUMLAssociation assoc index classIds with
      | Accepted _ => validateAssociations rest (S index) classIds
      | Rejected error => Rejected error
      end
  end.

(** [validateUMLAssociationsJSON(jsonString, classIds)] *)
Definition validateUMLAssociationsJSON (jsonString : Text) (classIds : list string)
    : Outcome (list t) :=
  match jsonString with
  | Malformed message => Rejected ("Invalid JSON format: " +:+ message)
  | Parsed parsed =>
      if negb (isArray (Some parsed)) then Rejected "JSON must be an array of associations"
      else
        match validateAssociations (elements (Some parsed)) 0 classIds with
        | Accepted _ => Accepted (elements (Some parsed))
        | Rejected error => Rejected error
        end
  end.

(** [validateUMLDiagramJSON(jsonString)]; an accepted text comes back as
    the value it stands for. *)
Definition validateUMLDiagramJSON (jsonString : Text) : Outcome t :=
  match jsonString with
  | Malformed message => Rejected ("Invalid JSON: " +:+ message)
  | Parsed data =>
      if isNull data then Rejected ("Invalid JSON: " +:+ cannotReadNull "classes")
      else
        match validateUMLClassesJSON (reparse (prop "classes" data)) with
        | Rejected error => Rejected ("Classes validation failed: " +:+ error)
        | Accepted _ =>
            if truthy (prop "associations" data) then
              if negb (isArray (prop "associations" data)) then
                Rejected "associations must be an array"
              else
                let classIds :=
                  map (λ c, str (prop "id" c)) (elements (prop "classes" data)) in
                match validateUMLAssociationsJSON (reparse (prop "associations" data))
                        classIds with
                | Rejected error => Rejected ("Associations validation failed: " +:+ error)
                | Accepted _ => Accepted data
                end
            else Accepted data
        end
  end.

End Checks.

End Validator.

(* ===================================================================== *)
(** * Repairing the position of a class ([fixPositionFormat],
      [lib/gemini-service.ts]) *)
(* ===================================================================== *)

Module Fix.
Import Json.

Section Fix.
Context `{Engine}.

(** The fields of a class after
    [cls.position = { x, y }; delete cls.x; delete cls.y]. *)
Definition repaired (x y : t) (fields : JsMap.t t) : JsMap.t t :=
  JsMap.delete "y"
    (JsMap.delete "x" (JsMap.set "position" (JObj [("x", x); ("y", y)]) fields)).

(** The callback of [parsed.classes.map]:
    [if (cls.x !== undefined && cls.y !== undefined && !cls.position)
       { cls.position = { x: cls.x, y: cls.y }; delete cls.x; delete cls.y }] *)
Definition fixClass (cls : t) : Try t :=
  if isNull cls then Thrown (cannotReadNull "x")
  else
    match prop "x" cls, prop "y" cls with
    | Some x, Some y =>
        if negb (truthy (prop "position" cls)) then
          match cls with
          | JObj fields => Done (JObj (repaired x y fields))
          | _ => Done cls
          end
        else Done cls
    | _, _ => Done cls
    end.

(** [classes.map(fixClass)], which stops at the first error thrown. *)
Fixpoint fixClasses (classes : list t) : Try (list t) :=
  match classes with
  | [] => Done []
  | cls :: rest =>
      match fixClass cls with
      | Thrown message => Thrown message
      | Done cls' =>
          match fixClasses rest with
          | Thrown message => Thrown message
          | Done rest' => Done (cls' :: rest')
          end
      end
  end.

(** [fixPositionFormat(jsonString)]: [JSON.stringify] of the repaired
    value, or the text it was given when anything throws ([JSON.parse], the
    read of [classes] from [null], the read of [x] from a class that is
    [null]). *)
Definition fixPositionFormat (jsonString : Text) : Text :=
  match jsonString with
  | Malformed _ => jsonString
  | Parsed parsed =>
      if isNull parsed then jsonString
      else if truthy (prop "classes" parsed) && isArray (prop "classes" parsed) then
        match fixClasses (elements (prop "classes" parsed)) with
        | Thrown _ => jsonString
        | Done classes =>
            match parsed with
            | JObj fields => stringify (JObj (JsMap.set "classes" (JArr classes) fields))
            | _ => stringify parsed
            end
        end
      else stringify parsed
  end.

End Fix.

End Fix.

(* ===================================================================== *)
(** * The diagrams that the types describe ([UMLClass], [UMLAttribute],
      [UMLAssociationJSON]) *)
(* ===================================================================== *)

Module Shape.
Import Json.

Section Shape.
Context `{Engine}.

(** A string that is not empty. *)
Definition text (v : option t) : Prop := ∃ s, v = Some (JStr s) ∧ s ≠ "".

(** One of the strings of [list]. *)
Definition oneOf (list : list string) (v : option t) : Prop :=
  ∃ s, v = Some (JStr s) ∧ s ∈ list.

(** A number: [typeof v === 'number'], which holds of [Infinity] too. *)
Definition number (v : option t) : Prop := ∃ n, v = Some (JNum n).

(** A finite number, the kind that [JSON.stringify] writes as a number. *)
Definition finite (v : option t) : Prop := ∃ n, v = Some (JNum n) ∧ isFinite n = true.

Definition attribute (attr : t) : Prop :=
  text (prop "id" attr) ∧ text (prop "name" attr)
  ∧ oneOf Validator.allowedTypes (prop "type" attr).

(** A class whose coordinates are as [coordinate] wants them. *)
Definition classWith (coordinate : option t → Prop) (cls : t) : Prop :=
  text (prop "id" cls) ∧ text (prop "name" cls)
  ∧ (∃ attrs, prop "attributes" cls = Some (JArr attrs) ∧ Forall attribute attrs)
  ∧ coordinate (propOf "x" (prop "position" cls))
  ∧ coordinate (propOf "y" (prop "position" cls)).

(** A class of a diagram: [validateUMLDiagramJSON] checks the classes on
    what [JSON.stringify] wrote of them, where only a finite coordinate is
    still a number. *)
Definition class (cls : t) : Prop := classWith finite cls.

(** The ids of a list of classes. *)
Definition classIds (classes : list t) : list string :=
  map (λ c, str (prop "id" c)) classes.

Definition association (classIds : list string) (assoc : t) : Prop :=
  text (prop "id" assoc)
  ∧ text (prop "fromClassId" assoc) ∧ text (prop "toClassId" assoc)
  ∧ oneOf classIds (prop "fromClassId" assoc)
  ∧ oneOf classIds (prop "toClassId" assoc)
  ∧ oneOf Validator.validRelationships (prop "relationshipType" assoc)
  ∧ oneOf Validator.validMultiplicities (prop "fromMultiplicity" assoc)
  ∧ oneOf Validator.validMultiplicities (prop "toMultiplicity" assoc).

(** A diagram: its classes, and its associations when it has any (a
    missing, [null], [false], zero or empty [associations] counts as
    none). *)
Definition diagram (data : t) : Prop :=
  ∃ classes,
    prop "classes" data = Some (JArr classes)
    ∧ Forall class classes
    ∧ (truthy (prop "associations" data) = true →
       ∃ assocs, prop "associations" data = Some (JArr assocs)
                 ∧ Forall (association (classIds classes)) assocs).

(** A class written with finite numbers [x] and [y] beside its other
    fields and without [position]; no key is repeated. *)
Definition flatClass (cls : t) : Prop :=
  ∃ fields,
    cls = JObj fields ∧ NoDup (JsMap.keys fields)
    ∧ text (prop "id" cls) ∧ text (prop "name" cls)
    ∧ (∃ attrs, prop "attributes" cls = Some (JArr attrs) ∧ Forall attribute attrs)
    ∧ finite (prop "x" cls) ∧ finite (prop "y" cls)
    ∧ prop "position" cls = None.

End Shape.

End Shape.

(* ===================================================================== *)
(** * Sample answers of the AI service *)
(* ===================================================================== *)

Module Answer.
Import Json.

(** The numbers of the samples: the integers, and what [JSON.parse] makes
    of a token out of range such as [1e400]. *)
Inductive number := Int (z : Z) | Infinity.

(** An engine with these numbers and the messages of V8. *)
Definition engine : Engine :=
  {| Num := number;
     isZero := λ n, match n with Int z => Z.eqb z 0 | Infinity => false end;
     isFinite := λ n, match n with Int _ => true | Infinity => false end;
     undefinedIsNotJson :=
       Validator.quote +:+ "undefined" +:+ Validator.quote +:+ " is not valid JSON";
     cannotReadNull := λ k, "Cannot read properties of null (reading '" +:+ k +:+ "')" |}.

#[local] Existing Instance engine.

(** The class without attributes whose [position] has the numbers [x] and
    [y]. *)
Definition placed (id name : string) (x y : number) : t :=
  JObj [("id", JStr id); ("name", JStr name); ("attributes", JArr []);
        ("position", JObj [("x", JNum x); ("y", JNum y)])].

(** A class without attributes at [(x, y)]. *)
Definition cls (id name : string) (x y : Z) : t := placed id name (Int x) (Int y).

(** The same class written with [x] and [y] beside its other fields. *)
Definition flat (id name : string) (x y : Z) : t :=
  JObj [("id", JStr id); ("name", JStr name); ("attributes", JArr []);
        ("x", JNum (Int x)); ("y", JNum (Int y))].

Definition link (id from to : string) : t :=
  JObj [("id", JStr id); ("fromClassId", JStr from); ("toClassId", JStr to);
        ("fromMultiplicity", JStr "1"); ("toMultiplicity", JStr "*");
        ("relationshipType", JStr "association")].

Definition diagram (classes assocs : list (t)) : t :=
  JObj [("classes", JArr classes); ("associations", JArr assocs)].

End Answer.


(* ===================================================================== *)
(** * The call of the AI service and its errors ([modifyExistingDiagram],
      [lib/gemini-service.ts]) *)
(* ===================================================================== *)

Module Service.

(** [s.includes(sub)] *)
Definition includes (sub s : string) : bool :=
  match String.index 0 sub s with
  | Some _ => true
  | None => false
  end.

Definition failure (message error : string) : Gemini.GenerateDiagramResponse :=
  {| Gemini.success := false; Gemini.diagram := None;
     Gemini.message := message; Gemini.error := Some error |}.

(** The [catch] block of [modifyExistingDiagram] for a thrown [Error] with
    message [Retry.message error], which is the [detailedError] it starts
    from. *)
Definition caught (error : Retry.ApiError) : Gemini.GenerateDiagramResponse :=
  let detailedError := Retry.message error in
  if bool_decide (Retry.code error = Some 503)
     || bool_decide (Retry.status error = Some "UNAVAILABLE")
     || includes "overloaded" (Retry.message error)
     || includes "overloaded" detailedError
  then
    failure
      "El modelo de IA está sobrecargado. Por favor, intenta de nuevo en unos momentos."
      "Modelo sobrecargado - Servicio temporalmente no disponible"
  else if bool_decide (Retry.code error = Some 429) then
    failure
      "Has excedido el límite de solicitudes. Por favor, espera un momento antes de intentar de nuevo."
      "Límite de tasa excedido"
  else if bool_decide (Retry.code error = Some 401)
          || bool_decide (Retry.code error = Some 403) then
    failure "Error de autenticación con el servicio de IA. Verifica tu API key."
      "Error de autenticación"
  else failure "Error modifying diagram with AI service" detailedError.

(** The same block when what was thrown is [undefined]. *)
Definition caughtUndefined : Gemini.GenerateDiagramResponse :=
  failure "Error modifying diagram with AI service" "Unknown error".

(** [modifyExistingDiagram]: [fn k] is how the call number [k] of the
    service settles, an answer being taken as what
    [validateUMLDiagramJSON] makes of it once cleaned and repaired. *)
Definition modifyExistingDiagram `{JS.Lowering} `{Gemini.MapError}
    (fn : nat → Retry.Outcome Gemini.Validation)
    (existingClasses : list UMLClass.t) (existingAssociations : list Association.t)
    : Gemini.GenerateDiagramResponse :=
  match Retry.settled (Retry.callModel fn) with
  | Retry.Returned validation =>
      Gemini.modifyExistingDiagram existingClasses existingAssociations validation
  | Retry.Threw (Some error) => caught error
  | Retry.Threw None => caughtUndefined
  end.

End Service.


#[local] Set Warnings "-clear-no-such-hyp".

(* ===================================================================== *)
(** * List facts *)
(* ===================================================================== *)

Section ListFacts.
Context {A : Type} (P : A → Prop) `{!∀ x, Decision (P x)}.

Lemma filter_none (l : list A) : (∀ x, x ∈ l → ¬ P x) → filter P l = [].
Proof.
  induction l as [|a l IH]; intros Hl; [done|].
  rewrite filter_cons_False by (apply Hl; left).
  apply IH. intros x Hx. apply Hl. by right.
Qed.

Lemma last_filter_snoc_True (l : list A) (a : A) :
  P a → last (filter P (l ++ [a])) = Some a.
Proof.
  intros Ha. rewrite filter_app, filter_cons_True, filter_nil by done.
  apply last_snoc.
Qed.

Lemma last_filter_snoc_False (l : list A) (a : A) :
  ¬ P a → last (filter P (l ++ [a])) = last (filter P l).
Proof.
  intros Ha. rewrite filter_app, filter_cons_False, filter_nil by done.
  by rewrite app_nil_r.
Qed.

End ListFacts.

Lemma filter_comm {A : Type} (P Q : A → Prop)
    `{!∀ x, Decision (P x), !∀ x, Decision (Q x)} (l : list A) :
  filter P (filter Q l) = filter Q (filter P l).
Proof. rewrite !list_filter_filter. apply list_filter_iff. tauto. Qed.


(* ===================================================================== *)
(** * Properties of the insertion-ordered map *)
(* ===================================================================== *)

Section JsMapFacts.
Context {V : Type}.
Implicit Types (m : JsMap.t V) (k : string) (v : V).

Lemma get_None_keys k m : JsMap.get k m = None ↔ k ∉ JsMap.keys m.
Proof.
  unfold JsMap.keys. induction m as [|[k' v'] m IH]; simpl.
  - split; [intros _; apply not_elem_of_nil | done].
  - case_decide as Hk; subst.
    + split; [done | intros Hn; exfalso; apply Hn; left].
    + rewrite IH, not_elem_of_cons.
      split; [intros ?; split; [congruence | done] | by intros [_ ?]].
Qed.

Lemma get_Some_elem k v m : JsMap.get k m = Some v → (k, v) ∈ m.
Proof.
  induction m as [|[k' v'] m IH]; simpl; [done|].
  case_decide; subst.
  - intros [= ->]. left.
  - intros Hg. right. auto.
Qed.

Lemma get_set_eq k v m : JsMap.get k (JsMap.set k v m) = Some v.
Proof.
  induction m as [|[k' v'] m IH]; simpl.
  - by rewrite decide_True.
  - case_decide; subst; simpl; [by rewrite decide_True | by rewrite decide_False].
Qed.

Lemma get_set_ne k k' v m : k ≠ k' → JsMap.get k' (JsMap.set k v m) = JsMap.get k' m.
Proof.
  intros Hne. induction m as [|[k0 v0] m IH]; simpl.
  - by rewrite decide_False.
  - case_decide; subst; simpl.
    + by rewrite !decide_False.
    + by rewrite IH.
Qed.

Lemma keys_set_present k v m :
  k ∈ JsMap.keys m → JsMap.keys (JsMap.set k v m) = JsMap.keys m.
Proof.
  unfold JsMap.keys. induction m as [|[k' v'] m IH]; simpl.
  - intros Hin. by apply elem_of_nil in Hin.
  - intros Hin. case_decide; subst; [done|].
    apply elem_of_cons in Hin as [->|Hin]; [done|].
    rewrite fmap_cons. simpl. f_equal. by apply IH.
Qed.

Lemma keys_set_absent k v m :
  k ∉ JsMap.keys m → JsMap.keys (JsMap.set k v m) = JsMap.keys m ++ [k].
Proof.
  unfold JsMap.keys. induction m as [|[k' v'] m IH]; simpl; [done|].
  intros [Hne Hn]%not_elem_of_cons. rewrite decide_False by done.
  rewrite fmap_cons. simpl. f_equal. by apply IH.
Qed.

Lemma set_absent k v m : k ∉ JsMap.keys m → JsMap.set k v m = m ++ [(k, v)].
Proof.
  unfold JsMap.keys. induction m as [|[k' v'] m IH]; simpl; [done|].
  intros [Hne Hn]%not_elem_of_cons. rewrite decide_False by done.
  by rewrite IH.
Qed.

Lemma keys_set_NoDup k v m : NoDup (JsMap.keys m) → NoDup (JsMap.keys (JsMap.set k v m)).
Proof.
  intros Hnd. destruct (decide (k ∈ JsMap.keys m)) as [Hin|Hn].
  - by rewrite keys_set_present.
  - rewrite keys_set_absent by done. apply NoDup_app. split_and!; [done| |apply NoDup_singleton].
    intros x Hx ->%list_elem_of_singleton. done.
Qed.

Lemma elem_of_set k v k' v' m :
  (k', v') ∈ JsMap.set k v m → (k' = k ∧ v' = v) ∨ (k', v') ∈ m.
Proof.
  induction m as [|[k0 v0] m IH]; simpl.
  - intros [= -> ->]%list_elem_of_singleton. by left.
  - case_decide; subst.
    + intros [[= -> ->]|Hin]%elem_of_cons; [by left | right; by right].
    + intros [[= -> ->]|Hin]%elem_of_cons; [right; by left|].
      destruct (IH Hin) as [?|?]; [by left | right; by right].
Qed.

Lemma get_delete_eq k m : NoDup (JsMap.keys m) → JsMap.get k (JsMap.delete k m) = None.
Proof.
  unfold JsMap.keys. induction m as [|[k' v'] m IH]; simpl; [done|].
  intros [Hk' Hnd]%NoDup_cons. case_decide; subst; simpl.
  - by apply get_None_keys.
  - rewrite decide_False by done. auto.
Qed.

Lemma get_delete_ne k k' m : k ≠ k' → JsMap.get k' (JsMap.delete k m) = JsMap.get k' m.
Proof.
  intros Hne. induction m as [|[k0 v0] m IH]; simpl; [done|].
  case_decide; subst; simpl.
  - by rewrite decide_False.
  - by rewrite IH.
Qed.

Lemma delete_sublist k m : JsMap.delete k m `sublist_of` m.
Proof.
  induction m as [|[k' v'] m IH]; simpl; [done|].
  case_decide; [by apply sublist_cons | by apply sublist_skip].
Qed.

Lemma keys_delete k m k' :
  NoDup (JsMap.keys m) →
  k' ∈ JsMap.keys (JsMap.delete k m) ↔ k' ∈ JsMap.keys m ∧ k' ≠ k.
Proof.
  intros Hnd. split.
  - intros Hin. destruct (decide (k' = k)) as [->|Hne].
    + apply get_delete_eq with (k := k) in Hnd. apply get_None_keys in Hnd. done.
    + split; [|done]. unfold JsMap.keys in *.
      eapply elem_of_sublist; [exact Hin|]. apply fmap_sublist, delete_sublist.
  - intros [Hin Hne].
    destruct (decide (k' ∈ JsMap.keys (JsMap.delete k m))) as [|Hn]; [done|].
    apply get_None_keys in Hn. rewrite get_delete_ne in Hn by done.
    apply get_None_keys in Hn. done.
Qed.

End JsMapFacts.

(* ===================================================================== *)
(** * Deduplication: the three filters *)
(* ===================================================================== *)

Section DedupFacts.
Context {A : Type} `{HasId A}.
Implicit Types (arr l : list A) (seen : gset string) (k : string).


Lemma findIndexFrom_app (p : A → bool) pre a l i :
  p a = true →
  JS.findIndexFrom p (pre ++ a :: l) i = i + Z.of_nat (length pre)
  ↔ Forall (λ b, p b = false) pre.
Proof.
  intros Hpa. revert i.
  induction pre as [|b pre IH]; intros i; cbn [app length JS.findIndexFrom].
  - rewrite Hpa. split; [constructor | lia].
  - destruct (p b) eqn:Hpb.
    + split; [lia|]. intros Hf. apply Forall_cons in Hf as [? _]. congruence.
    + rewrite Forall_cons, <-(IH (i + 1)).
      split; [intros ?; split; [done | lia] | intros [_ ?]; lia].
Qed.

Lemma uniqueById_callback pre e l :
  Z.eqb (Z.of_nat (length pre))
        (JS.findIndex (λ c, bool_decide (entityId c = entityId e)) (pre ++ e :: l))
  = bool_decide (entityId e ∉ ids pre).
Proof.
  unfold JS.findIndex.
  pose proof (findIndexFrom_app (λ c, bool_decide (entityId c = entityId e)) pre e l 0) as Hf.
  simpl in Hf. rewrite bool_decide_eq_true in Hf. specialize (Hf eq_refl).
  assert (Forall (λ b, bool_decide (entityId b = entityId e) = false) pre
          ↔ entityId e ∉ ids pre) as Hall.
  { rewrite Forall_forall, list_elem_of_fmap. split.
    - intros Hf' (b & Hb & Hin). specialize (Hf' b Hin).
      apply bool_decide_eq_false in Hf'. congruence.
    - intros Hn b Hin. apply bool_decide_eq_false. intros Heq. apply Hn. by exists b. }
  destruct (decide (entityId e ∉ ids pre)) as [Hn|Hn].
  - rewrite (bool_decide_eq_true_2 _ Hn). apply Z.eqb_eq.
    symmetry. apply Hf, Hall, Hn.
  - rewrite (bool_decide_eq_false_2 _ Hn). apply Z.eqb_neq.
    intros Heq. apply Hn, Hall, Hf. lia.
Qed.

Lemma filterFrom_filterSeen pre l seen :
  (∀ k, k ∈ seen ↔ k ∈ ids pre) →
  JS.filterFrom
    (λ e index self,
       Z.eqb index (JS.findIndex (λ c, bool_decide (entityId c = entityId e)) self))
    (pre ++ l) l (Z.of_nat (length pre))
  = Dedup.filterSeen seen l.
Proof.
  revert pre seen. induction l as [|e l IH]; intros pre seen Hseen; simpl; [done|].
  rewrite uniqueById_callback.
  assert (Z.of_nat (length pre) + 1 = Z.of_nat (length (pre ++ [e]))) as ->.
  { rewrite length_app. simpl. lia. }
  replace (pre ++ e :: l) with ((pre ++ [e]) ++ l) by (by rewrite <-app_assoc).
  destruct (decide (entityId e ∈ seen)) as [Hin|Hn].
  - rewrite (bool_decide_eq_true_2 _ Hin).
    rewrite bool_decide_eq_false_2 by (rewrite <-Hseen; tauto).
    apply IH. intros k. rewrite fmap_app, elem_of_app, <-Hseen. simpl.
    rewrite list_elem_of_singleton. naive_solver.
  - rewrite (bool_decide_eq_false_2 _ Hn).
    rewrite bool_decide_eq_true_2 by (by rewrite <-Hseen).
    f_equal. apply IH. intros k. rewrite fmap_app, elem_of_app, <-Hseen. simpl.
    rewrite list_elem_of_singleton. set_solver.
Qed.

(** The index-based filter of the page and the seen-set filter of the canvas
    compute the same list. *)
Lemma uniqueById_memoized arr : Dedup.uniqueById arr = Dedup.memoized arr.
Proof.
  unfold Dedup.uniqueById, Dedup.memoized, JS.filterIdx.
  apply (filterFrom_filterSeen [] arr ∅). intros k. simpl.
  split; [intros Hk; by apply not_elem_of_empty in Hk | intros Hk; by apply elem_of_nil in Hk].
Qed.

Lemma filterSeen_sublist seen l : Dedup.filterSeen seen l `sublist_of` l.
Proof.
  revert seen. induction l as [|e l IH]; intros seen; simpl; [done|].
  case_bool_decide; [by apply sublist_cons | by apply sublist_skip].
Qed.

Lemma filterSeen_not_seen seen l e : e ∈ Dedup.filterSeen seen l → entityId e ∉ seen.
Proof.
  revert seen. induction l as [|a l IH]; intros seen; simpl.
  - intros Hin. by apply elem_of_nil in Hin.
  - case_bool_decide as Ha; [apply IH|].
    intros [->|Hin]%elem_of_cons; [done|]. apply IH in Hin. set_solver.
Qed.

Lemma filterSeen_NoDup seen l : NoDup (ids (Dedup.filterSeen seen l)).
Proof.
  revert seen. induction l as [|a l IH]; intros seen; simpl; [constructor|].
  case_bool_decide as Ha; [apply IH|].
  rewrite fmap_cons. apply NoDup_cons. split; [|apply IH].
  intros (b & Hb & Hin)%list_elem_of_fmap. apply filterSeen_not_seen in Hin.
  rewrite <-Hb in Hin. set_solver.
Qed.

Lemma filterSeen_filter_seen seen l k :
  k ∈ seen → filter (λ e, entityId e = k) (Dedup.filterSeen seen l) = [].
Proof.
  intros Hk. apply filter_none. intros e Hin Heq.
  apply filterSeen_not_seen in Hin. congruence.
Qed.

(** Among the kept entries, those with a given unseen id reduce to the first
    entry of the input with that id. *)
Lemma filterSeen_first seen l k :
  k ∉ seen →
  filter (λ e, entityId e = k) (Dedup.filterSeen seen l)
  = option_list (head (filter (λ e, entityId e = k) l)).
Proof.
  revert seen. induction l as [|a l IH]; intros seen Hk; simpl; [done|].
  case_bool_decide as Ha.
  - rewrite filter_cons_False by congruence. by apply IH.
  - destruct (decide (entityId a = k)) as [Heq|Hne].
    + rewrite !filter_cons_True by done. simpl.
      f_equal. apply filterSeen_filter_seen. set_solver.
    + rewrite !filter_cons_False by done. apply IH. set_solver.
Qed.

Lemma filterSeen_id seen l :
  NoDup (ids l) → (∀ k, k ∈ ids l → k ∉ seen) → Dedup.filterSeen seen l = l.
Proof.
  revert seen. induction l as [|a l IH]; intros seen Hnd Hdisj; simpl; [done|].
  rewrite fmap_cons in Hnd. apply NoDup_cons in Hnd as [Ha Hnd].
  rewrite bool_decide_eq_false_2 by (apply Hdisj; rewrite fmap_cons; left).
  f_equal. apply IH; [done|]. intros k Hk.
  assert (k ≠ entityId a) by congruence.
  assert (k ∉ seen) by (apply Hdisj; rewrite fmap_cons; by right).
  set_solver.
Qed.

Lemma uniqueById_firstPerId arr : Dedup.firstPerId arr (Dedup.uniqueById arr).
Proof.
  rewrite uniqueById_memoized. unfold Dedup.memoized. split_and!.
  - apply filterSeen_sublist.
  - apply filterSeen_NoDup.
  - intros e He. rewrite filterSeen_first by apply not_elem_of_empty.
    destruct (filter (λ c, entityId c = entityId e) arr) as [|f l] eqn:Hf.
    + exfalso. eapply (filter_nil_not_elem_of _ _ e Hf); done.
    + by exists f.
Qed.

Lemma uniqueById_id l : NoDup (ids l) → Dedup.uniqueById l = l.
Proof.
  intros Hnd. rewrite uniqueById_memoized. apply filterSeen_id; [done|].
  intros k _. apply not_elem_of_empty.
Qed.

Lemma filterSeen_app seen l1 l2 :
  Dedup.filterSeen seen (l1 ++ l2)
  = Dedup.filterSeen seen l1 ++ Dedup.filterSeen (list_to_set (ids l1) ∪ seen) l2.
Proof.
  revert seen. induction l1 as [|a l1 IH]; intros seen; simpl.
  - f_equal. set_solver.
  - case_bool_decide as Ha.
    + rewrite IH. do 2 f_equal. set_solver.
    + simpl. rewrite IH. do 3 f_equal. set_solver.
Qed.

End DedupFacts.

(* ===================================================================== *)
(** * The map-based pass of the merge engine *)
(* ===================================================================== *)

Section ViaMapFacts.
Context {A : Type} `{HasId A}.
Implicit Types (arr l : list A) (k : string).


Lemma indexed_snoc l e : Dedup.indexed (l ++ [e]) = JsMap.set (entityId e) e (Dedup.indexed l).
Proof. unfold Dedup.indexed. by rewrite foldl_app. Qed.

Lemma indexed_keys_NoDup l : NoDup (JsMap.keys (Dedup.indexed l)).
Proof.
  induction l as [|e l IH] using rev_ind; [constructor|].
  rewrite indexed_snoc. by apply keys_set_NoDup.
Qed.

Lemma indexed_get l k :
  JsMap.get k (Dedup.indexed l) = last (filter (λ e, entityId e = k) l).
Proof.
  induction l as [|e l IH] using rev_ind; [done|].
  rewrite indexed_snoc. destruct (decide (entityId e = k)) as [Heq|Hne].
  - rewrite last_filter_snoc_True by done. rewrite <-Heq. apply get_set_eq.
  - rewrite last_filter_snoc_False by done. by rewrite get_set_ne.
Qed.

Lemma indexed_keys_elem l k : k ∈ JsMap.keys (Dedup.indexed l) ↔ k ∈ ids l.
Proof.
  induction l as [|e l IH] using rev_ind.
  - simpl. split; intros Hk; by apply elem_of_nil in Hk.
  - rewrite indexed_snoc, fmap_app, elem_of_app. simpl. rewrite list_elem_of_singleton.
    destruct (decide (entityId e ∈ JsMap.keys (Dedup.indexed l))) as [Hin|Hn].
    + rewrite keys_set_present by done. rewrite IH. split; [tauto|].
      intros [?| ->]; [done | by apply IH].
    + rewrite keys_set_absent, elem_of_app, list_elem_of_singleton by done.
      by rewrite IH.
Qed.

Lemma indexed_entry l k v : (k, v) ∈ Dedup.indexed l → entityId v = k ∧ v ∈ l.
Proof.
  induction l as [|e l IH] using rev_ind.
  - intros Hin. by apply elem_of_nil in Hin.
  - rewrite indexed_snoc. intros [[-> ->]|Hin]%elem_of_set.
    + split; [done|]. apply elem_of_app. right. left.
    + destruct (IH Hin). split; [done|]. apply elem_of_app. by left.
Qed.

(** The keys come in the order in which the ids first occur. *)
Lemma indexed_keys l : JsMap.keys (Dedup.indexed l) = ids (Dedup.memoized l).
Proof.
  unfold Dedup.memoized. induction l as [|e l IH] using rev_ind; [done|].
  rewrite indexed_snoc, filterSeen_app, fmap_app, <-IH. simpl.
  destruct (decide (entityId e ∈ JsMap.keys (Dedup.indexed l))) as [Hin|Hn].
  - rewrite keys_set_present by done.
    rewrite bool_decide_eq_true_2; [by rewrite app_nil_r|].
    apply indexed_keys_elem in Hin. set_solver.
  - rewrite keys_set_absent by done.
    rewrite bool_decide_eq_false_2; [done|].
    rewrite indexed_keys_elem in Hn. set_solver.
Qed.

Lemma values_filter_get (m : JsMap.t A) k :
  NoDup (JsMap.keys m) → (∀ k' v, (k', v) ∈ m → entityId v = k') →
  filter (λ e, entityId e = k) (JsMap.values m) = option_list (JsMap.get k m).
Proof.
  unfold JsMap.keys, JsMap.values.
  induction m as [|[k' v'] m IH]; intros Hnd Hid; [done|].
  rewrite fmap_cons in Hnd. apply NoDup_cons in Hnd as [Hk' Hnd].
  assert (entityId v' = k') as Hv' by (apply Hid; left).
  assert (∀ k0 v, (k0, v) ∈ m → entityId v = k0) as Hid' by (intros; apply Hid; by right).
  rewrite fmap_cons. simpl. case_decide as Hk; subst.
  - rewrite filter_cons_True by done. simpl. f_equal.
    apply filter_none. intros e Hin Heq.
    apply list_elem_of_fmap in Hin as ([k0 v0] & -> & Hin). simpl in *.
    pose proof (Hid' _ _ Hin) as Hk0. apply Hk'. apply list_elem_of_fmap.
    exists (k0, v0). split; [simpl; congruence | done].
  - rewrite filter_cons_False by done. by apply IH.
Qed.

Lemma viaMap_ids l : ids (Dedup.viaMap l) = ids (Dedup.memoized l).
Proof.
  rewrite <-indexed_keys. unfold Dedup.viaMap.
  unfold JsMap.values, JsMap.keys. rewrite <-list_fmap_compose.
  apply list_fmap_ext. intros i [k v] Hin%list_elem_of_lookup_2. simpl.
  by destruct (indexed_entry _ _ _ Hin).
Qed.

Lemma viaMap_filter l k :
  filter (λ e, entityId e = k) (Dedup.viaMap l)
  = option_list (last (filter (λ e, entityId e = k) l)).
Proof.
  unfold Dedup.viaMap. rewrite <-indexed_get.
  apply values_filter_get; [apply indexed_keys_NoDup|].
  intros k' v Hin. by destruct (indexed_entry _ _ _ Hin).
Qed.

Lemma viaMap_elem l e : e ∈ Dedup.viaMap l → e ∈ l.
Proof.
  unfold Dedup.viaMap. unfold JsMap.values.
  intros Hin. apply list_elem_of_fmap in Hin as ([k v] & -> & Hin).
  by destruct (indexed_entry _ _ _ Hin).
Qed.

Lemma viaMap_id l : NoDup (ids l) → Dedup.viaMap l = l.
Proof.
  intros Hnd. unfold Dedup.viaMap.
  assert (Dedup.indexed l = (λ e, (entityId e, e)) <$> l) as ->.
  { induction l as [|e l IH] using rev_ind; [done|].
    rewrite fmap_app in Hnd. apply NoDup_app in Hnd as (Hnd & Hdisj & _).
    rewrite indexed_snoc, fmap_app, <-IH by done. simpl.
    apply set_absent. rewrite indexed_keys_elem. intros Hin.
    apply (Hdisj _ Hin). left. }
  unfold JsMap.values. rewrite <-list_fmap_compose. apply list_fmap_id.
Qed.

End ViaMapFacts.

(* ===================================================================== *)
(** * The merge engine: the class loop *)
(* ===================================================================== *)

Lemma ofEntries_keyed {V : Type} (f : V → string) (l : list V) :
  JsMap.ofEntries (map (λ v, (f v, v)) l) = @Dedup.indexed V f l.
Proof.
  unfold JsMap.ofEntries, Dedup.indexed. generalize (@JsMap.empty V).
  induction l as [|v l IH]; intros m; simpl; [done|]. apply IH.
Qed.

Lemma indexed_NoDup_ids {A : Type} `{HasId A} (l : list A) :
  NoDup (ids l) → Dedup.indexed l = (λ e, (entityId e, e)) <$> l.
Proof.
  induction l as [|e l IH] using rev_ind; intros Hnd; [done|].
  rewrite fmap_app in Hnd. apply NoDup_app in Hnd as (Hnd & Hdisj & _).
  rewrite indexed_snoc, fmap_app, <-IH by done. simpl.
  apply set_absent. rewrite indexed_keys_elem. intros Hin.
  apply (Hdisj _ Hin). left.
Qed.

Lemma class_eta (c : UMLClass.t) :
  {| UMLClass.id := UMLClass.id c; UMLClass.name := UMLClass.name c;
     UMLClass.attributes := UMLClass.attributes c;
     UMLClass.position := JS.orObj (UMLClass.position c) (UMLClass.position c) |} = c.
Proof. destruct c as [i n a [p|]]; reflexivity. Qed.

Section ClassLoop.
Context `{JS.Lowering}.
Variable existing : list UMLClass.t.

Lemma classInit_byId :
  Merge.existingClassById (Merge.classInit existing) = @Dedup.indexed _ UMLClass.id existing.
Proof. apply ofEntries_keyed. Qed.

Lemma classInit_byName :
  Merge.existingClassByName (Merge.classInit existing)
  = @Dedup.indexed _ (λ c, lname c) existing.
Proof. apply (ofEntries_keyed (λ c, lname c)). Qed.

Lemma loopInv_init : Merge.loopInv existing (Merge.classInit existing).
Proof. by split. Qed.

Lemma loopInv_step st ai :
  Merge.loopInv existing st → Merge.loopInv existing (Merge.classStep st ai).
Proof.
  intros [Hid Hname]. unfold Merge.classStep.
  destruct (JsMap.get _ (Merge.existingClassById st)) as [idMatch|];
    [|destruct (JsMap.get _ (Merge.existingClassByName st)) as [nameMatch|]];
    split; simpl; try done;
    (etrans; [apply delete_sublist | done]).
Qed.

Lemma loopInv_foldl st ais :
  Merge.loopInv existing st → Merge.loopInv existing (foldl Merge.classStep st ais).
Proof.
  revert st. induction ais as [|ai ais IH]; intros st Hst; simpl; [done|].
  by apply IH, loopInv_step.
Qed.

Lemma byId_NoDup st : Merge.loopInv existing st → NoDup (JsMap.keys (Merge.existingClassById st)).
Proof.
  intros [Hid _]. unfold JsMap.keys. eapply sublist_NoDup; [|by apply fmap_sublist].
  rewrite classInit_byId. apply (@indexed_keys_NoDup _ UMLClass.id).
Qed.

Lemma byId_entry st k v :
  Merge.loopInv existing st → (k, v) ∈ Merge.existingClassById st →
  UMLClass.id v = k ∧ v ∈ existing.
Proof.
  intros [Hid _] Hin. eapply elem_of_sublist in Hin; [|exact Hid].
  rewrite classInit_byId in Hin. by apply (@indexed_entry _ UMLClass.id) in Hin.
Qed.

Lemma byName_entry st k v :
  Merge.loopInv existing st → (k, v) ∈ Merge.existingClassByName st →
  lname v = k ∧ v ∈ existing.
Proof.
  intros [_ Hname] Hin. eapply elem_of_sublist in Hin; [|exact Hname].
  rewrite classInit_byName in Hin. by apply (@indexed_entry _ (λ c, lname c)) in Hin.
Qed.

Lemma byId_get st k v :
  Merge.loopInv existing st → JsMap.get k (Merge.existingClassById st) = Some v →
  UMLClass.id v = k ∧ v ∈ existing.
Proof. intros Hst Hg. eapply byId_entry; [done | by apply get_Some_elem]. Qed.

Lemma byName_get st k v :
  Merge.loopInv existing st → JsMap.get k (Merge.existingClassByName st) = Some v →
  lname v = k ∧ v ∈ existing.
Proof. intros Hst Hg. eapply byName_entry; [done | by apply get_Some_elem]. Qed.

(** Every step appends exactly one class to [mergedClasses]. *)
Lemma classStep_merged st ai :
  ∃ c, Merge.mergedClasses (Merge.classStep st ai) = Merge.mergedClasses st ++ [c].
Proof.
  unfold Merge.classStep.
  destruct (JsMap.get _ (Merge.existingClassById st));
    [|destruct (JsMap.get _ (Merge.existingClassByName st))]; simpl; eauto.
Qed.

Lemma foldl_merged_prefix st ais :
  Merge.mergedClasses st `prefix_of` Merge.mergedClasses (foldl Merge.classStep st ais).
Proof.
  revert st. induction ais as [|ai ais IH]; intros st; simpl; [done|].
  etrans; [|apply IH]. destruct (classStep_merged st ai) as [c ->].
  by apply prefix_app_r.
Qed.

End ClassLoop.

(* ===================================================================== *)
(** * Which class ids survive the merge *)
(* ===================================================================== *)

Lemma viaMap_ids_elem {A : Type} `{HasId A} (l : list A) k :
  k ∈ ids (Dedup.viaMap l) ↔ k ∈ ids l.
Proof. by rewrite viaMap_ids, <-indexed_keys, indexed_keys_elem. Qed.

Section SurvivingIds.
Context `{JS.Lowering}.
Variable existing : list UMLClass.t.

Lemma covers_init : Merge.covers existing (Merge.classInit existing).
Proof.
  intros k Hk. right. rewrite classInit_byId.
  by apply (indexed_keys_elem (H := UMLClass.id)).
Qed.

Lemma covers_step st ai :
  Merge.loopInv existing st → Merge.covers existing st →
  Merge.covers existing (Merge.classStep st ai).
Proof.
  intros Hinv Hcov k Hk. pose proof (byId_NoDup _ _ Hinv) as Hnd.
  unfold Merge.classStep.
  destruct (JsMap.get _ (Merge.existingClassById st)) as [idMatch|] eqn:Hid;
    [|destruct (JsMap.get _ (Merge.existingClassByName st)) as [nameMatch|] eqn:Hname];
    simpl.
  - rewrite fmap_app, elem_of_app. simpl. rewrite list_elem_of_singleton.
    destruct (Hcov k Hk) as [?|Hin]; [by left; left|].
    destruct (decide (k = UMLClass.id ai)) as [->|Hne]; [by left; right|].
    right. by apply keys_delete.
  - rewrite fmap_app, elem_of_app. simpl. rewrite list_elem_of_singleton.
    destruct (Hcov k Hk) as [?|Hin]; [by left; left|].
    destruct (decide (k = UMLClass.id nameMatch)) as [->|Hne]; [by left; right|].
    right. by apply keys_delete.
  - rewrite fmap_app, elem_of_app.
    destruct (Hcov k Hk) as [?|Hin]; [by left; left | by right].
Qed.

Lemma covers_foldl st ais :
  Merge.loopInv existing st → Merge.covers existing st →
  Merge.covers existing (foldl Merge.classStep st ais).
Proof.
  revert st. induction ais as [|ai ais IH]; intros st Hinv Hcov; simpl; [done|].
  apply IH; [by apply loopInv_step | by apply covers_step].
Qed.

(** Every existing class id is the id of a merged class. *)
Lemma existing_ids_survive aiClasses k :
  k ∈ ids existing → k ∈ ids (Merge.mergedClassList existing aiClasses).
Proof.
  intros Hk. unfold Merge.mergedClassList. cbv zeta.
  set (st := foldl Merge.classStep (Merge.classInit existing) aiClasses).
  assert (Merge.loopInv existing st) as Hinv by apply loopInv_foldl, loopInv_init.
  rewrite fmap_app, elem_of_app.
  destruct (covers_foldl _ aiClasses (loopInv_init _) covers_init k Hk) as [?|Hin];
    [by left|right].
  fold st in Hin. unfold JsMap.keys in Hin.
  apply list_elem_of_fmap in Hin as ([k' v] & -> & Hin). simpl.
  apply list_elem_of_fmap. exists v. split.
  - by destruct (byId_entry _ _ _ _ Hinv Hin).
  - unfold JsMap.values. apply list_elem_of_fmap. by exists (k', v).
Qed.

(** A proposed class whose lower-cased name is new keeps its id. *)
Lemma classStep_own_id st ai :
  Merge.loopInv existing st → lname ai ∉ (λ c, lname c) <$> existing →
  UMLClass.id ai ∈ ids (Merge.mergedClasses (Merge.classStep st ai)).
Proof.
  intros Hinv Hnew. unfold Merge.classStep.
  destruct (JsMap.get _ (Merge.existingClassById st)) as [idMatch|] eqn:Hid;
    [|destruct (JsMap.get _ (Merge.existingClassByName st)) as [nameMatch|] eqn:Hname];
    simpl; rewrite fmap_app, elem_of_app.
  - right. left.
  - exfalso. apply Hnew. destruct (byName_get _ _ _ _ Hinv Hname) as [Hn Hin].
    apply list_elem_of_fmap. by exists nameMatch.
  - right. left.
Qed.

Lemma fresh_name_ids_survive_loop st ais ai :
  Merge.loopInv existing st → ai ∈ ais → lname ai ∉ (λ c, lname c) <$> existing →
  UMLClass.id ai ∈ ids (Merge.mergedClasses (foldl Merge.classStep st ais)).
Proof.
  revert st. induction ais as [|a ais IH]; intros st Hinv Hin Hnew.
  - by apply elem_of_nil in Hin.
  - simpl. apply elem_of_cons in Hin as [->|Hin].
    + pose proof (classStep_own_id st a Hinv Hnew) as Hown.
      destruct (foldl_merged_prefix (Merge.classStep st a) ais) as [rest ->].
      rewrite fmap_app, elem_of_app. by left.
    + apply IH; [by apply loopInv_step | done | done].
Qed.

Lemma fresh_name_ids_survive aiClasses ai :
  ai ∈ aiClasses → lname ai ∉ (λ c, lname c) <$> existing →
  UMLClass.id ai ∈ ids (Merge.mergedClassList existing aiClasses).
Proof.
  intros Hin Hnew. unfold Merge.mergedClassList. cbv zeta.
  rewrite fmap_app, elem_of_app. left.
  apply fresh_name_ids_survive_loop; [apply loopInv_init | done | done].
Qed.

End SurvivingIds.

(* ===================================================================== *)
(** * Where the endpoints of the merged associations come from *)
(* ===================================================================== *)

Section AssocLoop.
Variables existingAssociations aiAssociations : list Association.t.

Lemma endpointsFrom_self l a : a ∈ l → Merge.endpointsFrom l a.
Proof. intros Hin. by exists a. Qed.

Lemma assocLoop_endpoints st ais :
  (∀ a, a ∈ Merge.mergedAssociations st → Merge.endpointsFrom aiAssociations a) →
  (∀ a, a ∈ ais → a ∈ aiAssociations) →
  Merge.existingAssocById st `sublist_of`
    Merge.existingAssocById (Merge.assocInit existingAssociations) →
  let st' := foldl Merge.assocStep st ais in
  (∀ a, a ∈ Merge.mergedAssociations st' → Merge.endpointsFrom aiAssociations a)
  ∧ Merge.existingAssocById st' `sublist_of`
      Merge.existingAssocById (Merge.assocInit existingAssociations).
Proof.
  revert st. induction ais as [|ai ais IH]; intros st Hm Hais Hsub; simpl; [done|].
  apply IH.
  - unfold Merge.assocStep.
    destruct (JsMap.get _ (Merge.existingAssocById st)) as [ex|]; simpl;
      intros a [Hin|Hin%list_elem_of_singleton]%elem_of_app; auto; subst a.
    + exists ai. split; [apply Hais; left | done].
    + apply endpointsFrom_self, Hais. left.
  - intros a Hin. apply Hais. by right.
  - unfold Merge.assocStep.
    destruct (JsMap.get _ (Merge.existingAssocById st)) as [ex|]; simpl; [|done].
    etrans; [apply delete_sublist | done].
Qed.

Lemma mergedAssocList_endpoints a :
  a ∈ Merge.mergedAssocList existingAssociations aiAssociations →
  Merge.endpointsFrom (existingAssociations ++ aiAssociations) a.
Proof.
  unfold Merge.mergedAssocList. cbv zeta.
  destruct (assocLoop_endpoints (Merge.assocInit existingAssociations) aiAssociations)
    as [Hm Hsub]; [by intros ? ?%elem_of_nil | done | done |].
  intros [Hin|Hin]%elem_of_app.
  - destruct (Hm a Hin) as (b & Hb & ? & ?). exists b. rewrite elem_of_app. auto.
  - apply endpointsFrom_self, elem_of_app. left.
    unfold JsMap.values in Hin. apply list_elem_of_fmap in Hin as ([k v] & -> & Hin).
    eapply elem_of_sublist in Hin; [|exact Hsub]. simpl in Hin.
    rewrite (ofEntries_keyed Association.id) in Hin.
    by destruct (indexed_entry (H := Association.id) _ _ _ Hin).
Qed.

End AssocLoop.

(* ===================================================================== *)
(** * The name fallback *)
(* ===================================================================== *)

Section NameFallback.
Context `{JS.Lowering}.
Variables (existing : list UMLClass.t) (E P : UMLClass.t).
Hypothesis E_existing : E ∈ existing.
Hypothesis E_unique :
  ∀ X, X ∈ existing → UMLClass.id X = UMLClass.id E ∨ lname X = lname E → X = E.
Hypothesis P_fresh_id : UMLClass.id P ∉ ids existing.
Hypothesis P_same_name : lname P = lname E.

Lemma byName_init_E :
  JsMap.get (lname E) (Merge.existingClassByName (Merge.classInit existing)) = Some E.
Proof.
  rewrite classInit_byName, (indexed_get (H := λ c, lname c)).
  unfold entityId.
  destruct (last _) as [X|] eqn:Hlast.
  - apply last_Some_elem_of, list_elem_of_filter in Hlast as [Hn HX].
    f_equal. apply E_unique; auto.
  - apply last_None in Hlast.
    assert (E ∈ filter (λ e, lname e = lname E) existing) as Hin
      by (by apply list_elem_of_filter).
    rewrite Hlast in Hin. by apply elem_of_nil in Hin.
Qed.

(** Before [P]: the entry for [E]'s name stays in [existingClassByName]. *)
Lemma before_step st Q :
  Merge.loopInv existing st → Merge.unrelated E Q →
  JsMap.get (lname E) (Merge.existingClassByName st) = Some E →
  JsMap.get (lname E) (Merge.existingClassByName (Merge.classStep st Q)) = Some E.
Proof.
  intros Hinv [Hid Hname] HE. unfold Merge.classStep.
  destruct (JsMap.get (UMLClass.id Q) (Merge.existingClassById st)) as [X|] eqn:HX;
    [|destruct (JsMap.get (lname Q) (Merge.existingClassByName st)) as [X|] eqn:HX'];
    simpl; [| |done].
  - destruct (byId_get _ _ _ _ Hinv HX) as [HidX HinX].
    rewrite get_delete_ne; [done|]. intros Heq.
    assert (X = E) by (apply E_unique; auto). congruence.
  - destruct (byName_get _ _ _ _ Hinv HX') as [HnX HinX].
    rewrite get_delete_ne; [done|]. congruence.
Qed.

Lemma before_loop st l1 :
  Merge.loopInv existing st → Forall (Merge.unrelated E) l1 →
  JsMap.get (lname E) (Merge.existingClassByName st) = Some E →
  JsMap.get (lname E) (Merge.existingClassByName (foldl Merge.classStep st l1)) = Some E.
Proof.
  revert st. induction l1 as [|Q l1 IH]; intros st Hinv Hl HE; simpl; [done|].
  apply Forall_cons in Hl as [HQ Hl].
  apply IH; [by apply loopInv_step | done | by apply before_step].
Qed.

(** The step of [P]: no id match, a name match with [E]. *)
Lemma absorb_step st :
  Merge.loopInv existing st →
  JsMap.get (lname E) (Merge.existingClassByName st) = Some E →
  Merge.classStep st P
  = {| Merge.mergedClasses := Merge.mergedClasses st ++ [Merge.absorbed E P];
       Merge.existingClassById := JsMap.delete (UMLClass.id E) (Merge.existingClassById st);
       Merge.existingClassByName :=
         JsMap.delete (lname E) (Merge.existingClassByName st) |}.
Proof.
  intros Hinv HE. unfold Merge.classStep.
  destruct (JsMap.get (UMLClass.id P) (Merge.existingClassById st)) as [X|] eqn:HX.
  - destruct (byId_get _ _ _ _ Hinv HX) as [HidX HinX].
    exfalso. apply P_fresh_id. apply list_elem_of_fmap. by exists X.
  - by rewrite P_same_name, HE.
Qed.

(** After [P]: nothing else is pushed under [E]'s id. *)
Lemma after_step st Q :
  Merge.afterInv existing E P st → Merge.unrelated E Q →
  Merge.afterInv existing E P (Merge.classStep st Q).
Proof.
  intros [Hinv HbyId Hlast] [Hid Hname].
  split; [by apply loopInv_step| |]; unfold Merge.classStep;
    (destruct (JsMap.get (UMLClass.id Q) (Merge.existingClassById st)) as [X|] eqn:HX;
     [destruct (byId_get _ _ _ _ Hinv HX) as [HidX HinX]
     |destruct (JsMap.get (lname Q) (Merge.existingClassByName st)) as [X|] eqn:HX';
      [destruct (byName_get _ _ _ _ Hinv HX') as [HnX HinX];
       assert (UMLClass.id X ≠ UMLClass.id E)
         by (intros Heq; assert (X = E) by (apply E_unique; auto); congruence)|]]);
    simpl; try done.
  - by rewrite get_delete_ne.
  - by rewrite get_delete_ne.
  - by rewrite last_filter_snoc_False.
  - by rewrite last_filter_snoc_False.
  - by rewrite last_filter_snoc_False.
Qed.

Lemma after_loop st l2 :
  Merge.afterInv existing E P st → Forall (Merge.unrelated E) l2 →
  Merge.afterInv existing E P (foldl Merge.classStep st l2).
Proof.
  revert st. induction l2 as [|Q l2 IH]; intros st Hst Hl; simpl; [done|].
  apply Forall_cons in Hl as [HQ Hl]. apply IH; [by apply after_step | done].
Qed.

Lemma name_fallback_merged l1 l2 :
  Forall (Merge.unrelated E) l1 → Forall (Merge.unrelated E) l2 →
  last (filter (λ c, UMLClass.id c = UMLClass.id E)
          (Merge.mergedClassList existing (l1 ++ P :: l2)))
  = Some (Merge.absorbed E P).
Proof.
  intros Hl1 Hl2. unfold Merge.mergedClassList. cbv zeta.
  rewrite foldl_app. simpl.
  set (st1 := foldl Merge.classStep (Merge.classInit existing) l1).
  assert (Merge.loopInv existing st1) as Hinv1 by apply loopInv_foldl, loopInv_init.
  assert (JsMap.get (lname E) (Merge.existingClassByName st1) = Some E) as HE1.
  { apply before_loop; [apply loopInv_init | done | apply byName_init_E]. }
  assert (Merge.afterInv existing E P (Merge.classStep st1 P)) as Hafter.
  { split; [by apply loopInv_step | |]; rewrite absorb_step by done; simpl.
    - apply get_delete_eq. by eapply byId_NoDup.
    - by apply last_filter_snoc_True. }
  destruct (after_loop _ l2 Hafter Hl2) as [Hinv HbyId Hlast].
  rewrite filter_app.
  rewrite (filter_none _ (JsMap.values _)); [by rewrite app_nil_r|].
  intros c Hc Hid. unfold JsMap.values in Hc.
  apply list_elem_of_fmap in Hc as ([k v] & -> & Hin). simpl in Hid.
  destruct (byId_entry _ _ _ _ Hinv Hin) as [Hk _].
  apply get_None_keys in HbyId. apply HbyId. unfold JsMap.keys.
  apply list_elem_of_fmap. exists (k, v). split; [simpl; congruence | done].
Qed.

End NameFallback.

(* ===================================================================== *)
(** * Merging a diagram with itself *)
(* ===================================================================== *)

Section Idempotence.
Context `{JS.Lowering}.

Lemma classLoop_self (done todo : list UMLClass.t) byName :
  foldl Merge.classStep
    {| Merge.mergedClasses := done;
       Merge.existingClassById := (λ c, (UMLClass.id c, c)) <$> todo;
       Merge.existingClassByName := byName |}
    todo
  = {| Merge.mergedClasses := done ++ todo;
       Merge.existingClassById := [];
       Merge.existingClassByName :=
         foldl (λ m c, JsMap.delete (lname c) m) byName todo |}.
Proof.
  revert done byName. induction todo as [|c todo IH]; intros done byName; simpl.
  - by rewrite app_nil_r.
  - unfold Merge.classStep at 2. simpl. rewrite decide_True by done. simpl.
    rewrite decide_True by done. rewrite class_eta, IH.
    by rewrite <-app_assoc.
Qed.

Lemma mergedClassList_self (cs : list UMLClass.t) :
  NoDup (ids cs) → Merge.mergedClassList cs cs = cs.
Proof.
  intros Hnd. unfold Merge.mergedClassList, Merge.classInit.
  rewrite (ofEntries_keyed UMLClass.id), (indexed_NoDup_ids (H := UMLClass.id)) by done.
  rewrite classLoop_self. simpl. by rewrite app_nil_r.
Qed.

Lemma assoc_eta (a : Association.t) : Merge.spreadAssoc a a = a.
Proof.
  destruct a as [i f t fm tm r [ac|] [it|] [cd|]]; reflexivity.
Qed.

Lemma assocLoop_self (done todo : list Association.t) :
  foldl Merge.assocStep
    {| Merge.mergedAssociations := done;
       Merge.existingAssocById := (λ a, (Association.id a, a)) <$> todo |}
    todo
  = {| Merge.mergedAssociations := done ++ todo; Merge.existingAssocById := [] |}.
Proof.
  revert done. induction todo as [|a todo IH]; intros done; simpl.
  - by rewrite app_nil_r.
  - unfold Merge.assocStep at 2. simpl. rewrite decide_True by done. simpl.
    rewrite decide_True by done. rewrite assoc_eta, IH.
    by rewrite <-app_assoc.
Qed.

Lemma mergedAssocList_self (assocs : list Association.t) :
  NoDup (ids assocs) → Merge.mergedAssocList assocs assocs = assocs.
Proof.
  intros Hnd. unfold Merge.mergedAssocList, Merge.assocInit.
  rewrite (ofEntries_keyed Association.id), (indexed_NoDup_ids (H := Association.id)) by done.
  rewrite assocLoop_self. simpl. by rewrite app_nil_r.
Qed.

End Idempotence.

(** C2 (amended).  Merge idempotence: for a diagram whose classes have
    pairwise distinct ids and whose associations have pairwise distinct ids
    (the global invariant of the data model), merging the diagram with
    itself returns the same classes and the same associations, with the same
    field values and in the same order. *)
Theorem merge_idempotent `{JS.Lowering} (cs : list UMLClass.t) (assocs : list Association.t) :
  NoDup (ids cs) → NoDup (ids assocs) →
  Merge.mergeDiagramModifications cs assocs cs assocs
  = {| Merge.resultClasses := cs; Merge.resultAssociations := assocs |}.
Proof.
  intros Hc Ha. unfold Merge.mergeDiagramModifications, Merge.finalClasses,
    Merge.finalAssociations.
  rewrite mergedClassList_self, mergedAssocList_self by done.
  by rewrite !viaMap_id.
Qed.

(* ===================================================================== *)
(** * Endpoint integrity of the merge result *)
(* ===================================================================== *)

Lemma settled_id_survives `{JS.Lowering} (existing aiClasses : list UMLClass.t) k :
  Merge.settled existing aiClasses k →
  k ∈ ids (Merge.finalClasses existing aiClasses).
Proof.
  intros Hk. unfold Merge.finalClasses. apply viaMap_ids_elem.
  destruct Hk as [Hk|(c & Hc & <- & Hnew)]; [by apply existing_ids_survive|].
  by apply fresh_name_ids_survive.
Qed.

(** C3 (amended).  When the existing and the proposed diagram each satisfy
    endpoint integrity, and each end of each proposed association is the id
    of an existing class or the id of a proposed class whose lower-cased
    name no existing class has (so that no association refers to a proposed
    id that the name fallback discards; proposed classes that no
    association refers to may be matched by name), every association of the
    merge result has both ends among the ids of the merge result's
    classes. *)
Theorem merge_endpoint_integrity `{JS.Lowering}
    (existingClasses : list UMLClass.t) (existingAssociations : list Association.t)
    (aiClasses : list UMLClass.t) (aiAssociations : list Association.t) :
  Merge.endpointIntegrity existingClasses existingAssociations →
  Merge.endpointIntegrity aiClasses aiAssociations →
  (∀ a, a ∈ aiAssociations →
        Merge.settled existingClasses aiClasses (Association.fromClassId a)
        ∧ Merge.settled existingClasses aiClasses (Association.toClassId a)) →
  let r := Merge.mergeDiagramModifications existingClasses existingAssociations
             aiClasses aiAssociations in
  Merge.endpointIntegrity (Merge.resultClasses r) (Merge.resultAssociations r).
Proof.
  intros Hex _ Hends r. unfold Merge.endpointIntegrity in *.
  rewrite Forall_forall in *. intros a Ha. simpl in Ha.
  apply viaMap_elem, mergedAssocList_endpoints in Ha as (b & Hb & -> & ->).
  apply elem_of_app in Hb as [Hb|Hb].
  - destruct (Hex b Hb). split; apply settled_id_survives; by left.
  - destruct (Hends b Hb). split; by apply settled_id_survives.
Qed.

(* ===================================================================== *)
(** * Claims about deduplication and the merge engine *)
(* ===================================================================== *)

(** C4.  Deduplication contract.  The by-id filter applied on diagram load,
    on a realtime push and before a modified diagram replaces the state
    ([Dedup.uniqueById]) and the one applied to the rendering input
    ([Dedup.memoized]) compute the same list; that list is a subsequence of
    the input (relative order kept), no id occurs in it twice, for every id
    of the input it contains exactly one entry, namely the first entry of
    the input with that id, and it is the input itself when the input has
    no repeated id. *)
Theorem dedup_by_id_contract {A : Type} `{HasId A} (arr : list A) :
  let out := Dedup.uniqueById arr in
  Dedup.memoized arr = out
  ∧ out `sublist_of` arr
  ∧ NoDup (ids out)
  ∧ (∀ k, k ∈ ids arr →
          ∃ e, head (filter (λ c, entityId c = k) arr) = Some e
               ∧ filter (λ c, entityId c = k) out = [e])
  ∧ (NoDup (ids arr) → out = arr).
Proof.
  cbv zeta. rewrite uniqueById_memoized. unfold Dedup.memoized. split_and!.
  - done.
  - apply filterSeen_sublist.
  - apply filterSeen_NoDup.
  - intros k Hk. rewrite filterSeen_first by apply not_elem_of_empty.
    apply list_elem_of_fmap in Hk as (c & -> & Hc).
    destruct (filter (λ c0, entityId c0 = entityId c) arr) as [|e l] eqn:Hf.
    + exfalso. eapply (filter_nil_not_elem_of _ _ c Hf); done.
    + by exists e.
  - intros Hnd. apply filterSeen_id; [done|]. intros k _. apply not_elem_of_empty.
Qed.

Lemma dedup_by_id_contract_witness :
  NoDup (ids [Sample.cls "c1" "User"; Sample.cls "c2" "Order"])
  ∧ Dedup.uniqueById [Sample.cls "c1" "User"; Sample.cls "c2" "Order"]
    = [Sample.cls "c1" "User"; Sample.cls "c2" "Order"].
Proof.
  assert (NoDup (ids [Sample.cls "c1" "User"; Sample.cls "c2" "Order"])) as Hnd
    by compute_done.
  split; [exact Hnd|].
  exact (proj2 (proj2 (proj2 (proj2
           (dedup_by_id_contract [Sample.cls "c1" "User"; Sample.cls "c2" "Order"]))))
         Hnd).
Defined.

Example dedup_keeps_first :
  Dedup.uniqueById
    [Sample.cls "c1" "A"; Sample.cls "c2" "B"; Sample.cls "c1" "C"; Sample.cls "c3" "D";
     Sample.cls "c2" "E"]
  = [Sample.cls "c1" "A"; Sample.cls "c2" "B"; Sample.cls "c3" "D"].
Proof. reflexivity. Qed.

(** C10.  The final pass of the merge engine, for classes and for
    associations alike: the ids of the result are the ids of the merged list
    in the order of their first occurrence, and the entry that the result
    holds for an id is the last entry of the merged list with that id. *)
Theorem merge_final_pass_first_position_last_value `{JS.Lowering}
    (existingClasses : list UMLClass.t) (existingAssociations : list Association.t)
    (aiClasses : list UMLClass.t) (aiAssociations : list Association.t) :
  let r := Merge.mergeDiagramModifications existingClasses existingAssociations
             aiClasses aiAssociations in
  let mergedClasses := Merge.mergedClassList existingClasses aiClasses in
  let mergedAssociations := Merge.mergedAssocList existingAssociations aiAssociations in
  (ids (Merge.resultClasses r) = ids (Dedup.uniqueById mergedClasses)
   ∧ ∀ k, filter (λ c, UMLClass.id c = k) (Merge.resultClasses r)
          = option_list (last (filter (λ c, UMLClass.id c = k) mergedClasses)))
  ∧ (ids (Merge.resultAssociations r) = ids (Dedup.uniqueById mergedAssociations)
     ∧ ∀ k, filter (λ a, Association.id a = k) (Merge.resultAssociations r)
            = option_list (last (filter (λ a, Association.id a = k) mergedAssociations))).
Proof.
  cbv zeta. simpl. unfold Merge.finalClasses, Merge.finalAssociations.
  rewrite !uniqueById_memoized. split; split.
  - apply viaMap_ids.
  - intros k. apply (viaMap_filter (H := UMLClass.id)).
  - apply viaMap_ids.
  - intros k. apply (viaMap_filter (H := Association.id)).
Qed.

Section merge_final_pass_examples.
#[local] Existing Instance Sample.lowering.

(** Two proposed classes with the same new id: the merged list holds both,
    the result holds the second one at the place of the first. *)
Example merge_final_pass_example :
  Merge.mergedClassList [Sample.cls "c1" "User"]
    [Sample.cls "n1" "Order"; Sample.cls "n2" "Item"; Sample.cls "n1" "Invoice"]
  = [Sample.cls "n1" "Order"; Sample.cls "n2" "Item"; Sample.cls "n1" "Invoice";
     Sample.cls "c1" "User"]
  ∧ Merge.finalClasses [Sample.cls "c1" "User"]
      [Sample.cls "n1" "Order"; Sample.cls "n2" "Item"; Sample.cls "n1" "Invoice"]
    = [Sample.cls "n1" "Invoice"; Sample.cls "n2" "Item"; Sample.cls "c1" "User"].
Proof. split; reflexivity. Qed.

(** C1 as stated fails when two existing classes share the lower-cased
    name: the proposal is matched with the later one, and the earlier one
    keeps its own content. *)
Lemma merge_name_fallback_counterexample :
  let E := Sample.placed "c1" "User" 100 100 in
  let existing := [E; Sample.placed "c3" "user" 300 100] in
  let P := Sample.proposedUser in
  E ∈ existing
  ∧ (UMLClass.id P ∉ ids existing)
  ∧ lname P = lname E
  ∧ (filter (λ c, UMLClass.id c = UMLClass.id E)
       (Merge.resultClasses (Merge.mergeDiagramModifications existing [] [P] []))
     = [E])
  ∧ [E] ≠ [Merge.absorbed E P].
Proof. cbv zeta. split_and!; [left | compute_done | reflexivity | reflexivity | compute_done]. Qed.

End merge_final_pass_examples.

(** C1 (amended).  Let [E] be the only existing class with its id and with
    its lower-cased name, and let the proposal contain a class [P] whose id
    is the id of no existing class and whose lower-cased name is that of
    [E], every other proposed class having neither [E]'s id nor [E]'s
    lower-cased name.  Then the merge result contains exactly one class with
    [E]'s id: it has [E]'s id and [P]'s name and attributes, and its
    position is [P]'s, or [E]'s when [P] has none. *)
Theorem merge_name_fallback_keeps_existing_id `{JS.Lowering}
    (existingClasses : list UMLClass.t) (existingAssociations : list Association.t)
    (before after : list UMLClass.t) (aiAssociations : list Association.t)
    (E P : UMLClass.t) :
  E ∈ existingClasses →
  (∀ X, X ∈ existingClasses →
        UMLClass.id X = UMLClass.id E ∨ lname X = lname E → X = E) →
  UMLClass.id P ∉ ids existingClasses →
  lname P = lname E →
  Forall (Merge.unrelated E) (before ++ after) →
  filter (λ c, UMLClass.id c = UMLClass.id E)
    (Merge.resultClasses
       (Merge.mergeDiagramModifications existingClasses existingAssociations
          (before ++ P :: after) aiAssociations))
  = [Merge.absorbed E P].
Proof.
  intros HE Huniq HP Hname [Hb Ha]%Forall_app. simpl. unfold Merge.finalClasses.
  rewrite (viaMap_filter (H := UMLClass.id)).
  by rewrite name_fallback_merged.
Qed.


Section merge_claims_examples.
#[local] Existing Instance Sample.lowering.

(** The example of the specification: existing ["c1"], "User"; proposed
    ["c2"], "User". *)
Lemma merge_name_fallback_witness :
  Merge.resultClasses
    (Merge.mergeDiagramModifications [Sample.cls "c1" "User"] []
       [Sample.cls "c2" "User"] [])
  = [Sample.cls "c1" "User"]
  ∧ filter (λ c, UMLClass.id c = "c1")
      (Merge.resultClasses
         (Merge.mergeDiagramModifications [Sample.cls "c1" "User"] []
            [Sample.cls "c2" "User"] []))
    = [Merge.absorbed (Sample.cls "c1" "User") (Sample.cls "c2" "User")].
Proof.
  split; [reflexivity|].
  apply (merge_name_fallback_keeps_existing_id [Sample.cls "c1" "User"] [] [] [] []
           (Sample.cls "c1" "User") (Sample.cls "c2" "User")).
  - left.
  - intros X HX _. apply list_elem_of_singleton in HX. exact HX.
  - compute_done.
  - reflexivity.
  - constructor.
Defined.

(** C3 as stated fails: a proposed class absorbed through the name fallback
    loses its id, and a proposed association that refers to that id is
    carried over unchanged. *)
Lemma merge_endpoint_integrity_counterexample :
  let existingClasses := [Sample.cls "c1" "User"; Sample.cls "c3" "Order"] in
  let existingAssociations := [Sample.link "e1" "c1" "c3"] in
  let aiClasses := [Sample.cls "c2" "User"; Sample.cls "c3" "Order"] in
  let aiAssociations := [Sample.link "a1" "c2" "c3"] in
  let r := Merge.mergeDiagramModifications existingClasses existingAssociations
             aiClasses aiAssociations in
  Merge.endpointIntegrity existingClasses existingAssociations
  ∧ Merge.endpointIntegrity aiClasses aiAssociations
  ∧ ids (Merge.resultClasses r) = ["c1"; "c3"]
  ∧ Merge.resultAssociations r = [Sample.link "a1" "c2" "c3"; Sample.link "e1" "c1" "c3"]
  ∧ ¬ Merge.endpointIntegrity (Merge.resultClasses r) (Merge.resultAssociations r).
Proof.
  cbv zeta. unfold Merge.endpointIntegrity. split_and!.
  - compute_done.
  - compute_done.
  - reflexivity.
  - reflexivity.
  - compute_done.
Qed.

(** A proposal in which the class "USER" is matched by name with the
    existing class [c1] and loses its id [c2], while the one proposed
    association joins the new class [c4] and the existing class [c3]. *)
Lemma merge_endpoint_integrity_witness :
  let existingClasses := [Sample.cls "c1" "User"; Sample.cls "c3" "Order"] in
  let existingAssociations := [Sample.link "e1" "c1" "c3"] in
  let aiClasses := [Sample.cls "c2" "USER"; Sample.cls "c3" "Order"; Sample.cls "c4" "Item"] in
  let aiAssociations := [Sample.link "a1" "c4" "c3"] in
  let r := Merge.mergeDiagramModifications existingClasses existingAssociations
             aiClasses aiAssociations in
  ids (Merge.resultClasses r) = ["c1"; "c3"; "c4"]
  ∧ Merge.endpointIntegrity (Merge.resultClasses r) (Merge.resultAssociations r).
Proof.
  cbv zeta. split; [reflexivity|].
  apply (merge_endpoint_integrity
           [Sample.cls "c1" "User"; Sample.cls "c3" "Order"] [Sample.link "e1" "c1" "c3"]
           [Sample.cls "c2" "USER"; Sample.cls "c3" "Order"; Sample.cls "c4" "Item"]
           [Sample.link "a1" "c4" "c3"]).
  - compute_done.
  - compute_done.
  - intros a Ha. apply list_elem_of_singleton in Ha. subst a. split.
    + right. exists (Sample.cls "c4" "Item"). split_and!; [compute_done|reflexivity|compute_done].
    + left. compute_done.
Defined.

(** C2 as stated fails on a class list that repeats an id: the final pass
    keeps one entry per id.  Such a list can be the state of the page, since
    [handleGenerateClasses] only filters the new classes against the ids
    already there. *)
Lemma merge_idempotent_counterexample :
  let cs := [Sample.cls "c1" "Order"; Sample.cls "c1" "Invoice"] in
  Editor.classes (Editor.handleGenerateClasses cs Editor.initial) = cs
  ∧ Merge.mergeDiagramModifications cs [] cs []
    = {| Merge.resultClasses := [Sample.cls "c1" "Invoice"];
         Merge.resultAssociations := [] |}
  ∧ Merge.resultClasses (Merge.mergeDiagramModifications cs [] cs []) ≠ cs.
Proof. cbv zeta. split_and!; [compute_done | reflexivity | compute_done]. Qed.

Lemma merge_idempotent_witness :
  let cs := [Sample.cls "c1" "User"; Sample.cls "c3" "Order"] in
  let assocs := [Sample.link "e1" "c1" "c3"] in
  Merge.mergeDiagramModifications cs assocs cs assocs
  = {| Merge.resultClasses := cs; Merge.resultAssociations := assocs |}.
Proof.
  cbv zeta. apply merge_idempotent.
  - compute_done.
  - compute_done.
Defined.
End merge_claims_examples.

(* ===================================================================== *)
(** * The editor page: timers and the drag flag *)
(* ===================================================================== *)

Section EditorTimers.
Implicit Types (st : Editor.State) (tm : Editor.Timer) (q : list Editor.Timer).

Lemma enqueue_filter_other (P : Editor.Timer → Prop) `{!∀ x, Decision (P x)} tm q :
  ¬ P tm → filter P (Editor.enqueue tm q) = filter P q.
Proof.
  intros Hn. induction q as [|tm' q IH]; simpl.
  - by rewrite filter_cons_False.
  - destruct (Editor.due tm' <=? Editor.due tm).
    + rewrite !filter_cons, IH. done.
    + by rewrite (filter_cons_False _ tm).
Qed.

Lemma enqueue_filter_only (P : Editor.Timer → Prop) `{!∀ x, Decision (P x)} tm q :
  P tm → filter P q = [] → filter P (Editor.enqueue tm q) = [tm].
Proof.
  intros Hp. induction q as [|tm' q IH]; simpl; intros Hq.
  - by rewrite filter_cons_True.
  - rewrite filter_cons in Hq. destruct (decide (P tm')); [done|].
    destruct (Editor.due tm' <=? Editor.due tm).
    + rewrite filter_cons_False by done. auto.
    + rewrite filter_cons_True, filter_cons_False by done. by rewrite Hq.
Qed.

Lemma fire_timers st tm : Editor.timers (Editor.fire st tm) = Editor.timers st.
Proof. unfold Editor.fire. by destruct (Editor.callback tm). Qed.

Lemma foldl_fire_timers st q : Editor.timers (foldl Editor.fire st q) = Editor.timers st.
Proof.
  revert st. induction q as [|tm q IH]; intros st; simpl; [done|].
  by rewrite IH, fire_timers.
Qed.

(** Running timers none of which clears the flag leaves the flag and the
    ref alone. *)
Lemma foldl_fire_no_reset st q :
  Forall (λ tm, ¬ isReset tm) q →
  Editor.isDraggingRef (foldl Editor.fire st q) = Editor.isDraggingRef st
  ∧ Editor.dragTimeoutRef (foldl Editor.fire st q) = Editor.dragTimeoutRef st.
Proof.
  revert st. induction q as [|tm q IH]; intros st Hq; simpl; [done|].
  apply Forall_cons in Hq as [Htm Hq]. destruct (IH (Editor.fire st tm) Hq) as [-> ->].
  unfold Editor.fire. by destruct (Editor.callback tm).
Qed.

Lemma foldl_fire_flag_down st q :
  Editor.isDraggingRef st = false → Editor.isDraggingRef (foldl Editor.fire st q) = false.
Proof.
  revert st. induction q as [|tm q IH]; intros st Hst; simpl; [done|].
  apply IH. unfold Editor.fire. by destruct (Editor.callback tm).
Qed.

(** Running timers one of which clears the flag leaves the flag down. *)
Lemma foldl_fire_reset st q tm :
  tm ∈ q → isReset tm → Editor.isDraggingRef (foldl Editor.fire st q) = false.
Proof.
  revert st. induction q as [|tm' q IH]; intros st Hin Hr.
  - by apply elem_of_nil in Hin.
  - simpl. apply elem_of_cons in Hin as [<-|Hin].
    + apply foldl_fire_flag_down. unfold Editor.fire. by rewrite Hr.
    + by apply IH.
Qed.

Lemma resets_advance now st :
  Editor.resets (Editor.advance now st)
  = filter (λ tm, now < Editor.due tm) (Editor.resets st).
Proof.
  unfold Editor.resets, Editor.advance. rewrite foldl_fire_timers. simpl.
  apply filter_comm.
Qed.

Lemma advance_Idle now st : Editor.Idle st → Editor.Idle (Editor.advance now st).
Proof.
  intros [Hr Hf]. split.
  - by rewrite resets_advance, Hr.
  - unfold Editor.advance. by apply foldl_fire_flag_down.
Qed.

Lemma advance_Dragging_early now d st :
  Editor.Dragging d st → now < d → Editor.Dragging d (Editor.advance now st).
Proof.
  intros (tm & Hr & Hd & Href & Hf) Hlt. exists tm.
  assert (Forall (λ tm', ¬ isReset tm')
            (filter (λ tm', Editor.due tm' ≤ now) (Editor.timers st))) as Hnone.
  { apply Forall_forall. intros tm' [Hdue Hin]%list_elem_of_filter Hreset.
    assert (tm' ∈ Editor.resets st) as Hin' by (by apply list_elem_of_filter).
    rewrite Hr in Hin'. apply list_elem_of_singleton in Hin'. subst tm'. lia. }
  unfold Editor.advance at 2 3.
  destruct (foldl_fire_no_reset
              (Editor.setTimers (filter (λ tm, now < Editor.due tm) (Editor.timers st))
                 (Editor.nextHandle st) st) _ Hnone) as [-> ->].
  simpl. split_and!; [|done..].
  rewrite resets_advance, Hr. rewrite filter_cons_True by lia. done.
Qed.

Lemma advance_Dragging_late now d st :
  Editor.Dragging d st → d ≤ now → Editor.Idle (Editor.advance now st).
Proof.
  intros (tm & Hr & Hd & Href & Hf) Hle.
  assert (tm ∈ Editor.resets st) as [Hreset Hin]%list_elem_of_filter
    by (rewrite Hr; left).
  split.
  - rewrite resets_advance, Hr. rewrite filter_cons_False by lia. done.
  - unfold Editor.advance. apply (foldl_fire_reset _ _ tm); [|done].
    apply list_elem_of_filter. split; [lia | done].
Qed.

Lemma resets_clearTimeout h st :
  Editor.resets (Editor.clearTimeout h st)
  = filter (λ tm, Editor.handle tm ≠ h) (Editor.resets st).
Proof. unfold Editor.resets, Editor.clearTimeout. simpl. apply filter_comm. Qed.

(** Position updates raise the flag and leave exactly one timer to clear
    it, due 200 ms later. *)
Lemma updateClass_drag now id u st :
  is_Some (PartialUMLClass.position u) → Editor.wf st →
  Editor.Dragging (now + 200) (Editor.updateClass now id u st).
Proof.
  intros [p Hp] Hwf. unfold Editor.updateClass. rewrite Hp.
  set (st1 := Editor.setDragging true (Editor.dragTimeoutRef st) st).
  set (st2 := Editor.setTimeout now 0 (Editor.ApplyClassUpdate id u) st1).
  assert (Editor.resets st2 = Editor.resets st) as Hr2.
  { unfold Editor.resets, st2, Editor.setTimeout. simpl.
    by apply enqueue_filter_other. }
  set (st3 := match Editor.dragTimeoutRef st2 with
              | Some h => Editor.clearTimeout h st2
              | None => st2
              end).
  assert (Editor.resets st3 = [] ∧ Editor.isDraggingRef st3 = true) as [Hr3 Hf3].
  { unfold st3. destruct Hwf as [[Hr _]|(d & tm & Hr & _ & Href & _)].
    - destruct (Editor.dragTimeoutRef st2); split; try done.
      + by rewrite resets_clearTimeout, Hr2, Hr.
      + by rewrite Hr2.
    - replace (Editor.dragTimeoutRef st2) with (Some (Editor.handle tm)) by done.
      split; [|done]. rewrite resets_clearTimeout, Hr2, Hr.
      by rewrite filter_cons_False by (intros Hn; by apply Hn). }
  exists {| Editor.handle := Editor.nextHandle st3; Editor.due := now + 200;
            Editor.callback := Editor.ResetDragging |}.
  split_and!; [|reflexivity|reflexivity|exact Hf3].
  unfold Editor.resets, Editor.setDragging, Editor.setTimeout, Editor.setTimers.
  cbn [Editor.timers]. by apply enqueue_filter_only.
Qed.

End EditorTimers.

Section EditorEvents.
Implicit Types (st : Editor.State) (e : Editor.Event).

(** Events other than position updates touch neither the flag, nor the
    ref, nor the timers that clear the flag. *)
Lemma handle_other_drag_state now e st :
  Editor.isDrag e = false →
  Editor.resets (Editor.handle_event now e st) = Editor.resets st
  ∧ Editor.isDraggingRef (Editor.handle_event now e st) = Editor.isDraggingRef st
  ∧ Editor.dragTimeoutRef (Editor.handle_event now e st) = Editor.dragTimeoutRef st.
Proof.
  destruct e as [id u|cs assocs|id|cs assocs]; simpl; intros He.
  - unfold Editor.updateClass.
    destruct (PartialUMLClass.position u); [discriminate|].
    split_and!; [|done..]. unfold Editor.resets, Editor.setTimeout. simpl.
    by apply enqueue_filter_other.
  - unfold Editor.handleRealtimeUpdate.
    destruct (Editor.isDraggingRef st) eqn:Hf; simpl; split_and!; done.
  - unfold Editor.removeClass. case_bool_decide; split_and!; reflexivity.
  - split_and!; reflexivity.
Qed.

Lemma handle_other_Idle now e st :
  Editor.isDrag e = false → Editor.Idle st → Editor.Idle (Editor.handle_event now e st).
Proof.
  intros He [Hr Hf]. destruct (handle_other_drag_state now e st He) as (Hr' & Hf' & _).
  split; congruence.
Qed.

Lemma handle_other_Dragging now d e st :
  Editor.isDrag e = false → Editor.Dragging d st →
  Editor.Dragging d (Editor.handle_event now e st).
Proof.
  intros He (tm & Hr & Hd & Href & Hf).
  destruct (handle_other_drag_state now e st He) as (Hr' & Hf' & Href').
  exists tm. split_and!; congruence.
Qed.

Lemma advance_wf now st : Editor.wf st → Editor.wf (Editor.advance now st).
Proof.
  intros [Hidle|[d Hdrag]].
  - left. by apply advance_Idle.
  - destruct (decide (now < d)).
    + right. exists d. by apply advance_Dragging_early.
    + left. apply (advance_Dragging_late now d); [done | lia].
Qed.

Lemma handle_drag now e st :
  Editor.isDrag e = true → Editor.wf st →
  Editor.Dragging (now + 200) (Editor.handle_event now e st).
Proof.
  destruct e as [id u|cs assocs|id|cs assocs]; simpl; try done.
  destruct (PartialUMLClass.position u) as [p|] eqn:Hp; [|done].
  intros _ Hwf. apply updateClass_drag; [by rewrite Hp | done].
Qed.

(** Every state of a run that starts in a well-formed state is well-formed;
    the initial state of the page is. *)
Lemma step_wf st te : Editor.wf st → Editor.wf (Editor.step st te).
Proof.
  intros Hwf. unfold Editor.step. apply (advance_wf te.1) in Hwf.
  destruct (Editor.isDrag te.2) eqn:He.
  - right. eexists. by apply handle_drag.
  - destruct Hwf as [Hidle|[d Hdrag]].
    + left. by apply handle_other_Idle.
    + right. exists d. by apply handle_other_Dragging.
Qed.

Lemma run_wf st trace : Editor.wf st → Editor.wf (Editor.run st trace).
Proof.
  revert st. induction trace as [|te trace IH]; intros st Hwf; [done|].
  simpl. by apply IH, step_wf.
Qed.

Lemma initial_wf : Editor.wf Editor.initial.
Proof. by left. Qed.

(** While the timer is not yet due, events other than position updates
    leave the drag in progress. *)
Lemma run_Dragging_early d st trace :
  Editor.Dragging d st →
  Forall (λ te, Editor.isDrag te.2 = false ∧ te.1 < d) trace →
  Editor.Dragging d (Editor.run st trace).
Proof.
  revert st. induction trace as [|te trace IH]; intros st Hst Htr; [done|].
  apply Forall_cons in Htr as [[He Ht] Htr]. simpl. apply IH; [|done].
  unfold Editor.step. apply handle_other_Dragging; [done|].
  by apply advance_Dragging_early.
Qed.

(** Without a further position update the drag either stays in progress
    with the same due time or has ended. *)
Lemma run_no_drag d st trace :
  Editor.Idle st ∨ Editor.Dragging d st →
  Forall (λ te, Editor.isDrag te.2 = false) trace →
  Editor.Idle (Editor.run st trace) ∨ Editor.Dragging d (Editor.run st trace).
Proof.
  revert st. induction trace as [|te trace IH]; intros st Hst Htr; [done|].
  apply Forall_cons in Htr as [He Htr]. simpl. apply IH; [|done].
  unfold Editor.step. destruct Hst as [Hidle|Hdrag].
  - left. by apply handle_other_Idle, advance_Idle.
  - destruct (decide (te.1 < d)).
    + right. by apply handle_other_Dragging, advance_Dragging_early.
    + left. apply handle_other_Idle; [done|].
      apply (advance_Dragging_late _ d); [done | lia].
Qed.

Lemma handleRealtimeUpdate_applied cs assocs st :
  Editor.isDraggingRef st = false →
  Editor.classes (Editor.handleRealtimeUpdate cs assocs st) = Dedup.uniqueById cs
  ∧ Editor.associations (Editor.handleRealtimeUpdate cs assocs st) = Dedup.uniqueById assocs.
Proof.
  intros Hf. unfold Editor.handleRealtimeUpdate, Editor.jsonDiffers. rewrite Hf. simpl.
  split; case_bool_decide; simpl; done.
Qed.

End EditorEvents.

(** C7.  Realtime drag suppression.  A snapshot handled while the drag flag
    is set leaves the page as it is.  Take a page in a well-formed state, a
    position update at time [t0], then any events other than position
    updates, and a snapshot arriving at time [t1]: if [t1] is less than 200
    ms after [t0] the snapshot changes nothing (the page is what the timers
    due by [t1] made of it); if [t1] is at least 200 ms after [t0] the flag
    has been cleared and the snapshot is applied.  The classes of the page
    are then the incoming ones deduplicated by id: a subsequence of the
    incoming list without a repeated id that holds the first incoming class
    of every incoming id, and so the incoming list itself when it repeats
    no id; they are a new value exactly when this list differs from the
    classes the page had, which stay otherwise.  The same holds of the
    associations. *)
Theorem realtime_drag_suppression :
  (∀ st cs assocs,
     Editor.isDraggingRef st = true → Editor.handleRealtimeUpdate cs assocs st = st)
  ∧ (∀ st t0 id u between t1 cs assocs,
       Editor.wf st →
       is_Some (PartialUMLClass.position u) →
       Forall (λ te, Editor.isDrag te.2 = false ∧ te.1 ≤ t1) between →
       let dragged := Editor.run (Editor.step st (t0, Editor.UpdateClass id u)) between in
       let current := Editor.advance t1 dragged in
       let after := Editor.step dragged (t1, Editor.RealtimeUpdate cs assocs) in
       (t1 < t0 + 200 → Editor.isDraggingRef current = true ∧ after = current)
       ∧ (t0 + 200 ≤ t1 →
            Editor.isDraggingRef current = false
            ∧ Dedup.firstPerId cs (Editor.classes after)
            ∧ Dedup.firstPerId assocs (Editor.associations after)
            ∧ (NoDup (ids cs) → Editor.classes after = cs)
            ∧ (NoDup (ids assocs) → Editor.associations after = assocs)
            ∧ Editor.classes after
              = (if Editor.jsonDiffers (Editor.classes current) (Dedup.uniqueById cs)
                 then Dedup.uniqueById cs else Editor.classes current)
            ∧ Editor.associations after
              = (if Editor.jsonDiffers (Editor.associations current)
                      (Dedup.uniqueById assocs)
                 then Dedup.uniqueById assocs else Editor.associations current)
            ∧ Editor.classes after = Dedup.uniqueById cs
            ∧ Editor.associations after = Dedup.uniqueById assocs)).
Proof.
  split.
  - intros st cs assocs Hf. unfold Editor.handleRealtimeUpdate. by rewrite Hf.
  - intros st t0 id u between t1 cs assocs Hwf Hpos Hbetween dragged current after.
    assert (Editor.Dragging (t0 + 200) (Editor.step st (t0, Editor.UpdateClass id u)))
      as Hdrag.
    { unfold Editor.step. simpl. apply updateClass_drag; [done | by apply advance_wf]. }
    split.
    + intros Hearly.
      assert (Editor.Dragging (t0 + 200) current) as (tm & _ & _ & _ & Hf).
      { apply advance_Dragging_early; [|done]. apply run_Dragging_early; [done|].
        eapply Forall_impl; [exact Hbetween|]. simpl. intros te [? ?]. split; [done | lia]. }
      split; [done|]. unfold after, Editor.step. simpl. fold current.
      unfold Editor.handleRealtimeUpdate. by rewrite Hf.
    + intros Hlate.
      assert (Editor.Idle current) as [_ Hf].
      { destruct (run_no_drag (t0 + 200) _ between (or_intror Hdrag)) as [Hidle|Hd].
        - eapply Forall_impl; [exact Hbetween|]. simpl. by intros te [? ?].
        - by apply advance_Idle.
        - by apply (advance_Dragging_late t1 (t0 + 200)). }
      split; [done|].
      destruct (handleRealtimeUpdate_applied cs assocs current Hf) as [Hc Ha].
      unfold after, Editor.step. simpl. fold current. split_and!; [| | | | | |done..].
      * rewrite Hc. apply uniqueById_firstPerId.
      * rewrite Ha. apply uniqueById_firstPerId.
      * intros Hnd. rewrite Hc. by apply uniqueById_id.
      * intros Hnd. rewrite Ha. by apply uniqueById_id.
      * unfold Editor.handleRealtimeUpdate. by rewrite Hf.
      * unfold Editor.handleRealtimeUpdate. by rewrite Hf.
Qed.

(** A snapshot that repeats the id Z: dropped 100 ms after the move,
    applied 200 ms after it without the second Z. *)
Lemma realtime_drag_suppression_witness :
  let dragged :=
    Editor.run (Editor.step Sample.pageAB (1000, Editor.UpdateClass "A" (Sample.moveTo 40 50)))
      [] in
  let snapshot := [Sample.cls "Z" "Z"; Sample.cls "Y" "Y"; Sample.cls "Z" "Z2"] in
  Editor.wf Sample.pageAB
  ∧ Editor.step dragged (1100, Editor.RealtimeUpdate snapshot [])
    = Editor.advance 1100 dragged
  ∧ Dedup.firstPerId snapshot
      (Editor.classes (Editor.step dragged (1200, Editor.RealtimeUpdate snapshot [])))
  ∧ Editor.classes (Editor.step dragged (1200, Editor.RealtimeUpdate snapshot []))
    = [Sample.cls "Z" "Z"; Sample.cls "Y" "Y"].
Proof.
  cbv zeta.
  assert (Editor.wf Sample.pageAB) as Hwf by (left; split; reflexivity).
  assert (is_Some (PartialUMLClass.position (Sample.moveTo 40 50))) as Hpos
    by (eexists; reflexivity).
  destruct realtime_drag_suppression as [_ H].
  split; [exact Hwf|]. split_and!.
  - apply (H Sample.pageAB 1000 "A" (Sample.moveTo 40 50) [] 1100
             [Sample.cls "Z" "Z"; Sample.cls "Y" "Y"; Sample.cls "Z" "Z2"] []
             Hwf Hpos (Forall_nil_2 _)).
    reflexivity.
  - apply (H Sample.pageAB 1000 "A" (Sample.moveTo 40 50) [] 1200
             [Sample.cls "Z" "Z"; Sample.cls "Y" "Y"; Sample.cls "Z" "Z2"] []
             Hwf Hpos (Forall_nil_2 _)).
    discriminate.
  - reflexivity.
Defined.

(** The position update itself reaches the classes through its own deferred
    timer, whatever snapshots are dropped meanwhile. *)
Example drag_then_push_during_drag :
  Editor.classes
    (Editor.run Sample.pageAB
       [(1000, Editor.UpdateClass "A" (Sample.moveTo 40 50));
        (1100, Editor.RealtimeUpdate [Sample.cls "Z" "Z"] [])])
  = [Sample.placed "A" "A" 40 50; Sample.cls "B" "B"].
Proof. reflexivity. Qed.

(* ===================================================================== *)
(** * Removing a class *)
(* ===================================================================== *)

(** C8.  Class-removal cascade.  After [removeClass id] no class has the id
    [id] and no association has [id] at either end; the classes with another
    id, and the associations with both ends different from [id], are the
    same as before, in the same order; the refs and the timers are not
    touched.  With classes A and B and one association from A to B, removing
    A leaves no association. *)
Theorem removeClass_cascade (st : Editor.State) (id : string) :
  let st' := Editor.removeClass id st in
  (id ∉ ids (Editor.classes st'))
  ∧ Forall (λ a, Association.fromClassId a ≠ id ∧ Association.toClassId a ≠ id)
      (Editor.associations st')
  ∧ Editor.classes st' = filter (λ c, UMLClass.id c ≠ id) (Editor.classes st)
  ∧ Editor.associations st'
    = filter (λ a, Association.fromClassId a ≠ id ∧ Association.toClassId a ≠ id)
        (Editor.associations st)
  ∧ (∀ c, c ∈ Editor.classes st → UMLClass.id c ≠ id → c ∈ Editor.classes st')
  ∧ (∀ a, a ∈ Editor.associations st →
          Association.fromClassId a ≠ id → Association.toClassId a ≠ id →
          a ∈ Editor.associations st')
  ∧ Editor.classes st' `sublist_of` Editor.classes st
  ∧ Editor.associations st' `sublist_of` Editor.associations st
  ∧ Editor.isDraggingRef st' = Editor.isDraggingRef st
  ∧ Editor.timers st' = Editor.timers st
  ∧ Editor.associations (Editor.removeClass "A" Sample.pageAB) = []
  ∧ Editor.classes (Editor.removeClass "A" Sample.pageAB) = [Sample.cls "B" "B"].
Proof.
  cbv zeta.
  assert (Editor.classes (Editor.removeClass id st)
          = filter (λ c, UMLClass.id c ≠ id) (Editor.classes st)) as Hc
    by (unfold Editor.removeClass; by case_bool_decide).
  assert (Editor.associations (Editor.removeClass id st)
          = filter (λ a, Association.fromClassId a ≠ id ∧ Association.toClassId a ≠ id)
              (Editor.associations st)) as Ha
    by (unfold Editor.removeClass; by case_bool_decide).
  rewrite Hc, Ha. split_and!.
  - intros (c & Hid & [Hne _]%list_elem_of_filter)%list_elem_of_fmap.
    apply Hne. symmetry. exact Hid.
  - apply Forall_forall. by intros a [? _]%list_elem_of_filter.
  - done.
  - done.
  - intros c Hin Hne. by apply list_elem_of_filter.
  - intros a Hin Hf Ht. by apply list_elem_of_filter.
  - apply sublist_filter.
  - apply sublist_filter.
  - unfold Editor.removeClass. by case_bool_decide.
  - unfold Editor.removeClass. by case_bool_decide.
  - reflexivity.
  - reflexivity.
Qed.

Lemma removeClass_cascade_witness :
  Sample.cls "B" "B" ∈ Editor.classes Sample.pageAB
  ∧ Sample.cls "B" "B" ∈ Editor.classes (Editor.removeClass "A" Sample.pageAB).
Proof.
  assert (Sample.cls "B" "B" ∈ Editor.classes Sample.pageAB) as Hin by (right; left).
  split; [exact Hin|].
  apply (proj1 (proj2 (proj2 (proj2 (proj2 (removeClass_cascade Sample.pageAB "A")))))
           (Sample.cls "B" "B") Hin).
  discriminate.
Defined.

(* ===================================================================== *)
(** * Realtime messages *)
(* ===================================================================== *)

(** C6 as stated fails when the shared identifier is the empty string: the
    guard [data.user_id && ...] is falsy, the snapshot is passed on and
    replaces the classes of the page. *)
(** C6.  Realtime echo suppression.  The page hands the hook the id of the
    signed-in user ([currentUserId: user?.id]), a text that is not empty,
    and it loads no diagram without a user.  A realtime message whose
    origin identifier equals that id is discarded: [onUpdate] is not called
    and the state of the page, classes and associations included, is the
    same value before and after. *)
Theorem realtime_echo_suppression
    (uid : string) (data : Sse.DiagramUpdate) (st : Editor.State) :
  uid ≠ "" →
  Sse.user_id data = Some uid →
  Sse.onmessage (Some uid) (Sse.Json data) = None
  ∧ Editor.onRealtimeMessage (Some uid) (Sse.Json data) st = st
  ∧ Editor.classes (Editor.onRealtimeMessage (Some uid) (Sse.Json data) st)
    = Editor.classes st
  ∧ Editor.associations (Editor.onRealtimeMessage (Some uid) (Sse.Json data) st)
    = Editor.associations st.
Proof.
  intros Huid Heq.
  assert (Sse.onmessage (Some uid) (Sse.Json data) = None) as Hnone.
  { unfold Sse.onmessage. case_bool_decide; [|done].
    destruct (Sse.diagram_data data); [|done].
    rewrite Heq, bool_decide_eq_true_2 by done. simpl.
    by destruct (String.eqb_spec uid ""). }
  assert (Editor.onRealtimeMessage (Some uid) (Sse.Json data) st = st) as Hst
    by (unfold Editor.onRealtimeMessage; by rewrite Hnone).
  by rewrite Hst.
Qed.

Lemma realtime_echo_suppression_witness :
  let data := Sample.pushFrom (Some "u-1") [Sample.cls "Z" "Z"] in
  Sse.onmessage (Some "u-1") (Sse.Json data) = None
  ∧ Editor.onRealtimeMessage (Some "u-1") (Sse.Json data) Sample.pageAB = Sample.pageAB.
Proof.
  cbv zeta.
  destruct (realtime_echo_suppression "u-1"
              (Sample.pushFrom (Some "u-1") [Sample.cls "Z" "Z"]) Sample.pageAB)
    as (Hnone & Hst & _); [discriminate|reflexivity|].
  exact (conj Hnone Hst).
Defined.

(** The same message from another user is applied. *)
Example realtime_message_from_peer :
  Editor.classes
    (Editor.onRealtimeMessage (Some "u-1")
       (Sse.Json (Sample.pushFrom (Some "u-2") [Sample.cls "Z" "Z"])) Sample.pageAB)
  = [Sample.cls "Z" "Z"].
Proof. reflexivity. Qed.

(* ===================================================================== *)
(** * The connection state machine of the realtime hook *)
(* ===================================================================== *)

Section SseFacts.
Implicit Types (r : Sse.Refs) (e : Sse.Event).

(** The delays that the reconnect branch computes for attempts 1 to 5. *)
Example reconnectDelay_values :
  Sse.reconnectDelay <$> [1; 2; 3; 4; 5] = [2000; 4000; 8000; 10000; 10000].
Proof. reflexivity. Qed.

(** What the reconnect branch does when it is entered. *)
Lemma onerror_reconnect_branch r :
  Sse.reconnectAttemptsRef r ≠ 0 → Sse.is404ErrorRef r = false →
  Sse.reconnectAttemptsRef r < Sse.maxReconnectAttempts →
  Sse.scheduled (Sse.onerror Sse.CLOSED r)
  = Sse.scheduled r ++ [Sse.reconnectDelay (Sse.reconnectAttemptsRef r + 1)]
  ∧ Sse.reconnectAttemptsRef (Sse.onerror Sse.CLOSED r) = Sse.reconnectAttemptsRef r + 1.
Proof.
  intros Hne H404 Hlt. unfold Sse.onerror.
  rewrite (proj2 (Z.eqb_neq _ _) Hne), H404, (proj2 (Z.ltb_lt _ _) Hlt). done.
Qed.

(** The attempt counter is zero, and no reconnect timer has been started,
    in every state the hook can reach. *)
Lemma step_never_schedules r e :
  Sse.neverRetried r → Sse.neverRetried (Sse.step r e).
Proof.
  intros (Ha & Hs & Ht). destruct e as [enabled diagramId| | |m|rs|]; simpl.
  - unfold Sse.effectBody, Sse.connect.
    destruct (Sse.cleanupRegistered r), (Sse.mustNotConnect enabled diagramId); done.
  - by destruct (Sse.cleanupRegistered r).
  - done.
  - done.
  - unfold Sse.onerror. destruct rs; [done..|]. by rewrite Ha.
  - rewrite Ht. done.
Qed.

Lemma run_never_schedules r es :
  Sse.neverRetried r → Sse.neverRetried (foldl Sse.step r es).
Proof.
  revert r. induction es as [|e es IH]; intros r Hr; [done|].
  simpl. by apply IH, step_never_schedules.
Qed.

Lemma sse_never_schedules_retry es : Sse.neverRetried (Sse.run es).
Proof. by apply run_never_schedules. Qed.

(** A channel that closes before it ever opened is taken not to exist: the
    not-found flag goes up, no timer is started, and a later reconnect
    attempt would be skipped. *)
Lemma sse_first_close_no_retry r diagramId :
  Sse.mustNotConnect true diagramId = false →
  let r1 := Sse.step r (Sse.RunEffect true diagramId) in
  let r2 := Sse.step r1 (Sse.Errored Sse.CLOSED) in
  Sse.is404ErrorRef r2 = true ∧ Sse.scheduled r2 = Sse.scheduled r1
  ∧ Sse.connect r2 = r2.
Proof.
  intros Hok. cbv zeta. simpl. unfold Sse.effectBody. rewrite Hok.
  destruct (Sse.cleanupRegistered r); done.
Qed.

(** A run of the effect for a usable identifier resets the attempt counter
    and the not-found flag. *)
Lemma sse_fresh_identifier_resets r diagramId :
  Sse.mustNotConnect true diagramId = false →
  let r1 := Sse.step r (Sse.RunEffect true diagramId) in
  Sse.reconnectAttemptsRef r1 = 0 ∧ Sse.is404ErrorRef r1 = false.
Proof.
  intros Hok. cbv zeta. simpl. unfold Sse.effectBody. rewrite Hok.
  destruct (Sse.cleanupRegistered r); done.
Qed.

(** Any close after an open finds the counter at zero, as on the first
    attempt. *)
Lemma sse_close_after_open r :
  let r' := Sse.onerror Sse.CLOSED (Sse.onopen r) in
  Sse.is404ErrorRef r' = true ∧ Sse.scheduled r' = Sse.scheduled r
  ∧ Sse.reconnectAttemptsRef r' = 0.
Proof. done. Qed.

End SseFacts.

(** C5, at the failing input.  The effect runs for diagram "d1", the
    channel opens, and the channel closes: no reconnect timer is started,
    the not-found flag is raised, and the hook is stuck there (a timer, if
    there were one, would not reconnect). *)
Theorem sse_close_after_open_schedules_no_retry :
  let r := Sse.run [Sse.RunEffect true (Some "d1"); Sse.Opened; Sse.Errored Sse.CLOSED] in
  Sse.scheduled r = []
  ∧ Sse.reconnectTimeoutRef r = None
  ∧ Sse.reconnectAttemptsRef r = 0
  ∧ Sse.is404ErrorRef r = true
  ∧ Sse.created r = 1%nat
  ∧ Sse.connect r = r.
Proof. cbv zeta. split_and!; reflexivity. Qed.

(* ===================================================================== *)
(** * A response of the AI service that fails validation *)
(* ===================================================================== *)

Lemma orStr_nonempty (a : option string) (b : string) :
  b ≠ "" → JS.orStr (Some (JS.orStr a b)) "Error desconocido al modificar el diagrama"
           = JS.orStr a b.
Proof.
  intros Hb. unfold JS.orStr at 1.
  destruct (String.eqb_spec (JS.orStr a b) "") as [Heq|]; [|done].
  exfalso. unfold JS.orStr in Heq. destruct a as [s|]; [|done].
  destruct (String.eqb_spec s ""); done.
Qed.

(** C9.  A response of the AI service that fails validation, received
    while the panel is in modification mode, the mode whose button starts
    the request.  [modifyExistingDiagram] returns a failure that carries
    the validation error and no diagram (the merge engine is not run), the
    request ends, the prompt is kept, and the page is left as it is, its
    classes and associations included.  The handler stores
    [response.error || response.message] in the [error] state, which is
    the validation error for each of the failing returns of the validator
    and never an empty text; but the panel does not render it: the handler
    leaves [modificationMode] on, and the red box of [error] belongs to
    the creation mode.  The text comes on screen only when the user then
    presses [Create New]. *)
Theorem modify_invalid_response_message_not_rendered `{JS.Lowering} `{Gemini.MapError}
    (validation : Gemini.Validation)
    (existingClasses : list UMLClass.t) (existingAssociations : list Association.t)
    (panel : AiPanel.State) (page : Editor.State) :
  Gemini.isValid validation = false →
  AiPanel.modificationMode panel = true →
  let response :=
    Gemini.modifyExistingDiagram existingClasses existingAssociations validation in
  let shown :=
    JS.orStr (Gemini.validationError validation)
      "Failed to generate valid modified UML diagram" in
  let out :=
    AiPanel.modifyRound validation existingClasses existingAssociations panel page in
  response
  = {| Gemini.success := false; Gemini.diagram := None;
       Gemini.message := "Failed to generate valid modified UML diagram";
       Gemini.error := Gemini.validationError validation |}
  ∧ out
    = ({| AiPanel.isChatMode := AiPanel.isChatMode panel;
          AiPanel.modificationPrompt := AiPanel.modificationPrompt panel;
          AiPanel.modificationMode := true;
          AiPanel.error := Some shown;
          AiPanel.isModifying := false |}, page)
  ∧ (∀ e, Gemini.validationError validation = Some e → e ≠ "" → shown = e)
  ∧ (∀ f, validation = Gemini.failed f → shown = Gemini.failureText f)
  ∧ shown ≠ ""
  ∧ AiPanel.errorBox out.1 = None
  ∧ (AiPanel.isChatMode panel = false →
     AiPanel.errorBox (AiPanel.setModificationMode false out.1) = Some shown).
Proof.
  intros Hinvalid Hmode. cbv zeta.
  assert (Gemini.modifyExistingDiagram existingClasses existingAssociations validation
          = {| Gemini.success := false; Gemini.diagram := None;
               Gemini.message := "Failed to generate valid modified UML diagram";
               Gemini.error := Gemini.validationError validation |}) as Hresp
    by (unfold Gemini.modifyExistingDiagram; by rewrite Hinvalid).
  assert (JS.orStr (Gemini.validationError validation)
            "Failed to generate valid modified UML diagram" ≠ "") as Hshown.
  { unfold JS.orStr. destruct (Gemini.validationError validation) as [e|]; [|done].
    by destruct (String.eqb_spec e ""). }
  assert (AiPanel.modifyRound validation existingClasses existingAssociations panel page
          = ({| AiPanel.isChatMode := AiPanel.isChatMode panel;
                AiPanel.modificationPrompt := AiPanel.modificationPrompt panel;
                AiPanel.modificationMode := true;
                AiPanel.error :=
                  Some (JS.orStr (Gemini.validationError validation)
                          "Failed to generate valid modified UML diagram");
                AiPanel.isModifying := false |}, page)) as Hout.
  { unfold AiPanel.modifyRound. rewrite Hresp.
    unfold AiPanel.handleModifyDiagram, AiPanel.errorMsg. cbn [Gemini.success Gemini.diagram
      Gemini.error Gemini.message].
    by rewrite orStr_nonempty, Hmode. }
  split_and!.
  - exact Hresp.
  - exact Hout.
  - intros e -> He. unfold JS.orStr. by destruct (String.eqb_spec e "").
  - intros f ->. by destruct f.
  - exact Hshown.
  - rewrite Hout. unfold AiPanel.errorBox. simpl. by destruct (AiPanel.isChatMode panel).
  - intros Hchat. rewrite Hout. unfold AiPanel.errorBox, AiPanel.setModificationMode.
    simpl. rewrite Hchat.
    by destruct (String.eqb_spec (JS.orStr (Gemini.validationError validation)
                   "Failed to generate valid modified UML diagram") "").
Qed.

Section modify_invalid_response_examples.
#[local] Existing Instance Sample.lowering.
#[local] Existing Instance Sample.mapOfUndefined.

(** The validator has refused the answer for a class without [id]; the
    user has stayed in modification mode. *)
Lemma modify_invalid_response_message_not_rendered_witness :
  let validation :=
    Gemini.failed
      (Gemini.ClassesInvalid "Class at index 0 missing required field 'id' (string)") in
  let panel :=
    {| AiPanel.isChatMode := false;
       AiPanel.modificationPrompt := "rename User to Customer";
       AiPanel.modificationMode := true; AiPanel.error := None;
       AiPanel.isModifying := true |} in
  let out :=
    AiPanel.modifyRound validation (Editor.classes Sample.pageAB)
      (Editor.associations Sample.pageAB) panel Sample.pageAB in
  out
  = ({| AiPanel.isChatMode := false;
        AiPanel.modificationPrompt := "rename User to Customer";
        AiPanel.modificationMode := true;
        AiPanel.error :=
          Some "Classes validation failed: Class at index 0 missing required field 'id' (string)";
        AiPanel.isModifying := false |}, Sample.pageAB)
  ∧ AiPanel.errorBox out.1 = None
  ∧ AiPanel.errorBox (AiPanel.setModificationMode false out.1)
    = Some "Classes validation failed: Class at index 0 missing required field 'id' (string)".
Proof.
  cbv zeta.
  pose proof (modify_invalid_response_message_not_rendered
           (Gemini.failed
              (Gemini.ClassesInvalid "Class at index 0 missing required field 'id' (string)"))
           (Editor.classes Sample.pageAB) (Editor.associations Sample.pageAB)
           {| AiPanel.isChatMode := false;
              AiPanel.modificationPrompt := "rename User to Customer";
              AiPanel.modificationMode := true; AiPanel.error := None;
              AiPanel.isModifying := true |}
           Sample.pageAB eq_refl eq_refl) as (_ & Hout & _ & _ & _ & Hbox & Hswitch).
  split_and!; [exact Hout | exact Hbox | exact (Hswitch eq_refl)].
Defined.

(** A valid response, for comparison: the merged diagram replaces the
    classes and associations of the page. *)
Example modify_valid_response :
  let validation :=
    {| Gemini.isValid := true;
       Gemini.validatedDiagram :=
         Some {| Gemini.jsonClasses := [Sample.cls "A" "Account"];
                 Gemini.jsonAssociations := Some [] |};
       Gemini.validationError := None |} in
  let panel :=
    {| AiPanel.isChatMode := false;
       AiPanel.modificationPrompt := "rename A"; AiPanel.modificationMode := true;
       AiPanel.error := None; AiPanel.isModifying := true |} in
  Editor.classes
    (AiPanel.modifyRound validation (Editor.classes Sample.pageAB)
       (Editor.associations Sample.pageAB) panel Sample.pageAB).2
  = [Sample.cls "A" "Account"; Sample.cls "B" "B"]
  ∧ Gemini.message
      (Gemini.modifyExistingDiagram (Editor.classes Sample.pageAB)
         (Editor.associations Sample.pageAB) validation)
    = "Successfully modified diagram: 2 classes and 1 associations".
Proof. cbv zeta. split; reflexivity. Qed.

End modify_invalid_response_examples.

(* ===================================================================== *)
(** * The other handlers of the editor page *)
(* ===================================================================== *)

Section PageFacts.
Implicit Types (st : Editor.State).

Lemma state_eta st :
  {| Editor.classes := Editor.classes st; Editor.associations := Editor.associations st;
     Editor.selectedClass := Editor.selectedClass st;
     Editor.isDraggingRef := Editor.isDraggingRef st;
     Editor.dragTimeoutRef := Editor.dragTimeoutRef st;
     Editor.timers := Editor.timers st; Editor.nextHandle := Editor.nextHandle st |} = st.
Proof. by destruct st. Qed.

Lemma setClasses_fix f st :
  f (Editor.classes st) = Editor.classes st → Editor.setClasses f st = st.
Proof. intros Hf. unfold Editor.setClasses. rewrite Hf. apply state_eta. Qed.

Lemma setAssociations_fix f st :
  f (Editor.associations st) = Editor.associations st → Editor.setAssociations f st = st.
Proof. intros Hf. unfold Editor.setAssociations. rewrite Hf. apply state_eta. Qed.

Lemma existsb_same_id {A : Type} `{HasId A} (k : string) (l : list A) :
  existsb (λ e, bool_decide (entityId e = k)) l = bool_decide (k ∈ ids l).
Proof.
  induction l as [|a l IH].
  - symmetry. apply bool_decide_eq_false_2, not_elem_of_nil.
  - cbn [existsb]. rewrite IH, fmap_cons.
    destruct (decide (entityId a = k)) as [Heq|Hne].
    + rewrite (bool_decide_eq_true_2 _ Heq). symmetry.
      apply bool_decide_eq_true_2. rewrite <-Heq. left.
    + rewrite (bool_decide_eq_false_2 _ Hne). apply bool_decide_ext.
      rewrite elem_of_cons. split; [by right | by intros [?|?]].
Qed.

Lemma NoDup_ids_snoc {A : Type} `{HasId A} (l : list A) (a : A) :
  NoDup (ids l) → entityId a ∉ ids l → NoDup (ids (l ++ [a])).
Proof.
  intros Hnd Hn. rewrite fmap_app. apply NoDup_app. split_and!; [done| |apply NoDup_singleton].
  intros k Hk Hk'. apply list_elem_of_singleton in Hk'. by subst.
Qed.

End PageFacts.

(** X1.  [addClass] and [addAssociation]: an entity whose id is already on
    the page is ignored and the page stays as it is; an entity with a new id
    goes to the end of its list; either way a list without repeated ids
    stays without repeated ids, and the other list is not touched. *)
Theorem add_skips_known_id (newClass : UMLClass.t) (association : Association.t)
    (st : Editor.State) :
  (UMLClass.id newClass ∈ ids (Editor.classes st) → Page.addClass newClass st = st)
  ∧ (UMLClass.id newClass ∉ ids (Editor.classes st) →
       Editor.classes (Page.addClass newClass st) = Editor.classes st ++ [newClass])
  ∧ (NoDup (ids (Editor.classes st)) →
       NoDup (ids (Editor.classes (Page.addClass newClass st))))
  ∧ Editor.associations (Page.addClass newClass st) = Editor.associations st
  ∧ (Association.id association ∈ ids (Editor.associations st) →
       Page.addAssociation association st = st)
  ∧ (Association.id association ∉ ids (Editor.associations st) →
       Editor.associations (Page.addAssociation association st)
       = Editor.associations st ++ [association])
  ∧ (NoDup (ids (Editor.associations st)) →
       NoDup (ids (Editor.associations (Page.addAssociation association st))))
  ∧ Editor.classes (Page.addAssociation association st) = Editor.classes st.
Proof.
  unfold Page.addClass, Page.addAssociation, Editor.setClasses, Editor.setAssociations.
  cbn [Editor.classes Editor.associations].
  rewrite (existsb_same_id (H := UMLClass.id)), (existsb_same_id (H := Association.id)).
  split_and!.
  - intros Hin. rewrite (bool_decide_eq_true_2 _ Hin). apply state_eta.
  - intros Hn. by rewrite (bool_decide_eq_false_2 _ Hn).
  - intros Hnd. case_bool_decide; [done|]. by apply NoDup_ids_snoc.
  - done.
  - intros Hin. rewrite (bool_decide_eq_true_2 _ Hin). apply state_eta.
  - intros Hn. by rewrite (bool_decide_eq_false_2 _ Hn).
  - intros Hnd. case_bool_decide; [done|]. by apply NoDup_ids_snoc.
  - done.
Qed.

Lemma add_skips_known_id_witness :
  Page.addClass (Sample.cls "A" "Again") Sample.pageAB = Sample.pageAB
  ∧ Editor.classes (Page.addClass (Sample.cls "C" "C") Sample.pageAB)
    = [Sample.cls "A" "A"; Sample.cls "B" "B"; Sample.cls "C" "C"].
Proof.
  split.
  - apply (proj1 (add_skips_known_id (Sample.cls "A" "Again")
                    (Sample.link "ab" "A" "B") Sample.pageAB)).
    compute_done.
  - apply (proj1 (proj2 (add_skips_known_id (Sample.cls "C" "C")
                           (Sample.link "ab" "A" "B") Sample.pageAB))).
    compute_done.
Defined.

Section AppendUnknown.
Context {A : Type} `{HasId A}.
Implicit Types (l new : list A).

Lemma filter_unknown_set l new :
  filter (λ e, entityId e ∉ (list_to_set (map entityId l) : gset string)) new
  = filter (λ e, entityId e ∉ ids l) new.
Proof.
  apply list_filter_iff. intros e. rewrite elem_of_list_to_set. done.
Qed.

Lemma filter_unknown_again l l' new :
  l' = l ++ filter (λ e, entityId e ∉ ids l) new →
  filter (λ e, entityId e ∉ ids l') new = [].
Proof.
  intros ->. apply filter_none. intros e He Hn. apply Hn.
  rewrite fmap_app, elem_of_app.
  destruct (decide (entityId e ∈ ids l)) as [Hin|Hout]; [by left|right].
  apply list_elem_of_fmap. exists e. split; [done|]. by apply list_elem_of_filter.
Qed.

Lemma NoDup_ids_filter (P : A → Prop) `{!∀ x, Decision (P x)} l :
  NoDup (ids l) → NoDup (ids (filter P l)).
Proof.
  intros Hnd. eapply sublist_NoDup; [exact Hnd|]. apply fmap_sublist, sublist_filter.
Qed.

Lemma NoDup_ids_append_unknown l new :
  NoDup (ids l) → NoDup (ids new) →
  NoDup (ids (l ++ filter (λ e, entityId e ∉ ids l) new)).
Proof.
  intros Hl Hnew. rewrite fmap_app. apply NoDup_app. split_and!.
  - done.
  - intros k Hk Hk'. apply list_elem_of_fmap in Hk' as (e & -> & He).
    apply list_elem_of_filter in He as [Hn _]. done.
  - by apply NoDup_ids_filter.
Qed.

End AppendUnknown.

(** X2.  [handleGenerateClasses] and [handleGenerateAssociations]: the
    entities already on the page stay, in place and unchanged; of the
    generated ones exactly those whose id is not yet on the page are
    appended, in their order; applying the same generation a second time
    adds nothing; and two lists without repeated ids give a list without
    repeated ids. *)
Theorem generate_appends_unknown_ids (newClasses : list UMLClass.t)
    (newAssociations : list Association.t) (st : Editor.State) :
  let st1 := Editor.handleGenerateClasses newClasses st in
  let st2 := Editor.handleGenerateAssociations newAssociations st in
  (Editor.classes st1
   = Editor.classes st
     ++ filter (λ c, UMLClass.id c ∉ ids (Editor.classes st)) newClasses)
  ∧ Editor.associations st1 = Editor.associations st
  ∧ Editor.handleGenerateClasses newClasses st1 = st1
  ∧ (NoDup (ids (Editor.classes st)) → NoDup (ids newClasses) →
       NoDup (ids (Editor.classes st1)))
  ∧ (Editor.associations st2
     = Editor.associations st
       ++ filter (λ a, Association.id a ∉ ids (Editor.associations st)) newAssociations)
  ∧ Editor.classes st2 = Editor.classes st
  ∧ Editor.handleGenerateAssociations newAssociations st2 = st2
  ∧ (NoDup (ids (Editor.associations st)) → NoDup (ids newAssociations) →
       NoDup (ids (Editor.associations st2))).
Proof.
  cbv zeta.
  assert (∀ s, Editor.classes (Editor.handleGenerateClasses newClasses s)
               = Editor.classes s
                 ++ filter (λ c, UMLClass.id c ∉ ids (Editor.classes s)) newClasses) as Hc.
  { intros s. unfold Editor.handleGenerateClasses. simpl.
    by rewrite (filter_unknown_set (H := UMLClass.id)). }
  assert (∀ s, Editor.associations (Editor.handleGenerateAssociations newAssociations s)
               = Editor.associations s
                 ++ filter (λ a, Association.id a ∉ ids (Editor.associations s))
                      newAssociations) as Ha.
  { intros s. unfold Editor.handleGenerateAssociations. simpl.
    by rewrite (filter_unknown_set (H := Association.id)). }
  split_and!.
  - apply Hc.
  - done.
  - apply setClasses_fix. etrans; [apply (Hc (Editor.handleGenerateClasses newClasses st))|].
    etrans; [|apply app_nil_r]. f_equal.
    apply (filter_unknown_again (Editor.classes st)), Hc.
  - intros Hl Hn. rewrite Hc. by apply (NoDup_ids_append_unknown (H := UMLClass.id)).
  - apply Ha.
  - done.
  - apply setAssociations_fix.
    etrans; [apply (Ha (Editor.handleGenerateAssociations newAssociations st))|].
    etrans; [|apply app_nil_r]. f_equal.
    apply (filter_unknown_again (Editor.associations st)), Ha.
  - intros Hl Hn. rewrite Ha. by apply (NoDup_ids_append_unknown (H := Association.id)).
Qed.

Lemma generate_appends_unknown_ids_witness :
  Editor.classes
    (Editor.handleGenerateClasses [Sample.cls "B" "Other"; Sample.cls "C" "C"] Sample.pageAB)
  = [Sample.cls "A" "A"; Sample.cls "B" "B"; Sample.cls "C" "C"]
  ∧ NoDup (ids (Editor.classes
       (Editor.handleGenerateClasses [Sample.cls "B" "Other"; Sample.cls "C" "C"]
          Sample.pageAB))).
Proof.
  split; [reflexivity|].
  apply (proj1 (proj2 (proj2 (proj2
           (generate_appends_unknown_ids [Sample.cls "B" "Other"; Sample.cls "C" "C"] []
              Sample.pageAB)))));
    compute_done.
Defined.

Section PageLists.
Implicit Types (st : Editor.State) (a u : Association.t).

Lemma replace_by_id_ids u (l : list Association.t) :
  ids (map (λ a, if bool_decide (Association.id a = Association.id u) then u else a) l)
  = ids l.
Proof.
  induction l as [|a l IH]; [done|].
  cbn [map]. rewrite !fmap_cons. f_equal; [|apply IH].
  unfold entityId. by case_bool_decide.
Qed.

Lemma replace_by_id_absent u (l : list Association.t) :
  Association.id u ∉ ids l →
  map (λ a, if bool_decide (Association.id a = Association.id u) then u else a) l = l.
Proof.
  induction l as [|a l IH]; [done|].
  rewrite fmap_cons, not_elem_of_cons. intros [Hne Hn]. cbn [map].
  rewrite bool_decide_eq_false_2 by (intros Heq; by apply Hne). f_equal. by apply IH.
Qed.

Lemma replace_by_id_others u (l : list Association.t) :
  filter (λ a, Association.id a ≠ Association.id u)
    (map (λ a, if bool_decide (Association.id a = Association.id u) then u else a) l)
  = filter (λ a, Association.id a ≠ Association.id u) l.
Proof.
  induction l as [|a l IH]; [done|]. cbn [map]. case_bool_decide as Ha.
  - rewrite filter_cons_False by (intros Hn; by apply Hn).
    rewrite filter_cons_False by (intros Hn; by apply Hn). apply IH.
  - rewrite !filter_cons_True by done. f_equal. apply IH.
Qed.

Lemma integrity_filter_classes id (cs : list UMLClass.t) (l : list Association.t) :
  Merge.endpointIntegrity cs l →
  Merge.endpointIntegrity (filter (λ c, UMLClass.id c ≠ id) cs)
    (filter (λ a, Association.fromClassId a ≠ id ∧ Association.toClassId a ≠ id) l).
Proof.
  unfold Merge.endpointIntegrity. rewrite !Forall_forall. intros Hint a Ha.
  apply list_elem_of_filter in Ha as [[Hf Ht] Ha]. destruct (Hint a Ha) as [Hfi Hti].
  split.
  - apply list_elem_of_fmap in Hfi as (c & Hc & Hin). apply list_elem_of_fmap.
    exists c. split; [done|]. apply list_elem_of_filter. split; [|done].
    intros Heq. apply Hf. rewrite Hc. exact Heq.
  - apply list_elem_of_fmap in Hti as (c & Hc & Hin). apply list_elem_of_fmap.
    exists c. split; [done|]. apply list_elem_of_filter. split; [|done].
    intros Heq. apply Ht. rewrite Hc. exact Heq.
Qed.

Lemma removeClass_lists id st :
  Editor.classes (Editor.removeClass id st)
  = filter (λ c, UMLClass.id c ≠ id) (Editor.classes st)
  ∧ Editor.associations (Editor.removeClass id st)
    = filter (λ a, Association.fromClassId a ≠ id ∧ Association.toClassId a ≠ id)
        (Editor.associations st).
Proof. unfold Editor.removeClass. by case_bool_decide. Qed.

End PageLists.

(** X3.  [updateAssociation]: the association that has the id of the
    updated one is replaced by it, in place; every other association stays
    as it is, the list of ids stays the same, and the classes are not
    touched.  When no association has that id the page stays as it is:
    the update does not add. *)
Theorem updateAssociation_replaces_in_place (updatedAssociation : Association.t)
    (st : Editor.State) :
  let st' := Page.updateAssociation updatedAssociation st in
  ids (Editor.associations st') = ids (Editor.associations st)
  ∧ (∀ a, a ∈ Editor.associations st' →
          Association.id a = Association.id updatedAssociation → a = updatedAssociation)
  ∧ (Association.id updatedAssociation ∈ ids (Editor.associations st) →
       updatedAssociation ∈ Editor.associations st')
  ∧ (filter (λ a, Association.id a ≠ Association.id updatedAssociation)
       (Editor.associations st')
     = filter (λ a, Association.id a ≠ Association.id updatedAssociation)
         (Editor.associations st))
  ∧ Editor.classes st' = Editor.classes st
  ∧ (Association.id updatedAssociation ∉ ids (Editor.associations st) → st' = st).
Proof.
  cbv zeta. unfold Page.updateAssociation. split_and!.
  - apply replace_by_id_ids.
  - cbn [Editor.associations Editor.setAssociations]. intros a Ha Hid.
    apply list_elem_of_fmap in Ha as (b & Hb & Hin).
    case_bool_decide; [done|]. by subst.
  - cbn [Editor.associations Editor.setAssociations].
    intros (b & Hb & Hin)%list_elem_of_fmap. apply list_elem_of_fmap.
    exists b. split; [|done]. unfold entityId in Hb. by rewrite bool_decide_eq_true_2.
  - apply replace_by_id_others.
  - done.
  - intros Hn. apply setAssociations_fix. by apply replace_by_id_absent.
Qed.

Lemma updateAssociation_replaces_in_place_witness :
  Sample.link "ab" "B" "A"
    ∈ Editor.associations (Page.updateAssociation (Sample.link "ab" "B" "A") Sample.pageAB)
  ∧ Page.updateAssociation (Sample.link "zz" "B" "A") Sample.pageAB = Sample.pageAB.
Proof.
  split.
  - apply (updateAssociation_replaces_in_place (Sample.link "ab" "B" "A") Sample.pageAB).
    compute_done.
  - apply (updateAssociation_replaces_in_place (Sample.link "zz" "B" "A") Sample.pageAB).
    compute_done.
Defined.

(** X4.  Removing keeps the diagram closed: on a page where every
    association joins classes of the page, this is still so after
    [removeClass] (which takes the associations of the class with it) and
    after [removeAssociation].  [removeAssociation] takes out every
    association with the given id and nothing else, and leaves the classes
    alone. *)
Theorem removals_keep_endpoint_integrity (id : string) (st : Editor.State) :
  Page.integral st →
  Page.integral (Editor.removeClass id st)
  ∧ Page.integral (Page.removeAssociation id st)
  ∧ (id ∉ ids (Editor.associations (Page.removeAssociation id st)))
  ∧ (∀ a, a ∈ Editor.associations st → Association.id a ≠ id →
          a ∈ Editor.associations (Page.removeAssociation id st))
  ∧ Editor.associations (Page.removeAssociation id st) `sublist_of` Editor.associations st
  ∧ Editor.classes (Page.removeAssociation id st) = Editor.classes st.
Proof.
  intros Hint. unfold Page.integral in *. split_and!.
  - destruct (removeClass_lists id st) as [-> ->]. by apply integrity_filter_classes.
  - unfold Page.removeAssociation. cbn [Editor.classes Editor.associations Editor.setAssociations].
    unfold Merge.endpointIntegrity in *. rewrite Forall_forall in *.
    intros a Ha. apply list_elem_of_filter in Ha as [_ Ha]. by apply Hint.
  - unfold Page.removeAssociation. cbn [Editor.associations Editor.setAssociations].
    intros (a & Ha & Hin)%list_elem_of_fmap. apply list_elem_of_filter in Hin as [Hne _].
    by apply Hne.
  - intros a Ha Hne. unfold Page.removeAssociation.
    cbn [Editor.associations Editor.setAssociations]. by apply list_elem_of_filter.
  - apply sublist_filter.
  - done.
Qed.

Lemma removals_keep_endpoint_integrity_witness :
  Page.integral (Editor.removeClass "B" Sample.pageAB)
  ∧ Page.integral (Page.removeAssociation "ab" Sample.pageAB).
Proof.
  assert (Page.integral Sample.pageAB) as Hint by compute_done.
  split; apply (removals_keep_endpoint_integrity _ Sample.pageAB Hint).
Defined.

Section PageInvariant.
Implicit Types (st : Editor.State) (tm : Editor.Timer) (q : list Editor.Timer).

Lemma Forall_enqueue (P : Editor.Timer → Prop) tm q :
  P tm → Forall P q → Forall P (Editor.enqueue tm q).
Proof.
  intros Htm. induction 1 as [|tm' q Htm' Hq IH]; simpl.
  - by repeat constructor.
  - destruct (Editor.due tm' <=? Editor.due tm); repeat constructor; done.
Qed.

Lemma applyClassUpdate_ids id u (prev : list UMLClass.t) :
  PartialUMLClass.id u = None → ids (Editor.applyClassUpdate id u prev) = ids prev.
Proof.
  intros Hu. unfold Editor.applyClassUpdate. destruct (find _ prev); [|done].
  induction prev as [|c prev IH]; [done|]. cbn [map]. rewrite !fmap_cons. f_equal; [|apply IH].
  case_bool_decide; [|done]. unfold entityId, Editor.spread. simpl. by rewrite Hu.
Qed.

Lemma applyClassUpdate_absent id u (prev : list UMLClass.t) :
  id ∉ ids prev → Editor.applyClassUpdate id u prev = prev.
Proof.
  intros Hn. unfold Editor.applyClassUpdate.
  destruct (find _ prev) as [c|] eqn:Hfind; [|done].
  apply find_some in Hfind as [Hin Hc]. apply bool_decide_eq_true in Hc.
  exfalso. apply Hn. apply list_elem_of_fmap. exists c. split; [done|].
  by apply list_elem_of_In.
Qed.

Lemma fire_uniqueIds st tm :
  Page.keepsId (Editor.callback tm) → Page.uniqueIds st → Page.uniqueIds (Editor.fire st tm).
Proof.
  unfold Editor.fire, Page.uniqueIds. destruct (Editor.callback tm) as [id u|]; simpl; [|done].
  intros Hu [Hc Ha]. by rewrite applyClassUpdate_ids.
Qed.

Lemma foldl_fire_uniqueIds st q :
  Forall (λ tm, Page.keepsId (Editor.callback tm)) q →
  Page.uniqueIds st → Page.uniqueIds (foldl Editor.fire st q).
Proof.
  intros Hq. revert st. induction Hq as [|tm q Htm Hq IH]; intros st Hst; simpl; [done|].
  by apply IH, fire_uniqueIds.
Qed.

Lemma advance_inv now st : Page.invariant st → Page.invariant (Editor.advance now st).
Proof.
  intros [Hu Hq]. unfold Page.invariant, Editor.advance. split.
  - apply foldl_fire_uniqueIds; [|done].
    rewrite Forall_forall in *. intros tm Htm. apply list_elem_of_filter in Htm as [_ Htm].
    by apply Hq.
  - rewrite foldl_fire_timers. simpl.
    rewrite Forall_forall in *. intros tm Htm. apply list_elem_of_filter in Htm as [_ Htm].
    by apply Hq.
Qed.

Lemma updateClass_inv now id u st :
  PartialUMLClass.id u = None → Page.invariant st →
  Page.invariant (Editor.updateClass now id u st).
Proof.
  intros Hu [Huniq Hq]. unfold Page.invariant, Editor.updateClass.
  assert (∀ q, Forall (λ tm, Page.keepsId (Editor.callback tm)) q →
               ∀ h, Forall (λ tm, Page.keepsId (Editor.callback tm))
                      (filter (λ tm, Editor.handle tm ≠ h) q)) as Hfilter.
  { intros q Hall h. rewrite Forall_forall in *. intros tm Htm.
    apply list_elem_of_filter in Htm as [_ Htm]. by apply Hall. }
  destruct (PartialUMLClass.position u); cbn.
  - destruct (Editor.dragTimeoutRef st); cbn.
    + split; [done|]. apply Forall_enqueue; [done|]. apply Hfilter. by apply Forall_enqueue.
    + split; [done|]. apply Forall_enqueue; [done|]. by apply Forall_enqueue.
  - split; [done|]. by apply Forall_enqueue.
Qed.

Lemma uniqueById_uniqueIds (cs : list UMLClass.t) (assocs : list Association.t) :
  NoDup (ids (Dedup.uniqueById cs)) ∧ NoDup (ids (Dedup.uniqueById assocs)).
Proof. rewrite !uniqueById_memoized. split; apply filterSeen_NoDup. Qed.

Lemma handle_event_inv now e st :
  Page.tame (Page.Edit e) → Page.invariant st → Page.invariant (Editor.handle_event now e st).
Proof.
  destruct e as [id u|cs assocs|id|cs assocs]; simpl; intros Ht [[Hc Ha] Hq].
  - by apply updateClass_inv.
  - unfold Editor.handleRealtimeUpdate. destruct (Editor.isDraggingRef st); simpl; [done|].
    destruct (uniqueById_uniqueIds cs assocs) as [Hc' Ha'].
    split; [|done]. unfold Page.uniqueIds. simpl.
    split; [by destruct (Editor.jsonDiffers _ _) | by destruct (Editor.jsonDiffers _ _)].
  - split.
    + unfold Page.uniqueIds. destruct (removeClass_lists id st) as [-> ->].
      split; by apply NoDup_ids_filter.
    + unfold Editor.removeClass. by case_bool_decide.
  - split; [|done]. apply uniqueById_uniqueIds.
Qed.

Lemma handle_inv now act st :
  Page.tame act → Page.invariant st → Page.invariant (Page.handle now act st).
Proof.
  destruct act as [e|c|a|a|id|cs|assocs|d]; cbn [Page.handle].
  - apply handle_event_inv.
  - intros _ [[Hc Ha] Hq]. split; [|done]. split; [|done].
    unfold Page.addClass, Editor.setClasses. cbn [Editor.classes].
    rewrite (existsb_same_id (H := UMLClass.id)).
    case_bool_decide; [done|]. by apply NoDup_ids_snoc.
  - intros _ [[Hc Ha] Hq]. split; [|done]. split; [done|].
    unfold Page.addAssociation, Editor.setAssociations. cbn [Editor.associations].
    rewrite (existsb_same_id (H := Association.id)).
    case_bool_decide; [done|]. by apply NoDup_ids_snoc.
  - intros _ [[Hc Ha] Hq]. split; [|done]. split; [done|].
    unfold Page.updateAssociation. simpl. by rewrite replace_by_id_ids.
  - intros _ [[Hc Ha] Hq]. split; [|done]. split; [done|].
    unfold Page.removeAssociation. simpl. by apply NoDup_ids_filter.
  - simpl. intros Hn [[Hc Ha] Hq]. split; [|done]. split; [|done].
    unfold Editor.handleGenerateClasses, Editor.setClasses. cbn [Editor.classes].
    rewrite (filter_unknown_set (H := UMLClass.id)).
    by apply (NoDup_ids_append_unknown (H := UMLClass.id)).
  - simpl. intros Hn [[Hc Ha] Hq]. split; [|done]. split; [done|].
    unfold Editor.handleGenerateAssociations, Editor.setAssociations.
    cbn [Editor.associations]. rewrite (filter_unknown_set (H := Association.id)).
    by apply (NoDup_ids_append_unknown (H := Association.id)).
  - intros _ [_ Hq]. split; [|done]. apply uniqueById_uniqueIds.
Qed.

Lemma run_inv st trace :
  Forall (λ ta, Page.tame ta.2) trace → Page.invariant st → Page.invariant (Page.run st trace).
Proof.
  intros Ht. revert st. induction Ht as [|ta trace Hta Ht IH]; intros st Hst; [done|].
  apply IH. unfold Page.step. by apply handle_inv, advance_inv.
Qed.

End PageInvariant.

(** X5.  No handler of the page brings in a repeated id.  Start from a page
    whose class ids and association ids are each without repetition, and
    let anything happen in any order and at any times: edits, realtime
    snapshots, removals, replacements by the AI service, additions,
    generations, loads, with the deferred updates landing in between.  As
    long as the class updates carry no [id] key and each generated list
    has no repeated id, the ids of the page stay without repetition. *)
Theorem page_run_keeps_ids_unique (st : Editor.State) (trace : list (Z * Page.Action)) :
  Page.uniqueIds st →
  Forall (λ tm, Page.keepsId (Editor.callback tm)) (Editor.timers st) →
  Forall (λ ta, Page.tame ta.2) trace →
  Page.uniqueIds (Page.run st trace).
Proof.
  intros Hu Hq Ht. by apply (run_inv st trace Ht).
Qed.

Lemma page_run_keeps_ids_unique_witness :
  Page.uniqueIds
    (Page.run Sample.pageAB
       [(0, Page.Edit (Editor.UpdateClass "A" (Sample.moveTo 10 20)));
        (5, Page.AddClass (Sample.cls "A" "Again"));
        (300, Page.GenerateClasses [Sample.cls "B" "Other"; Sample.cls "C" "C"])]).
Proof.
  apply page_run_keeps_ids_unique.
  - compute_done.
  - constructor.
  - repeat constructor; compute_done.
Defined.

(** X6.  [updateClass] changes nothing at once: the update waits in a
    timer.  On a page with no timer pending, the classes are as before
    until the timer is due, and from then on they are the old ones with the
    update spread over the class of that id.  An update for an id that is
    not on the page changes nothing at all, and an update without an [id]
    key leaves the list of ids as it was. *)
Theorem updateClass_lands_with_its_timer (now t : Z) (id : string)
    (updatedClass : PartialUMLClass.t) (st : Editor.State) :
  Editor.timers st = [] →
  Editor.dragTimeoutRef st ≠ Some (Editor.nextHandle st) →
  let st' := Editor.updateClass now id updatedClass st in
  Editor.classes st' = Editor.classes st
  ∧ (t < now → Editor.classes (Editor.advance t st') = Editor.classes st)
  ∧ (now ≤ t →
       Editor.classes (Editor.advance t st')
       = Editor.applyClassUpdate id updatedClass (Editor.classes st))
  ∧ (id ∉ ids (Editor.classes st) →
       Editor.classes (Editor.advance t st') = Editor.classes st)
  ∧ (PartialUMLClass.id updatedClass = None →
       ids (Editor.classes (Editor.advance t st')) = ids (Editor.classes st)).
Proof.
  intros Hq Href. cbv zeta.
  assert (Editor.classes (Editor.updateClass now id updatedClass st) = Editor.classes st
          ∧ (t < now →
             Editor.classes (Editor.advance t (Editor.updateClass now id updatedClass st))
             = Editor.classes st)
          ∧ (now ≤ t →
             Editor.classes (Editor.advance t (Editor.updateClass now id updatedClass st))
             = Editor.applyClassUpdate id updatedClass (Editor.classes st)))
    as (Hnow & Hearly & Hlate).
  { unfold Editor.updateClass, Editor.advance.
    destruct st as [cs assocs sel flag ref q next]. cbn in Hq, Href. subst q.
    destruct (PartialUMLClass.position updatedClass) as [p|]; cbn.
    - assert ((now + 0 <=? now + 200) = true) as Hord by (apply Z.leb_le; lia).
      destruct ref as [h|]; cbn;
        [rewrite (decide_True (P := (next ≠ h))) by congruence; cbn|];
        rewrite Hord; cbn.
      + split_and!; [done|intros Hlt|intros Hle];
          rewrite ?filter_cons, ?filter_nil; cbn; repeat case_decide; try lia; done.
      + split_and!; [done|intros Hlt|intros Hle];
          rewrite ?filter_cons, ?filter_nil; cbn; repeat case_decide; try lia; done.
    - split_and!; [done|intros Hlt|intros Hle];
        rewrite ?filter_cons, ?filter_nil; cbn; repeat case_decide; try lia; done. }
  split_and!; [done|done|done| |].
  - intros Hn. destruct (decide (now ≤ t)).
    + rewrite Hlate by done. by apply applyClassUpdate_absent.
    + apply Hearly. lia.
  - intros Hu. destruct (decide (now ≤ t)).
    + rewrite Hlate by done. by apply applyClassUpdate_ids.
    + rewrite Hearly by lia. done.
Qed.

Lemma updateClass_lands_with_its_timer_witness :
  Editor.classes
    (Editor.advance 7 (Editor.updateClass 7 "A" (Sample.moveTo 10 20) Sample.pageAB))
  = [Sample.placed "A" "A" 10 20; Sample.cls "B" "B"].
Proof.
  refine (eq_trans
            (proj1 (proj2 (proj2
               (updateClass_lands_with_its_timer 7 7 "A" (Sample.moveTo 10 20)
                  Sample.pageAB _ _))) _) _).
  - reflexivity.
  - discriminate.
  - lia.
  - reflexivity.
Defined.

(** X7.  A realtime snapshot that brings nothing new changes nothing: when
    the page already shows the snapshot (without its repeated ids),
    [handleRealtimeUpdate] returns the very same state, so handling the
    same snapshot twice is the same as handling it once.  Whatever the
    snapshot, the selection, the drag flag and the timers are left alone. *)
Theorem realtime_same_snapshot_is_noop (newClasses : list UMLClass.t)
    (newAssociations : list Association.t) (st : Editor.State) :
  let st' := Editor.handleRealtimeUpdate newClasses newAssociations st in
  (Editor.classes st = Dedup.uniqueById newClasses →
   Editor.associations st = Dedup.uniqueById newAssociations → st' = st)
  ∧ Editor.handleRealtimeUpdate newClasses newAssociations st' = st'
  ∧ Editor.selectedClass st' = Editor.selectedClass st
  ∧ Editor.isDraggingRef st' = Editor.isDraggingRef st
  ∧ Editor.dragTimeoutRef st' = Editor.dragTimeoutRef st
  ∧ Editor.timers st' = Editor.timers st.
Proof.
  cbv zeta.
  assert (∀ s, Editor.classes s = Dedup.uniqueById newClasses →
               Editor.associations s = Dedup.uniqueById newAssociations →
               Editor.handleRealtimeUpdate newClasses newAssociations s = s) as Hfix.
  { intros s Hc Ha. unfold Editor.handleRealtimeUpdate, Editor.jsonDiffers.
    destruct (Editor.isDraggingRef s); cbn [negb]; [done|].
    rewrite setAssociations_fix.
    - apply setClasses_fix. case_bool_decide; simpl; congruence.
    - cbn [Editor.associations Editor.setClasses]. case_bool_decide; simpl; congruence. }
  split_and!.
  - apply Hfix.
  - destruct (Editor.isDraggingRef st) eqn:Hd.
    + unfold Editor.handleRealtimeUpdate. rewrite Hd. cbn [negb].
      unfold Editor.handleRealtimeUpdate. by rewrite Hd.
    + destruct (handleRealtimeUpdate_applied newClasses newAssociations st Hd) as [Hc Ha].
      by apply Hfix.
  - unfold Editor.handleRealtimeUpdate. destruct (Editor.isDraggingRef st) eqn:Hd; cbn; congruence.
  - unfold Editor.handleRealtimeUpdate. destruct (Editor.isDraggingRef st) eqn:Hd; cbn; congruence.
  - unfold Editor.handleRealtimeUpdate. destruct (Editor.isDraggingRef st) eqn:Hd; cbn; congruence.
  - unfold Editor.handleRealtimeUpdate. destruct (Editor.isDraggingRef st) eqn:Hd; cbn; congruence.
Qed.

Lemma realtime_same_snapshot_is_noop_witness :
  Editor.handleRealtimeUpdate
    [Sample.cls "A" "A"; Sample.cls "B" "B"; Sample.cls "A" "Again"]
    [Sample.link "ab" "A" "B"] Sample.pageAB
  = Sample.pageAB.
Proof.
  apply (realtime_same_snapshot_is_noop
           [Sample.cls "A" "A"; Sample.cls "B" "B"; Sample.cls "A" "Again"]
           [Sample.link "ab" "A" "B"] Sample.pageAB); reflexivity.
Defined.

(* ===================================================================== *)
(** * More on the merge engine *)
(* ===================================================================== *)

Section MergeOrigin.
Context `{JS.Lowering}.
Variable existing : list UMLClass.t.
Implicit Types (st : Merge.ClassLoop) (c Q E : UMLClass.t).

(** Where a merged class comes from: it is a proposed class pushed as it
    is, or a proposed class that took over an existing one. *)
Lemma classStep_origin st Q c :
  Merge.loopInv existing st → c ∈ Merge.mergedClasses (Merge.classStep st Q) →
  c ∈ Merge.mergedClasses st
  ∨ c = Q
  ∨ ∃ E, E ∈ existing ∧ c = Merge.absorbed E Q
         ∧ (UMLClass.id Q = UMLClass.id E ∨ lname Q = lname E).
Proof.
  intros Hinv. unfold Merge.classStep.
  destruct (JsMap.get (UMLClass.id Q) (Merge.existingClassById st)) as [idMatch|] eqn:Hid;
    [|destruct (JsMap.get (lname Q) (Merge.existingClassByName st)) as [nameMatch|] eqn:Hname];
    simpl; rewrite elem_of_app, list_elem_of_singleton; intros [Hin| ->]; auto.
  - destruct (byId_get existing st _ _ Hinv Hid) as [Hk HE].
    right. right. exists idMatch. split_and!; [done| |by left].
    unfold Merge.absorbed. by rewrite Hk.
  - destruct (byName_get existing st _ _ Hinv Hname) as [Hk HE].
    right. right. exists nameMatch. split_and!; [done|done|by right].
Qed.

Lemma classLoop_origin st ais c :
  Merge.loopInv existing st → c ∈ Merge.mergedClasses (foldl Merge.classStep st ais) →
  c ∈ Merge.mergedClasses st
  ∨ ∃ Q, Q ∈ ais
         ∧ (c = Q
            ∨ ∃ E, E ∈ existing ∧ c = Merge.absorbed E Q
                   ∧ (UMLClass.id Q = UMLClass.id E ∨ lname Q = lname E)).
Proof.
  revert st. induction ais as [|Q ais IH]; intros st Hinv Hc; simpl in Hc; [by left|].
  destruct (IH _ (loopInv_step existing st Q Hinv) Hc) as [Hin|(Q' & HQ' & Hor)].
  - destruct (classStep_origin st Q c Hinv Hin) as [?|Hor]; [by left|].
    right. exists Q. split; [left|done].
  - right. exists Q'. split; [by right|done].
Qed.

Lemma mergedClassList_origin ais c :
  c ∈ Merge.mergedClassList existing ais →
  c ∈ existing
  ∨ ∃ Q, Q ∈ ais
         ∧ (c = Q
            ∨ ∃ E, E ∈ existing ∧ c = Merge.absorbed E Q
                   ∧ (UMLClass.id Q = UMLClass.id E ∨ lname Q = lname E)).
Proof.
  unfold Merge.mergedClassList. cbv zeta. rewrite elem_of_app. intros [Hc|Hc].
  - destruct (classLoop_origin _ ais c (loopInv_init existing) Hc) as [Hnil|?]; [|by right].
    by apply elem_of_nil in Hnil.
  - left. unfold JsMap.values in Hc. apply list_elem_of_fmap in Hc as ([k v] & -> & Hin).
    pose proof (loopInv_foldl existing _ ais (loopInv_init existing)) as Hinv.
    by destruct (byId_entry existing _ _ _ Hinv Hin).
Qed.

Lemma mergedClassList_id_origin ais k :
  k ∈ ids (Merge.mergedClassList existing ais) → k ∈ ids existing ∨ k ∈ ids ais.
Proof.
  intros (c & -> & Hc)%list_elem_of_fmap.
  destruct (mergedClassList_origin ais c Hc) as [Hin|(Q & HQ & [->|(E & HE & -> & _)])].
  - left. apply list_elem_of_fmap. by exists c.
  - right. apply list_elem_of_fmap. by exists Q.
  - left. apply list_elem_of_fmap. by exists E.
Qed.

End MergeOrigin.

Section AssocIds.
Variable existing : list Association.t.
Implicit Types (st : Merge.AssocLoop) (a : Association.t).

Lemma assocInit_byId :
  Merge.existingAssocById (Merge.assocInit existing) = @Dedup.indexed _ Association.id existing.
Proof. apply ofEntries_keyed. Qed.

Lemma assoc_byId_NoDup st :
  AssocInv.keyed existing st → NoDup (JsMap.keys (Merge.existingAssocById st)).
Proof.
  intros Hk. unfold JsMap.keys. eapply sublist_NoDup; [|by apply fmap_sublist].
  rewrite assocInit_byId. apply (@indexed_keys_NoDup _ Association.id).
Qed.

Lemma assoc_byId_entry st k v :
  AssocInv.keyed existing st → (k, v) ∈ Merge.existingAssocById st →
  Association.id v = k ∧ v ∈ existing.
Proof.
  intros Hk Hin. eapply elem_of_sublist in Hin; [|exact Hk].
  rewrite assocInit_byId in Hin. by apply (@indexed_entry _ Association.id) in Hin.
Qed.

Lemma assocStep_keyed st a :
  AssocInv.keyed existing st → AssocInv.keyed existing (Merge.assocStep st a).
Proof.
  intros Hk. unfold AssocInv.keyed, Merge.assocStep.
  destruct (JsMap.get _ (Merge.existingAssocById st)); simpl; [|done].
  etrans; [apply delete_sublist|done].
Qed.

Lemma assocLoop_keyed st ais :
  AssocInv.keyed existing st → AssocInv.keyed existing (foldl Merge.assocStep st ais).
Proof.
  revert st. induction ais as [|a ais IH]; intros st Hk; simpl; [done|].
  by apply IH, assocStep_keyed.
Qed.

Lemma assocStep_known st a k :
  AssocInv.keyed existing st →
  AssocInv.known (Merge.assocStep st a) k ↔ AssocInv.known st k ∨ k = Association.id a.
Proof.
  intros Hk. unfold AssocInv.known, Merge.assocStep.
  destruct (JsMap.get (Association.id a) (Merge.existingAssocById st)) as [e|] eqn:Hget; simpl;
    rewrite fmap_app, elem_of_app; cbn [fmap list_fmap]; rewrite list_elem_of_singleton.
  - rewrite (keys_delete _ _ _ (assoc_byId_NoDup st Hk)).
    destruct (decide (k = Association.id a)) as [->|Hne]; [|naive_solver].
    split; [by right|]. intros _. left. right. done.
  - unfold entityId. naive_solver.
Qed.

Lemma assocLoop_known st ais k :
  AssocInv.keyed existing st →
  AssocInv.known (foldl Merge.assocStep st ais) k ↔ AssocInv.known st k ∨ k ∈ ids ais.
Proof.
  revert st. induction ais as [|a ais IH]; intros st Hk; simpl.
  - rewrite elem_of_nil. naive_solver.
  - rewrite (IH _ (assocStep_keyed st a Hk)), (assocStep_known st a k Hk), elem_of_cons.
    unfold entityId. naive_solver.
Qed.

Lemma mergedAssocList_ids ais k :
  k ∈ ids (Merge.mergedAssocList existing ais) ↔ k ∈ ids existing ∨ k ∈ ids ais.
Proof.
  unfold Merge.mergedAssocList. cbv zeta.
  set (st := foldl Merge.assocStep (Merge.assocInit existing) ais).
  assert (AssocInv.keyed existing st) as Hk
    by (apply assocLoop_keyed; unfold AssocInv.keyed; reflexivity).
  assert (ids (JsMap.values (Merge.existingAssocById st))
          = JsMap.keys (Merge.existingAssocById st)) as Hvals.
  { unfold JsMap.values, JsMap.keys. rewrite <-list_fmap_compose.
    apply list_fmap_ext. intros i [k' v] Hin%list_elem_of_lookup_2. simpl.
    by destruct (assoc_byId_entry st k' v Hk Hin). }
  rewrite fmap_app, elem_of_app, Hvals.
  change (AssocInv.known st k ↔ k ∈ ids existing ∨ k ∈ ids ais).
  unfold st. rewrite assocLoop_known by (unfold AssocInv.keyed; reflexivity).
  unfold AssocInv.known.
  rewrite assocInit_byId, (indexed_keys_elem (H := Association.id)).
  change (ids (Merge.mergedAssociations (Merge.assocInit existing))) with (@nil string).
  rewrite elem_of_nil. naive_solver.
Qed.

End AssocIds.

(** X8.  The merge never loses an id and never repeats one.  Whatever the
    two diagrams are, the merged classes have pairwise different ids and so
    have the merged associations; every id of an existing class is the id
    of a merged class; every id of a merged class is the id of an existing
    or of a proposed class; and the ids of the merged associations are
    exactly the ids of the existing and of the proposed associations. *)
Theorem merge_keeps_every_id `{JS.Lowering}
    (existingClasses : list UMLClass.t) (existingAssociations : list Association.t)
    (aiClasses : list UMLClass.t) (aiAssociations : list Association.t) :
  let r := Merge.mergeDiagramModifications existingClasses existingAssociations
             aiClasses aiAssociations in
  NoDup (ids (Merge.resultClasses r))
  ∧ NoDup (ids (Merge.resultAssociations r))
  ∧ (∀ k, k ∈ ids existingClasses → k ∈ ids (Merge.resultClasses r))
  ∧ (∀ k, k ∈ ids (Merge.resultClasses r) → k ∈ ids existingClasses ∨ k ∈ ids aiClasses)
  ∧ (∀ k, k ∈ ids (Merge.resultAssociations r)
          ↔ k ∈ ids existingAssociations ∨ k ∈ ids aiAssociations).
Proof.
  cbv zeta. simpl. unfold Merge.finalClasses, Merge.finalAssociations. split_and!.
  - rewrite viaMap_ids. apply filterSeen_NoDup.
  - rewrite viaMap_ids. apply filterSeen_NoDup.
  - intros k Hk. rewrite viaMap_ids_elem. by apply existing_ids_survive.
  - intros k Hk. rewrite viaMap_ids_elem in Hk. by apply mergedClassList_id_origin in Hk.
  - intros k. rewrite viaMap_ids_elem. apply mergedAssocList_ids.
Qed.

Section merge_keeps_every_id_examples.
#[local] Existing Instance Sample.lowering.

Lemma merge_keeps_every_id_witness :
  "A" ∈ ids (Merge.resultClasses
               (Merge.mergeDiagramModifications (Editor.classes Sample.pageAB)
                  (Editor.associations Sample.pageAB) [Sample.cls "C" "a"] [])).
Proof.
  apply (proj1 (proj2 (proj2
           (merge_keeps_every_id (Editor.classes Sample.pageAB)
              (Editor.associations Sample.pageAB) [Sample.cls "C" "a"] [])))).
  compute_done.
Defined.

End merge_keeps_every_id_examples.

Section ListLast.
Context {A : Type}.

Lemma last_filter_only (P : A → Prop) `{!∀ x, Decision (P x)} (l : list A) (e : A) :
  (∀ c, c ∈ l → P c → c = e) → e ∈ l → P e → last (filter P l) = Some e.
Proof.
  intros Honly He HPe. destruct (last (filter P l)) as [x|] eqn:Hlast.
  - apply last_Some_elem_of, list_elem_of_filter in Hlast as [HPx Hx].
    f_equal. by apply Honly.
  - apply last_None in Hlast.
    assert (e ∈ filter P l) as Hin by (by apply list_elem_of_filter).
    rewrite Hlast in Hin. by apply elem_of_nil in Hin.
Qed.

End ListLast.

Section ClassKept.
Context `{JS.Lowering}.
Variables (existing : list UMLClass.t) (E : UMLClass.t).
Hypothesis E_existing : E ∈ existing.
Hypothesis E_only : ∀ X, X ∈ existing → UMLClass.id X = UMLClass.id E → X = E.
Implicit Types (st : Merge.ClassLoop) (Q P : UMLClass.t).

Lemma byId_init_E :
  JsMap.get (UMLClass.id E) (Merge.existingClassById (Merge.classInit existing)) = Some E.
Proof.
  rewrite classInit_byId, (indexed_get (H := UMLClass.id)).
  apply last_filter_only; [|done|done]. intros c Hc Hid. by apply E_only.
Qed.

(** A step for a class that has neither [E]'s id nor [E]'s name pushes
    nothing under [E]'s id and leaves [E]'s entry of [existingClassById]
    alone. *)
Lemma classStep_unrelated st Q :
  Merge.loopInv existing st → Merge.unrelated E Q →
  filter (λ c, UMLClass.id c = UMLClass.id E) (Merge.mergedClasses (Merge.classStep st Q))
  = filter (λ c, UMLClass.id c = UMLClass.id E) (Merge.mergedClasses st)
  ∧ JsMap.get (UMLClass.id E) (Merge.existingClassById (Merge.classStep st Q))
    = JsMap.get (UMLClass.id E) (Merge.existingClassById st).
Proof.
  intros Hinv [Hid Hname]. unfold Merge.classStep.
  destruct (JsMap.get (UMLClass.id Q) (Merge.existingClassById st)) as [X|] eqn:HX;
    [|destruct (JsMap.get (lname Q) (Merge.existingClassByName st)) as [X|] eqn:HX'];
    simpl; rewrite filter_app.
  - rewrite filter_cons_False, filter_nil, app_nil_r by done.
    by rewrite get_delete_ne.
  - destruct (byName_get existing st _ _ Hinv HX') as [HnX HinX].
    assert (UMLClass.id X ≠ UMLClass.id E) as Hne.
    { intros Heq. apply Hname. rewrite <-HnX. f_equal. f_equal. by apply E_only. }
    rewrite filter_cons_False, filter_nil, app_nil_r by done.
    by rewrite get_delete_ne.
  - by rewrite filter_cons_False, filter_nil, app_nil_r.
Qed.

Lemma classLoop_unrelated st l :
  Merge.loopInv existing st → Forall (Merge.unrelated E) l →
  filter (λ c, UMLClass.id c = UMLClass.id E)
    (Merge.mergedClasses (foldl Merge.classStep st l))
  = filter (λ c, UMLClass.id c = UMLClass.id E) (Merge.mergedClasses st)
  ∧ JsMap.get (UMLClass.id E) (Merge.existingClassById (foldl Merge.classStep st l))
    = JsMap.get (UMLClass.id E) (Merge.existingClassById st).
Proof.
  intros Hinv Hl. revert st Hinv.
  induction Hl as [|Q l HQ Hl IH]; intros st Hinv; simpl; [done|].
  destruct (IH _ (loopInv_step existing st Q Hinv)) as [-> ->].
  by apply classStep_unrelated.
Qed.

(** The classes of the merged list under [E]'s id, read off the state of
    the loop at its end. *)
Lemma merged_under_id st :
  Merge.loopInv existing st →
  filter (λ c, UMLClass.id c = UMLClass.id E)
    (Merge.mergedClasses st ++ JsMap.values (Merge.existingClassById st))
  = filter (λ c, UMLClass.id c = UMLClass.id E) (Merge.mergedClasses st)
    ++ option_list (JsMap.get (UMLClass.id E) (Merge.existingClassById st)).
Proof.
  intros Hinv. rewrite filter_app. f_equal.
  apply (values_filter_get (H := UMLClass.id)); [by eapply byId_NoDup|].
  intros k v Hin. by destruct (byId_entry existing st k v Hinv Hin).
Qed.

Lemma untouched_merged aiClasses :
  Forall (Merge.unrelated E) aiClasses →
  filter (λ c, UMLClass.id c = UMLClass.id E) (Merge.mergedClassList existing aiClasses)
  = [E].
Proof.
  intros Hl. unfold Merge.mergedClassList. cbv zeta.
  rewrite merged_under_id by apply loopInv_foldl, loopInv_init.
  destruct (classLoop_unrelated _ aiClasses (loopInv_init existing) Hl) as [-> ->].
  by rewrite byId_init_E.
Qed.

Lemma id_match_merged P l1 l2 :
  UMLClass.id P = UMLClass.id E →
  Forall (Merge.unrelated E) l1 → Forall (Merge.unrelated E) l2 →
  filter (λ c, UMLClass.id c = UMLClass.id E)
    (Merge.mergedClassList existing (l1 ++ P :: l2))
  = [Merge.absorbed E P].
Proof.
  intros HP Hl1 Hl2. unfold Merge.mergedClassList. cbv zeta.
  rewrite merged_under_id by apply loopInv_foldl, loopInv_init.
  rewrite foldl_app. simpl.
  set (st1 := foldl Merge.classStep (Merge.classInit existing) l1).
  assert (Merge.loopInv existing st1) as Hinv1 by apply loopInv_foldl, loopInv_init.
  destruct (classLoop_unrelated _ l1 (loopInv_init existing) Hl1) as [Hm1 Hg1].
  fold st1 in Hm1, Hg1. rewrite byId_init_E in Hg1. simpl in Hm1.
  destruct (classLoop_unrelated _ l2 (loopInv_step existing st1 P Hinv1) Hl2) as [-> ->].
  unfold Merge.classStep. rewrite HP, Hg1. simpl.
  rewrite filter_app, Hm1, filter_cons_True, filter_nil by done.
  rewrite get_delete_eq by (by eapply byId_NoDup).
  reflexivity.
Qed.

End ClassKept.

Section ViaMapMember.
Context {A : Type} `{HasId A}.

Lemma viaMap_last (l : list A) (k : string) (e : A) :
  last (filter (λ c, entityId c = k) l) = Some e →
  filter (λ c, entityId c = k) (Dedup.viaMap l) = [e].
Proof. intros Hf. by rewrite viaMap_filter, Hf. Qed.

End ViaMapMember.

(** X9.  A proposal that does not mention a class leaves it as it is.  Take
    an existing class that is the only one with its id.  When no proposed
    class has its id or its name (upper and lower case taken as the same),
    the merged diagram holds exactly one class with that id: the existing
    class, unchanged. *)
Theorem merge_keeps_untouched_class `{JS.Lowering}
    (existingClasses aiClasses : list UMLClass.t) (E : UMLClass.t) :
  E ∈ existingClasses →
  (∀ X, X ∈ existingClasses → UMLClass.id X = UMLClass.id E → X = E) →
  Forall (Merge.unrelated E) aiClasses →
  filter (λ c, UMLClass.id c = UMLClass.id E)
    (Merge.finalClasses existingClasses aiClasses) = [E].
Proof.
  intros HE Honly Hl. unfold Merge.finalClasses.
  pose proof (untouched_merged existingClasses E HE Honly aiClasses Hl) as Hf.
  apply (viaMap_last (H := UMLClass.id)). unfold entityId. by rewrite Hf.
Qed.

Section merge_keeps_untouched_class_examples.
#[local] Existing Instance Sample.lowering.

Lemma merge_keeps_untouched_class_witness :
  filter (λ c, UMLClass.id c = "B")
    (Merge.finalClasses [Sample.cls "A" "A"; Sample.placed "B" "B" 3 4]
       [Sample.cls "A" "Renamed"; Sample.cls "C" "C"])
  = [Sample.placed "B" "B" 3 4].
Proof.
  apply (merge_keeps_untouched_class [Sample.cls "A" "A"; Sample.placed "B" "B" 3 4]
           [Sample.cls "A" "Renamed"; Sample.cls "C" "C"] (Sample.placed "B" "B" 3 4)).
  - compute_done.
  - intros X HX Hid. repeat (apply elem_of_cons in HX as [->|HX]); try done.
    by apply elem_of_nil in HX.
  - repeat constructor; compute_done.
Defined.

End merge_keeps_untouched_class_examples.

(** X10.  A proposed class that has the id of an existing class replaces
    it, whatever its name: the merged diagram holds exactly one class with
    that id; it has the name and the attributes of the proposed class, and
    the position of the proposed class when it has one, of the existing
    class otherwise.  The existing class is the only one with its id, and
    no other proposed class has its id or its name. *)
Theorem merge_id_match_takes_proposal `{JS.Lowering}
    (existingClasses l1 l2 : list UMLClass.t) (E P : UMLClass.t) :
  E ∈ existingClasses →
  (∀ X, X ∈ existingClasses → UMLClass.id X = UMLClass.id E → X = E) →
  UMLClass.id P = UMLClass.id E →
  Forall (Merge.unrelated E) l1 → Forall (Merge.unrelated E) l2 →
  filter (λ c, UMLClass.id c = UMLClass.id E)
    (Merge.finalClasses existingClasses (l1 ++ P :: l2))
  = [ {| UMLClass.id := UMLClass.id E;
         UMLClass.name := UMLClass.name P;
         UMLClass.attributes := UMLClass.attributes P;
         UMLClass.position :=
           match UMLClass.position P with
           | Some p => Some p
           | None => UMLClass.position E
           end |} ].
Proof.
  intros HE Honly HP Hl1 Hl2. unfold Merge.finalClasses.
  pose proof (id_match_merged existingClasses E HE Honly P l1 l2 HP Hl1 Hl2) as Hf.
  apply (viaMap_last (H := UMLClass.id)). unfold entityId. by rewrite Hf.
Qed.

Section merge_id_match_takes_proposal_examples.
#[local] Existing Instance Sample.lowering.

Lemma merge_id_match_takes_proposal_witness :
  filter (λ c, UMLClass.id c = "B")
    (Merge.finalClasses [Sample.cls "A" "A"; Sample.placed "B" "B" 3 4]
       ([Sample.cls "C" "C"] ++ Sample.cls "B" "Account" :: []))
  = [Sample.placed "B" "Account" 3 4].
Proof.
  apply (merge_id_match_takes_proposal [Sample.cls "A" "A"; Sample.placed "B" "B" 3 4]
           [Sample.cls "C" "C"] [] (Sample.placed "B" "B" 3 4) (Sample.cls "B" "Account")).
  - compute_done.
  - intros X HX Hid. repeat (apply elem_of_cons in HX as [->|HX]); try done.
    by apply elem_of_nil in HX.
  - reflexivity.
  - repeat constructor; compute_done.
  - constructor.
Defined.

End merge_id_match_takes_proposal_examples.

Section ClassNew.
Context `{JS.Lowering}.
Variable existing : list UMLClass.t.

Lemma new_class_merged aiClasses P :
  P ∈ aiClasses →
  UMLClass.id P ∉ ids existing →
  lname P ∉ (λ c, lname c) <$> existing →
  (∀ Q, Q ∈ aiClasses → UMLClass.id Q = UMLClass.id P → Q = P) →
  last (filter (λ c, UMLClass.id c = UMLClass.id P)
          (Merge.mergedClassList existing aiClasses)) = Some P.
Proof.
  intros HP Hid Hname Honly.
  assert (∀ c, c ∈ Merge.mergedClassList existing aiClasses →
               UMLClass.id c = UMLClass.id P → c = P) as Hall.
  { intros c Hc Hc'.
    destruct (mergedClassList_origin existing aiClasses c Hc)
      as [Hin|(Q & HQ & [->|(E & HE & -> & _)])].
    - exfalso. apply Hid. apply list_elem_of_fmap. by exists c.
    - by apply Honly.
    - exfalso. apply Hid. apply list_elem_of_fmap. by exists E. }
  apply last_filter_only; [done| |done].
  pose proof (fresh_name_ids_survive existing aiClasses P HP Hname) as Hin.
  apply list_elem_of_fmap in Hin as (c & Hc & Hin).
  by rewrite <-(Hall c Hin (eq_sym Hc)).
Qed.

End ClassNew.

(** X11.  A proposed class that is new stays as proposed.  Take a proposed
    class whose id is the id of no existing class and whose name is the
    name of no existing class (upper and lower case taken as the same), and
    let it be the only proposed class with its id.  Then the merged diagram
    holds exactly one class with that id: the proposed class, unchanged. *)
Theorem merge_keeps_new_class `{JS.Lowering} (existingClasses aiClasses : list UMLClass.t)
    (P : UMLClass.t) :
  P ∈ aiClasses →
  UMLClass.id P ∉ ids existingClasses →
  lname P ∉ (λ c, lname c) <$> existingClasses →
  (∀ Q, Q ∈ aiClasses → UMLClass.id Q = UMLClass.id P → Q = P) →
  filter (λ c, UMLClass.id c = UMLClass.id P)
    (Merge.finalClasses existingClasses aiClasses) = [P].
Proof.
  intros HP Hid Hname Honly. unfold Merge.finalClasses.
  pose proof (new_class_merged existingClasses aiClasses P HP Hid Hname Honly) as Hf.
  apply (viaMap_last (H := UMLClass.id)). unfold entityId. by rewrite Hf.
Qed.

Section merge_keeps_new_class_examples.
#[local] Existing Instance Sample.lowering.

Lemma merge_keeps_new_class_witness :
  filter (λ c, UMLClass.id c = "C")
    (Merge.finalClasses [Sample.cls "A" "A"; Sample.cls "B" "B"]
       [Sample.cls "A" "Renamed"; Sample.placed "C" "C" 1 2])
  = [Sample.placed "C" "C" 1 2].
Proof.
  apply (merge_keeps_new_class [Sample.cls "A" "A"; Sample.cls "B" "B"]
           [Sample.cls "A" "Renamed"; Sample.placed "C" "C" 1 2]
           (Sample.placed "C" "C" 1 2)).
  - compute_done.
  - compute_done.
  - compute_done.
  - intros Q HQ Hid. repeat (apply elem_of_cons in HQ as [->|HQ]); try done.
    by apply elem_of_nil in HQ.
Defined.

End merge_keeps_new_class_examples.

Section EmptySides.
Context `{JS.Lowering}.

Lemma classLoop_no_existing (done ais : list UMLClass.t) :
  foldl Merge.classStep
    {| Merge.mergedClasses := done; Merge.existingClassById := [];
       Merge.existingClassByName := [] |} ais
  = {| Merge.mergedClasses := done ++ ais; Merge.existingClassById := [];
       Merge.existingClassByName := [] |}.
Proof.
  revert done. induction ais as [|a ais IH]; intros done; simpl.
  - by rewrite app_nil_r.
  - unfold Merge.classStep at 2. simpl. rewrite IH. by rewrite <-app_assoc.
Qed.

Lemma assocLoop_no_existing (done ais : list Association.t) :
  foldl Merge.assocStep
    {| Merge.mergedAssociations := done; Merge.existingAssocById := [] |} ais
  = {| Merge.mergedAssociations := done ++ ais; Merge.existingAssocById := [] |}.
Proof.
  revert done. induction ais as [|a ais IH]; intros done; simpl.
  - by rewrite app_nil_r.
  - unfold Merge.assocStep at 2. simpl. rewrite IH. by rewrite <-app_assoc.
Qed.

Lemma viaMap_viaMap {A : Type} `{HasId A} (l : list A) :
  Dedup.viaMap (Dedup.viaMap l) = Dedup.viaMap l.
Proof. apply viaMap_id. rewrite viaMap_ids. apply filterSeen_NoDup. Qed.

End EmptySides.

(** X12.  The two empty cases of the merge.  With an empty proposal the
    merged diagram is the existing one, and with an empty existing diagram
    it is the proposal; in both cases entries with the same id are first
    collapsed as the final pass does (first position, last value), so a
    diagram without repeated ids comes back as it is. *)
Theorem merge_empty_sides `{JS.Lowering} (cs : list UMLClass.t) (assocs : list Association.t) :
  Merge.mergeDiagramModifications cs assocs [] []
  = {| Merge.resultClasses := Dedup.viaMap cs;
       Merge.resultAssociations := Dedup.viaMap assocs |}
  ∧ Merge.mergeDiagramModifications [] [] cs assocs
    = {| Merge.resultClasses := Dedup.viaMap cs;
         Merge.resultAssociations := Dedup.viaMap assocs |}
  ∧ (NoDup (ids cs) → NoDup (ids assocs) →
     Merge.mergeDiagramModifications cs assocs [] []
     = {| Merge.resultClasses := cs; Merge.resultAssociations := assocs |}
     ∧ Merge.mergeDiagramModifications [] [] cs assocs
       = {| Merge.resultClasses := cs; Merge.resultAssociations := assocs |}).
Proof.
  assert (Merge.mergeDiagramModifications cs assocs [] []
          = {| Merge.resultClasses := Dedup.viaMap cs;
               Merge.resultAssociations := Dedup.viaMap assocs |}) as H1.
  { unfold Merge.mergeDiagramModifications, Merge.finalClasses, Merge.finalAssociations,
      Merge.mergedClassList, Merge.mergedAssocList. cbv zeta. simpl.
    rewrite !ofEntries_keyed.
    change (JsMap.values (@Dedup.indexed _ UMLClass.id cs)) with (Dedup.viaMap cs).
    change (JsMap.values (@Dedup.indexed _ Association.id assocs))
      with (Dedup.viaMap assocs).
    by rewrite !viaMap_viaMap. }
  assert (Merge.mergeDiagramModifications [] [] cs assocs
          = {| Merge.resultClasses := Dedup.viaMap cs;
               Merge.resultAssociations := Dedup.viaMap assocs |}) as H2.
  { unfold Merge.mergeDiagramModifications, Merge.finalClasses, Merge.finalAssociations,
      Merge.mergedClassList, Merge.mergedAssocList. cbv zeta.
    unfold Merge.classInit, Merge.assocInit. simpl.
    change (@JsMap.ofEntries UMLClass.t []) with (@nil (string * UMLClass.t)).
    change (@JsMap.ofEntries Association.t []) with (@nil (string * Association.t)).
    rewrite classLoop_no_existing, assocLoop_no_existing. simpl.
    by rewrite !app_nil_r. }
  split_and!; [done|done|].
  intros Hc Ha. rewrite H1, H2.
  by rewrite (viaMap_id (H := UMLClass.id)), (viaMap_id (H := Association.id)).
Qed.

Section merge_empty_sides_examples.
#[local] Existing Instance Sample.lowering.

Lemma merge_empty_sides_witness :
  Merge.mergeDiagramModifications (Editor.classes Sample.pageAB)
    (Editor.associations Sample.pageAB) [] []
  = {| Merge.resultClasses := Editor.classes Sample.pageAB;
       Merge.resultAssociations := Editor.associations Sample.pageAB |}.
Proof.
  apply (merge_empty_sides (Editor.classes Sample.pageAB)
           (Editor.associations Sample.pageAB)); compute_done.
Defined.

End merge_empty_sides_examples.

Section AssocById.
Variables (existing : list Association.t) (e : Association.t).
Hypothesis e_existing : e ∈ existing.
Hypothesis e_only : ∀ x, x ∈ existing → Association.id x = Association.id e → x = e.
Implicit Types (st : Merge.AssocLoop) (a : Association.t).

Lemma assoc_byId_init_e :
  JsMap.get (Association.id e) (Merge.existingAssocById (Merge.assocInit existing)) = Some e.
Proof.
  rewrite assocInit_byId, (indexed_get (H := Association.id)).
  apply last_filter_only; [|done|done]. intros c Hc Hid. by apply e_only.
Qed.

(** A step for an association with another id pushes nothing under [e]'s
    id and leaves [e]'s entry of [existingAssocById] alone. *)
Lemma assocStep_other st a :
  Association.id a ≠ Association.id e →
  filter (λ c, Association.id c = Association.id e)
    (Merge.mergedAssociations (Merge.assocStep st a))
  = filter (λ c, Association.id c = Association.id e) (Merge.mergedAssociations st)
  ∧ JsMap.get (Association.id e) (Merge.existingAssocById (Merge.assocStep st a))
    = JsMap.get (Association.id e) (Merge.existingAssocById st).
Proof.
  intros Hne. unfold Merge.assocStep.
  destruct (JsMap.get (Association.id a) (Merge.existingAssocById st)) as [x|];
    simpl; rewrite filter_app, filter_cons_False, filter_nil, app_nil_r by done.
  - by rewrite get_delete_ne.
  - done.
Qed.

Lemma assocLoop_other st l :
  Association.id e ∉ ids l →
  filter (λ c, Association.id c = Association.id e)
    (Merge.mergedAssociations (foldl Merge.assocStep st l))
  = filter (λ c, Association.id c = Association.id e) (Merge.mergedAssociations st)
  ∧ JsMap.get (Association.id e) (Merge.existingAssocById (foldl Merge.assocStep st l))
    = JsMap.get (Association.id e) (Merge.existingAssocById st).
Proof.
  revert st. induction l as [|a l IH]; intros st Hl; simpl; [done|].
  rewrite fmap_cons, not_elem_of_cons in Hl. destruct Hl as [Hne Hl].
  destruct (IH (Merge.assocStep st a) Hl) as [-> ->].
  apply assocStep_other. intros Heq. by apply Hne.
Qed.

Lemma assoc_merged_under_id st :
  AssocInv.keyed existing st →
  filter (λ c, Association.id c = Association.id e)
    (Merge.mergedAssociations st ++ JsMap.values (Merge.existingAssocById st))
  = filter (λ c, Association.id c = Association.id e) (Merge.mergedAssociations st)
    ++ option_list (JsMap.get (Association.id e) (Merge.existingAssocById st)).
Proof.
  intros Hk. rewrite filter_app. f_equal.
  apply (values_filter_get (H := Association.id)); [by eapply assoc_byId_NoDup|].
  intros k v Hin. by destruct (assoc_byId_entry existing st k v Hk Hin).
Qed.

Lemma keyed_init : AssocInv.keyed existing (Merge.assocInit existing).
Proof. unfold AssocInv.keyed. reflexivity. Qed.

Lemma untouched_assoc_merged ais :
  Association.id e ∉ ids ais →
  filter (λ c, Association.id c = Association.id e) (Merge.mergedAssocList existing ais)
  = [e].
Proof.
  intros Hl. unfold Merge.mergedAssocList. cbv zeta.
  rewrite assoc_merged_under_id by apply assocLoop_keyed, keyed_init.
  destruct (assocLoop_other (Merge.assocInit existing) ais Hl) as [-> ->].
  by rewrite assoc_byId_init_e.
Qed.

Lemma id_match_assoc_merged a l1 l2 :
  Association.id a = Association.id e →
  Association.id e ∉ ids l1 → Association.id e ∉ ids l2 →
  filter (λ c, Association.id c = Association.id e)
    (Merge.mergedAssocList existing (l1 ++ a :: l2))
  = [Merge.spreadAssoc e a].
Proof.
  intros Ha Hl1 Hl2. unfold Merge.mergedAssocList. cbv zeta.
  rewrite assoc_merged_under_id by apply assocLoop_keyed, keyed_init.
  rewrite foldl_app. simpl.
  set (st1 := foldl Merge.assocStep (Merge.assocInit existing) l1).
  assert (AssocInv.keyed existing st1) as Hk1 by apply assocLoop_keyed, keyed_init.
  destruct (assocLoop_other (Merge.assocInit existing) l1 Hl1) as [Hm1 Hg1].
  fold st1 in Hm1, Hg1. rewrite assoc_byId_init_e in Hg1. simpl in Hm1.
  destruct (assocLoop_other (Merge.assocStep st1 a) l2 Hl2) as [-> ->].
  unfold Merge.assocStep. rewrite Ha, Hg1. simpl.
  rewrite filter_app, Hm1, filter_cons_True, filter_nil by done.
  rewrite get_delete_eq by (by eapply assoc_byId_NoDup).
  reflexivity.
Qed.

End AssocById.

(** X13.  Associations are merged by id only.  Take an existing association
    that is the only one with its id.  When no proposed association has
    that id, the merged diagram holds it unchanged.  When one proposed
    association has that id, the merged diagram holds in its place the
    proposed one spread over the existing one: ends, multiplicities and
    kind as proposed, and each of [associationClass], [inheritanceType] and
    [cascadeDelete] as proposed when the proposal has the key, as before
    otherwise. *)
Theorem merge_association_by_id (existingAssociations : list Association.t)
    (e : Association.t) :
  e ∈ existingAssociations →
  (∀ x, x ∈ existingAssociations → Association.id x = Association.id e → x = e) →
  (∀ aiAssociations,
     Association.id e ∉ ids aiAssociations →
     filter (λ c, Association.id c = Association.id e)
       (Merge.finalAssociations existingAssociations aiAssociations) = [e])
  ∧ (∀ a l1 l2,
       Association.id a = Association.id e →
       Association.id e ∉ ids l1 → Association.id e ∉ ids l2 →
       filter (λ c, Association.id c = Association.id e)
         (Merge.finalAssociations existingAssociations (l1 ++ a :: l2))
       = [ {| Association.id := Association.id a;
              Association.fromClassId := Association.fromClassId a;
              Association.toClassId := Association.toClassId a;
              Association.fromMultiplicity := Association.fromMultiplicity a;
              Association.toMultiplicity := Association.toMultiplicity a;
              Association.relationshipType := Association.relationshipType a;
              Association.associationClass :=
                match Association.associationClass a with
                | Some v => Some v
                | None => Association.associationClass e
                end;
              Association.inheritanceType :=
                match Association.inheritanceType a with
                | Some v => Some v
                | None => Association.inheritanceType e
                end;
              Association.cascadeDelete :=
                match Association.cascadeDelete a with
                | Some v => Some v
                | None => Association.cascadeDelete e
                end |} ]).
Proof.
  intros He Honly. unfold Merge.finalAssociations. split.
  - intros ais Hl.
    pose proof (untouched_assoc_merged existingAssociations e He Honly ais Hl) as Hf.
    apply (viaMap_last (H := Association.id)). unfold entityId. by rewrite Hf.
  - intros a l1 l2 Ha Hl1 Hl2.
    pose proof (id_match_assoc_merged existingAssociations e He Honly a l1 l2 Ha Hl1 Hl2)
      as Hf.
    apply (viaMap_last (H := Association.id)). unfold entityId. by rewrite Hf.
Qed.

Lemma merge_association_by_id_witness :
  filter (λ c, Association.id c = "ab")
    (Merge.finalAssociations [Sample.link "ab" "A" "B"] [Sample.link "bc" "B" "C"])
  = [Sample.link "ab" "A" "B"].
Proof.
  apply (merge_association_by_id [Sample.link "ab" "A" "B"] (Sample.link "ab" "A" "B")).
  - compute_done.
  - intros x Hx _. apply list_elem_of_singleton in Hx. done.
  - compute_done.
Defined.

(** X14.  A modification by the AI service does not wipe what the service
    cannot express.  [modifyExistingDiagram] hands the merge associations
    built from the six mandatory fields only.  So when the validated answer
    has one association with the id of an existing association (itself the
    only one with this id), the modified diagram holds under this id the
    ends, multiplicities and kind of the answer together with the
    [associationClass], [inheritanceType] and [cascadeDelete] that the
    association had before. *)
Theorem modify_keeps_optional_association_fields `{Gemini.MapError} `{JS.Lowering}
    (existingClasses : list UMLClass.t) (existingAssociations : list Association.t)
    (e : Association.t) (aiClasses : list UMLClass.t)
    (j : UMLAssociationJSON.t) (l1 l2 : list UMLAssociationJSON.t)
    (validationError : option string) :
  e ∈ existingAssociations →
  (∀ x, x ∈ existingAssociations → Association.id x = Association.id e → x = e) →
  UMLAssociationJSON.id j = Association.id e →
  Association.id e ∉ UMLAssociationJSON.id <$> l1 →
  Association.id e ∉ UMLAssociationJSON.id <$> l2 →
  let validation :=
    {| Gemini.isValid := true;
       Gemini.validatedDiagram :=
         Some {| Gemini.jsonClasses := aiClasses;
                 Gemini.jsonAssociations := Some (l1 ++ j :: l2) |};
       Gemini.validationError := validationError |} in
  ∃ d, Gemini.diagram
         (Gemini.modifyExistingDiagram existingClasses existingAssociations validation)
       = Some d
       ∧ filter (λ c, Association.id c = Association.id e) (Gemini.associations d)
         = [ {| Association.id := Association.id e;
                Association.fromClassId := UMLAssociationJSON.fromClassId j;
                Association.toClassId := UMLAssociationJSON.toClassId j;
                Association.fromMultiplicity :=
                  JS.orStr (Some (UMLAssociationJSON.fromMultiplicity j)) "1";
                Association.toMultiplicity :=
                  JS.orStr (Some (UMLAssociationJSON.toMultiplicity j)) "1";
                Association.relationshipType := UMLAssociationJSON.relationshipType j;
                Association.associationClass := Association.associationClass e;
                Association.inheritanceType := Association.inheritanceType e;
                Association.cascadeDelete := Association.cascadeDelete e |} ].
Proof.
  intros He Honly Hj Hl1 Hl2. cbv zeta. unfold Gemini.modifyExistingDiagram. simpl.
  eexists. split; [reflexivity|]. simpl. unfold Merge.finalAssociations.
  rewrite map_app. simpl.
  assert (∀ l, Association.id e ∉ UMLAssociationJSON.id <$> l →
               Association.id e ∉ ids (map Gemini.toAssociation l)) as Hids.
  { intros l Hl Hin. apply Hl. apply list_elem_of_fmap in Hin as (a & Ha & Hin).
    apply list_elem_of_fmap in Hin as (x & -> & Hx).
    apply list_elem_of_fmap. by exists x. }
  pose proof (id_match_assoc_merged existingAssociations e He Honly
                (Gemini.toAssociation j) _ _ Hj (Hids l1 Hl1) (Hids l2 Hl2)) as Hf.
  apply (viaMap_last (H := Association.id)). unfold entityId. rewrite Hf.
  unfold Merge.spreadAssoc, Gemini.toAssociation. simpl. by rewrite Hj.
Qed.

Section modify_keeps_optional_association_fields_examples.
#[local] Existing Instance Sample.mapOfUndefined.
#[local] Existing Instance Sample.lowering.

Lemma modify_keeps_optional_association_fields_witness :
  ∃ d, Gemini.diagram
         (Gemini.modifyExistingDiagram (Editor.classes Sample.pageAB)
            [Fixture.owned "ab" "A" "B"]
            {| Gemini.isValid := true;
               Gemini.validatedDiagram :=
                 Some {| Gemini.jsonClasses := Editor.classes Sample.pageAB;
                         Gemini.jsonAssociations :=
                           Some ([] ++ Fixture.answered "ab" "B" "A" :: []) |};
               Gemini.validationError := None |})
       = Some d
       ∧ filter (λ c, Association.id c = "ab") (Gemini.associations d)
         = [Fixture.owned "ab" "B" "A"].
Proof.
  apply (modify_keeps_optional_association_fields (Editor.classes Sample.pageAB)
           [Fixture.owned "ab" "A" "B"] (Fixture.owned "ab" "A" "B")
           (Editor.classes Sample.pageAB) (Fixture.answered "ab" "B" "A") [] [] None).
  - compute_done.
  - intros x Hx _. apply list_elem_of_singleton in Hx. done.
  - reflexivity.
  - compute_done.
  - compute_done.
Defined.

End modify_keeps_optional_association_fields_examples.

(* ===================================================================== *)
(** * Retrying the AI service *)
(* ===================================================================== *)

Section RetryLoop.
Context {T : Type}.
Variables (fn : nat → Retry.Outcome T) (maxRetries : nat) (baseDelay : Z).

(** How a call of [fn] that ends the loop settles it. *)
Lemma loop_spec (remaining attempt : nat) (waited : list Z) :
  (attempt + remaining = maxRetries)%nat → (0 < remaining)%nat →
  let r := Retry.loop fn maxRetries baseDelay attempt remaining waited in
  (attempt < Retry.calls r ≤ maxRetries)%nat
  ∧ Retry.delays r
    = waited ++ (Retry.delayOf baseDelay <$> seq attempt (Retry.calls r - 1 - attempt))
  ∧ Retry.settled r
    = match fn (Retry.calls r - 1) with
      | Retry.Resolved value => Retry.Returned value
      | Retry.Rejected error => Retry.Threw (Some error)
      end
  ∧ (∀ i, (attempt ≤ i < Retry.calls r - 1)%nat →
          ∃ error, fn i = Retry.Rejected error
                   ∧ Retry.notRetried error = false ∧ Retry.retried error = true)
  ∧ ((Retry.calls r < maxRetries)%nat →
     match fn (Retry.calls r - 1) with
     | Retry.Resolved _ => True
     | Retry.Rejected error => Retry.notRetried error = true ∨ Retry.retried error = false
     end).
Proof.
  revert attempt waited.
  induction remaining as [|remaining' IH]; intros attempt waited Hsum Hpos; [lia|].
  cbv zeta. cbn [Retry.loop].
  assert (∀ s : Retry.Settled T,
            let r := {| Retry.settled := s; Retry.calls := S attempt;
                           Retry.delays := waited |} in
               (attempt < Retry.calls r ≤ maxRetries)%nat
               ∧ Retry.delays r
                 = waited
                   ++ (Retry.delayOf baseDelay <$> seq attempt (Retry.calls r - 1 - attempt))
               ∧ (∀ i, (attempt ≤ i < Retry.calls r - 1)%nat →
                       ∃ error, fn i = Retry.Rejected error
                                ∧ Retry.notRetried error = false
                                ∧ Retry.retried error = true)
               ∧ (Retry.calls r - 1 = attempt)%nat) as Hstop.
  { intros s. cbn. replace (attempt - 0 - attempt)%nat with 0%nat by lia.
    split_and!; [lia|lia|by rewrite app_nil_r|intros i; lia|lia]. }
  destruct (fn attempt) as [value|error] eqn:Hfn.
  - destruct (Hstop (Retry.Returned value)) as ([Hc1 Hc2] & Hd & Hi & Hlast).
    split_and!; [done|done|done|by rewrite Hlast, Hfn|done|by rewrite Hlast, Hfn].
  - destruct (Retry.notRetried error) eqn:Hnot.
    { destruct (Hstop (Retry.Threw (Some error))) as ([Hc1 Hc2] & Hd & Hi & Hlast).
      split_and!; [done|done|done|by rewrite Hlast, Hfn|done|].
      rewrite Hlast, Hfn. intros _. by left. }
    destruct (Retry.retried error) eqn:Hre; cbn [andb].
    + destruct (Z.ltb_spec (Z.of_nat attempt) (Z.of_nat maxRetries - 1)) as [Hlt|Hge].
      * destruct (IH (S attempt) (waited ++ [Retry.delayOf baseDelay attempt]))
          as (Hc & Hd & Hs & Hi & Hearly); [lia|lia|].
        set (r := Retry.loop fn maxRetries baseDelay (S attempt) remaining'
                    (waited ++ [Retry.delayOf baseDelay attempt])) in *.
        split_and!; [lia|lia| |done| |done].
        -- rewrite Hd, <-app_assoc. f_equal.
           replace (Retry.calls r - 1 - attempt)%nat
             with (S (Retry.calls r - 1 - S attempt)) by lia.
           done.
        -- intros i Hi'. destruct (decide (i = attempt)) as [->|Hne].
           ++ by exists error.
           ++ apply Hi. lia.
      * destruct (Hstop (Retry.Threw (Some error))) as ([Hc1 Hc2] & Hd & Hi & Hlast).
        split_and!; [done|done|done|by rewrite Hlast, Hfn|done|]. cbn. lia.
    + destruct (Hstop (Retry.Threw (Some error))) as ([Hc1 Hc2] & Hd & Hi & Hlast).
      split_and!; [done|done|done|by rewrite Hlast, Hfn|done|].
      rewrite Hlast, Hfn. intros _. by right.
Qed.

End RetryLoop.

(** X15.  [retryWithBackoff] calls [fn] at least once and at most
    [maxRetries] times, and between two calls it waits [baseDelay] doubled
    once per call already made: [baseDelay], [2 * baseDelay],
    [4 * baseDelay], ...  It settles as its last call of [fn] settled.  Every
    call before the last one threw an error that is retried (code 503 or
    429 or status UNAVAILABLE, and not code 401, 403 or 400); and when it
    stops before [maxRetries] calls, the last call returned, or threw an
    error that is not retried. *)
Theorem retry_calls_and_delays {T : Type} (fn : nat → Retry.Outcome T)
    (maxRetries : nat) (baseDelay : Z) :
  (0 < maxRetries)%nat →
  let r := Retry.retryWithBackoff fn maxRetries baseDelay in
  (1 ≤ Retry.calls r ≤ maxRetries)%nat
  ∧ Retry.delays r
    = (λ k, baseDelay * 2 ^ Z.of_nat k) <$> seq 0 (Retry.calls r - 1)%nat
  ∧ Retry.settled r
    = match fn (Retry.calls r - 1)%nat with
      | Retry.Resolved value => Retry.Returned value
      | Retry.Rejected error => Retry.Threw (Some error)
      end
  ∧ (∀ i, (i < Retry.calls r - 1)%nat →
          ∃ error, fn i = Retry.Rejected error
                   ∧ Retry.notRetried error = false ∧ Retry.retried error = true)
  ∧ ((Retry.calls r < maxRetries)%nat →
     match fn (Retry.calls r - 1)%nat with
     | Retry.Resolved _ => True
     | Retry.Rejected error => Retry.notRetried error = true ∨ Retry.retried error = false
     end).
Proof.
  intros Hpos. cbv zeta. unfold Retry.retryWithBackoff.
  destruct (loop_spec fn maxRetries baseDelay maxRetries 0 []) as (Hc & Hd & Hs & Hi & He);
    [lia|done|].
  split_and!; [lia|lia| |done| |done].
  - rewrite Hd. simpl. by rewrite Nat.sub_0_r.
  - intros i Hlt. apply Hi. lia.
Qed.

Lemma retry_calls_and_delays_witness :
  Retry.delays
    (Retry.callModel
       (λ _, @Retry.Rejected unit
               {| Retry.code := Some 503; Retry.status := None;
                  Retry.message := "overloaded" |}))
  = [2000; 4000].
Proof.
  refine (eq_trans
            (proj1 (proj2
               (retry_calls_and_delays
                  (λ _, @Retry.Rejected unit
                          {| Retry.code := Some 503; Retry.status := None;
                             Retry.message := "overloaded" |})
                  3 2000 _))) _).
  - lia.
  - reflexivity.
Defined.

Section RetryStops.
Context {T : Type}.
Variables (fn : nat → Retry.Outcome T) (maxRetries : nat) (baseDelay : Z).

(** The call at which the loop stops: the first one that returns, or throws
    an error that is not retried, or is the last one allowed. *)
Lemma retry_stops_at (k : nat) :
  (k < maxRetries)%nat →
  (∀ i, (i < k)%nat →
        ∃ error, fn i = Retry.Rejected error
                 ∧ Retry.notRetried error = false ∧ Retry.retried error = true) →
  (S k = maxRetries
   ∨ match fn k with
     | Retry.Resolved _ => True
     | Retry.Rejected error => Retry.notRetried error = true ∨ Retry.retried error = false
     end) →
  Retry.retryWithBackoff fn maxRetries baseDelay
  = {| Retry.settled :=
         match fn k with
         | Retry.Resolved value => Retry.Returned value
         | Retry.Rejected error => Retry.Threw (Some error)
         end;
       Retry.calls := S k;
       Retry.delays := Retry.delayOf baseDelay <$> seq 0 k |}.
Proof.
  intros Hk Hbefore Hstop. unfold Retry.retryWithBackoff.
  destruct (loop_spec fn maxRetries baseDelay maxRetries 0 [])
    as ([Hc1 Hc2] & Hd & Hs & Hi & He); [lia|lia|].
  destruct (Retry.loop fn maxRetries baseDelay 0 maxRetries []) as [s c d].
  cbn in *.
  assert (c = S k) as ->.
  { destruct (decide (c - 1 < k)%nat) as [Hlt|Hge].
    - destruct (Hbefore _ Hlt) as (error & Hfn & Hnot & Hre).
      assert (c < maxRetries)%nat as Hearly by lia.
      specialize (He Hearly). rewrite Hfn in He. destruct He; congruence.
    - destruct (decide (k < c - 1)%nat) as [Hgt|Hle]; [|lia].
      destruct (Hi k) as (error & Hfn & Hnot & Hre); [lia|].
      destruct Hstop as [Hlast|Hstop]; [lia|].
      rewrite Hfn in Hstop. destruct Hstop; congruence. }
  replace (S k - 1)%nat with k in * by lia.
  replace (k - 0)%nat with k in * by lia.
  by rewrite Hs, Hd.
Qed.

End RetryStops.

(** X16.  What [retryWithBackoff] does with the three kinds of answer.  An
    error that is not retried (code 401, 403 or 400, or any error that is
    not a 503, a 429 or an UNAVAILABLE) is thrown again after this one call,
    without waiting.  The first answer that is not an error is returned, the
    earlier calls having each been followed by their delay.  And when every
    call throws an error that is retried, [fn] is called [maxRetries] times,
    with a delay between two calls but none after the last, and the last
    error is thrown. *)
Theorem retry_outcomes {T : Type} (fn : nat → Retry.Outcome T)
    (maxRetries : nat) (baseDelay : Z) :
  (0 < maxRetries)%nat →
  (∀ error, fn 0%nat = Retry.Rejected error →
            Retry.notRetried error = true ∨ Retry.retried error = false →
            Retry.retryWithBackoff fn maxRetries baseDelay
            = {| Retry.settled := Retry.Threw (Some error); Retry.calls := 1;
                 Retry.delays := [] |})
  ∧ (∀ k value,
       (k < maxRetries)%nat →
       (∀ i, (i < k)%nat →
             ∃ error, fn i = Retry.Rejected error
                      ∧ Retry.notRetried error = false ∧ Retry.retried error = true) →
       fn k = Retry.Resolved value →
       Retry.retryWithBackoff fn maxRetries baseDelay
       = {| Retry.settled := Retry.Returned value; Retry.calls := S k;
            Retry.delays := (λ i, baseDelay * 2 ^ Z.of_nat i) <$> seq 0 k |})
  ∧ (∀ last,
       (∀ i, (i < maxRetries)%nat →
             ∃ error, fn i = Retry.Rejected error
                      ∧ Retry.notRetried error = false ∧ Retry.retried error = true) →
       fn (maxRetries - 1)%nat = Retry.Rejected last →
       Retry.retryWithBackoff fn maxRetries baseDelay
       = {| Retry.settled := Retry.Threw (Some last); Retry.calls := maxRetries;
            Retry.delays :=
              (λ i, baseDelay * 2 ^ Z.of_nat i) <$> seq 0 (maxRetries - 1) |}).
Proof.
  intros Hpos. split_and!.
  - intros error Hfn Hstop.
    rewrite (retry_stops_at fn maxRetries baseDelay 0); [by rewrite Hfn|done| |].
    + intros i Hi. lia.
    + right. by rewrite Hfn.
  - intros k value Hk Hbefore Hfn.
    rewrite (retry_stops_at fn maxRetries baseDelay k); [by rewrite Hfn|done|done|].
    right. by rewrite Hfn.
  - intros last Hall Hfn.
    rewrite (retry_stops_at fn maxRetries baseDelay (maxRetries - 1)).
    + rewrite Hfn. f_equal. lia.
    + lia.
    + intros i Hi. apply Hall. lia.
    + left. lia.
Qed.

Lemma retry_outcomes_witness :
  Retry.callModel
    (λ _, @Retry.Rejected unit
            {| Retry.code := Some 401; Retry.status := Some "UNAVAILABLE";
               Retry.message := "API key not valid" |})
  = {| Retry.settled :=
         Retry.Threw (Some {| Retry.code := Some 401; Retry.status := Some "UNAVAILABLE";
                              Retry.message := "API key not valid" |});
       Retry.calls := 1; Retry.delays := [] |}.
Proof.
  apply (retry_outcomes
           (λ _, @Retry.Rejected unit
                   {| Retry.code := Some 401; Retry.status := Some "UNAVAILABLE";
                      Retry.message := "API key not valid" |}) 3 2000).
  - lia.
  - reflexivity.
  - left. reflexivity.
Defined.

(* ===================================================================== *)
(** * Unwrapping a fenced answer *)
(* ===================================================================== *)

Section Fences.
Implicit Types (s body : list ascii).

Lemma startsWith_app p s : Text.startsWith p (p ++ s) = true.
Proof.
  induction p as [|a p IH]; simpl; [done|].
  by rewrite bool_decide_eq_true_2.
Qed.

Lemma startsWith_prefix p q s :
  Text.startsWith p s = false → Text.startsWith (p ++ q) s = false.
Proof.
  revert s. induction p as [|a p IH]; intros s; simpl; [done|].
  destruct s as [|b s]; [done|]. case_bool_decide; simpl; [apply IH|done].
Qed.

Lemma dropOpening_app p s :
  Text.dropOpening p (p ++ Text.LF :: s) = s.
Proof.
  unfold Text.dropOpening. rewrite drop_app_length. by rewrite bool_decide_eq_true_2.
Qed.

Lemma dropClosing_app body :
  Text.dropClosing (body ++ Text.LF :: Text.fence) = body.
Proof.
  unfold Text.dropClosing. rewrite reverse_app. cbn.
  rewrite bool_decide_eq_true_2 by done.
  rewrite bool_decide_eq_true_2 by done.
  apply reverse_involutive.
Qed.

Lemma cleanupChars_unfenced s :
  Text.startsWith Text.fence s = false → Text.cleanupChars s = s.
Proof.
  intros Hs. unfold Text.cleanupChars.
  unfold Text.fenceJson. by rewrite startsWith_prefix, Hs.
Qed.

Lemma cleanupChars_json body :
  Text.cleanupChars (Text.fenceJson ++ Text.LF :: body ++ Text.LF :: Text.fence) = body.
Proof.
  unfold Text.cleanupChars. rewrite startsWith_app, dropOpening_app.
  apply dropClosing_app.
Qed.

Lemma cleanupChars_plain body :
  Text.cleanupChars (Text.fence ++ Text.LF :: body ++ Text.LF :: Text.fence) = body.
Proof.
  unfold Text.cleanupChars.
  assert (Text.startsWith Text.fenceJson
            (Text.fence ++ Text.LF :: body ++ Text.LF :: Text.fence) = false) as ->
    by reflexivity.
  rewrite startsWith_app, dropOpening_app. apply dropClosing_app.
Qed.

Lemma chars_append (a b : string) :
  list_ascii_of_string (a +:+ b) = list_ascii_of_string a ++ list_ascii_of_string b.
Proof. induction a as [|c a IH]; simpl; [done|]. by rewrite IH. Qed.

End Fences.

(** X17.  [cleanupJsonString] takes the fence off an answer and leaves any
    other answer alone.  A text that does not start with three backticks
    comes back as it is.  A text wrapped in a fence, with or without the
    [json] tag, each fence on a line of its own, comes back as the text
    that was wrapped, whatever this text is. *)
Theorem cleanupJsonString_unwraps (body : string) :
  (Text.startsWith Text.fence (list_ascii_of_string body) = false →
   Text.cleanupJsonString body = body)
  ∧ Text.cleanupJsonString
      ("```json" +:+ String Text.LF body +:+ String Text.LF "```") = body
  ∧ Text.cleanupJsonString
      ("```" +:+ String Text.LF body +:+ String Text.LF "```") = body.
Proof.
  unfold Text.cleanupJsonString. split_and!.
  - intros Hs. rewrite cleanupChars_unfenced by done.
    apply string_of_list_ascii_of_string.
  - rewrite chars_append. cbn [list_ascii_of_string]. rewrite chars_append.
    etrans; [|apply string_of_list_ascii_of_string]. f_equal.
    apply cleanupChars_json.
  - rewrite chars_append. cbn [list_ascii_of_string]. rewrite chars_append.
    etrans; [|apply string_of_list_ascii_of_string]. f_equal.
    apply cleanupChars_plain.
Qed.

Lemma cleanupJsonString_unwraps_witness :
  Text.cleanupJsonString "{ }" = "{ }".
Proof.
  exact (proj1 (cleanupJsonString_unwraps "{ }") eq_refl).
Defined.

(* ===================================================================== *)
(** * More on the realtime hook *)
(* ===================================================================== *)

Section SseSources.
Implicit Types (r : Sse.Refs) (e : Sse.Event).

Lemma step_created r e :
  Sse.neverRetried r →
  Sse.created (Sse.step r e)
  = (Sse.created r + (if SseCount.connects e then 1 else 0))%nat.
Proof.
  intros (Ha & Hs & Ht). destruct e as [enabled diagramId| | |m|rs|]; simpl.
  - unfold Sse.effectBody, Sse.connect.
    destruct (Sse.cleanupRegistered r), (Sse.mustNotConnect enabled diagramId); simpl; lia.
  - destruct (Sse.cleanupRegistered r); simpl; lia.
  - lia.
  - lia.
  - unfold Sse.onerror. destruct rs; [lia..|]. rewrite Ha. simpl. lia.
  - rewrite Ht. lia.
Qed.

Lemma run_created r es :
  Sse.neverRetried r →
  Sse.created (foldl Sse.step r es)
  = (Sse.created r + length (filter (λ e, SseCount.connects e = true) es))%nat.
Proof.
  revert r. induction es as [|e es IH]; intros r Hr; simpl; [lia|].
  rewrite IH by (by apply step_never_schedules). rewrite step_created by done.
  rewrite filter_cons. case_decide as Hc.
  - rewrite Hc. simpl. lia.
  - apply not_true_is_false in Hc. rewrite Hc. lia.
Qed.

Lemma effect_refused r enabled diagramId :
  Sse.mustNotConnect enabled diagramId = true →
  let r' := Sse.step r (Sse.RunEffect enabled diagramId) in
  Sse.eventSourceRef r' = None ∧ Sse.created r' = Sse.created r
  ∧ Sse.cleanupRegistered r' = false.
Proof.
  intros Hno. cbv zeta. simpl. unfold Sse.effectBody. rewrite Hno.
  by destruct (Sse.cleanupRegistered r).
Qed.

End SseSources.

(** X18.  The realtime hook connects once per run of its effect and never
    again.  Whatever happens to the hook, in whatever order, the number of
    [EventSource] objects it has built is the number of runs of the effect
    with the hook enabled and a usable diagram id; no reconnect timer is
    ever started and the attempt counter never leaves zero.  A run of the
    effect with the hook disabled, or with no id, an empty one, [undefined]
    or [null], builds nothing, drops the current source and registers no
    cleanup. *)
Theorem sse_one_source_per_effect_run (es : list Sse.Event) :
  Sse.created (Sse.run es) = length (filter (λ e, SseCount.connects e = true) es)
  ∧ Sse.scheduled (Sse.run es) = []
  ∧ Sse.reconnectAttemptsRef (Sse.run es) = 0
  ∧ (∀ enabled diagramId,
       (enabled = false ∨ diagramId = None ∨ diagramId = Some ""
        ∨ diagramId = Some "undefined" ∨ diagramId = Some "null") →
       let r' := Sse.step (Sse.run es) (Sse.RunEffect enabled diagramId) in
       Sse.eventSourceRef r' = None ∧ Sse.created r' = Sse.created (Sse.run es)
       ∧ Sse.cleanupRegistered r' = false).
Proof.
  assert (Sse.neverRetried Sse.initial) as Hinit by done.
  destruct (run_never_schedules Sse.initial es Hinit) as (Ha & Hs & _).
  split_and!.
  - unfold Sse.run. by rewrite run_created.
  - exact Hs.
  - exact Ha.
  - intros enabled diagramId Hbad. apply effect_refused.
    destruct Hbad as [->|[->|[->|[->| ->]]]]; try reflexivity;
      destruct enabled; reflexivity.
Qed.

Lemma sse_one_source_per_effect_run_witness :
  Sse.eventSourceRef
    (Sse.step (Sse.run [Sse.RunEffect true (Some "d1"); Sse.Opened])
       (Sse.RunEffect true (Some "undefined"))) = None.
Proof.
  apply (sse_one_source_per_effect_run [Sse.RunEffect true (Some "d1"); Sse.Opened]).
  right. right. right. left. reflexivity.
Defined.

(** X19.  What a realtime message does to the page.  A keepalive, a text
    that is not JSON, a message of another type than [update] and an
    update without [diagram_data] leave the page as it is.  An update from
    somebody else, received while nothing is dragged, replaces the classes
    and the associations of the page by the ones it carries deduplicated
    by id: a subsequence of the list carried, without a repeated id,
    holding the first entry of every id carried, and the list carried
    itself when it repeats no id.  A list that the update lacks counts as
    empty, so such an update clears that list of the page. *)
Theorem realtime_message_effect (currentUserId : option string) (st : Editor.State) :
  Editor.onRealtimeMessage currentUserId Sse.Keepalive st = st
  ∧ Editor.onRealtimeMessage currentUserId Sse.Unparsable st = st
  ∧ (∀ data, Sse.type data ≠ "update" ∨ Sse.diagram_data data = None →
             Editor.onRealtimeMessage currentUserId (Sse.Json data) st = st)
  ∧ (∀ data dd,
       Sse.type data = "update" → Sse.diagram_data data = Some dd →
       JS.truthyStr (Sse.user_id data) = false ∨ Sse.user_id data ≠ currentUserId →
       Editor.isDraggingRef st = false →
       let st' := Editor.onRealtimeMessage currentUserId (Sse.Json data) st in
       Dedup.firstPerId (default [] (Sse.classes dd)) (Editor.classes st')
       ∧ Dedup.firstPerId (default [] (Sse.associations dd)) (Editor.associations st')
       ∧ (∀ cs, Sse.classes dd = Some cs → NoDup (ids cs) → Editor.classes st' = cs)
       ∧ (∀ assocs, Sse.associations dd = Some assocs → NoDup (ids assocs) →
                    Editor.associations st' = assocs)
       ∧ Editor.classes st' = Dedup.uniqueById (default [] (Sse.classes dd))
       ∧ Editor.associations st' = Dedup.uniqueById (default [] (Sse.associations dd))
       ∧ (Sse.classes dd = None → Editor.classes st' = [])
       ∧ (Sse.associations dd = None → Editor.associations st' = [])).
Proof.
  split_and!; [done|done| |].
  - intros data Hother. unfold Editor.onRealtimeMessage, Sse.onmessage.
    destruct Hother as [Hty| ->]; [by rewrite bool_decide_eq_false_2|].
    by case_bool_decide.
  - intros data dd Hty Hdd Hpeer Hidle. cbv zeta.
    assert (Sse.onmessage currentUserId (Sse.Json data)
            = Some (default [] (Sse.classes dd), default [] (Sse.associations dd))) as Hmsg.
    { unfold Sse.onmessage. rewrite bool_decide_eq_true_2, Hdd by done.
      destruct Hpeer as [-> | Hne]; [done|].
      by rewrite (bool_decide_eq_false_2 _ Hne), andb_false_r. }
    unfold Editor.onRealtimeMessage. rewrite Hmsg.
    destruct (handleRealtimeUpdate_applied (default [] (Sse.classes dd))
                (default [] (Sse.associations dd)) st Hidle) as [Hc Ha].
    split_and!; [| | | |done|done| |].
    + rewrite Hc. apply uniqueById_firstPerId.
    + rewrite Ha. apply uniqueById_firstPerId.
    + intros cs Hcs Hnd. rewrite Hc, Hcs. by apply uniqueById_id.
    + intros assocs Has Hnd. rewrite Ha, Has. by apply uniqueById_id.
    + intros Hnone. by rewrite Hc, Hnone.
    + intros Hnone. by rewrite Ha, Hnone.
Qed.

(** An update from another user that carries the id A twice and no
    associations: the page gets the first A and B, and loses its
    association. *)
Lemma realtime_message_effect_witness :
  let update :=
    {| Sse.type := "update"; Sse.diagram_id := "d1";
       Sse.diagram_data :=
         Some {| Sse.classes :=
                   Some [Sample.cls "A" "Account"; Sample.cls "B" "B";
                         Sample.cls "A" "Again"];
                 Sse.associations := None |};
       Sse.timestamp := "2025-01-01T00:00:00Z";
       Sse.user_id := Some "u-2" |} in
  let st' := Editor.onRealtimeMessage (Some "u-1") (Sse.Json update) Sample.pageAB in
  Dedup.firstPerId
    [Sample.cls "A" "Account"; Sample.cls "B" "B"; Sample.cls "A" "Again"]
    (Editor.classes st')
  ∧ Editor.classes st' = [Sample.cls "A" "Account"; Sample.cls "B" "B"]
  ∧ Editor.associations st' = [].
Proof.
  cbv zeta.
  destruct (proj2 (proj2 (proj2 (realtime_message_effect (Some "u-1") Sample.pageAB)))
              {| Sse.type := "update"; Sse.diagram_id := "d1";
                 Sse.diagram_data :=
                   Some {| Sse.classes :=
                             Some [Sample.cls "A" "Account"; Sample.cls "B" "B";
                                   Sample.cls "A" "Again"];
                           Sse.associations := None |};
                 Sse.timestamp := "2025-01-01T00:00:00Z";
                 Sse.user_id := Some "u-2" |}
              {| Sse.classes :=
                   Some [Sample.cls "A" "Account"; Sample.cls "B" "B";
                         Sample.cls "A" "Again"];
                 Sse.associations := None |})
    as (Hfirst & _ & _ & _ & _ & _ & _ & Hnone);
    [reflexivity | reflexivity | right; discriminate | reflexivity |].
  split_and!; [exact Hfirst | reflexivity | exact (Hnone eq_refl)].
Defined.

(* ===================================================================== *)
(** * The validator *)
(* ===================================================================== *)

Section ValidatorFacts.
Context `{Json.Engine}.
Import Json.
Implicit Types (v : option Json.t) (c a d : Json.t).

Lemma notAString_text v : Validator.notAString v = false ↔ Shape.text v.
Proof.
  unfold Validator.notAString, Shape.text. split.
  - intros Hv. apply orb_false_elim in Hv as [Ht Hs].
    apply negb_false_iff in Ht, Hs. apply bool_decide_eq_true in Hs.
    destruct v as [[| | |s| |]|]; try discriminate. exists s. split; [done|].
    simpl in Ht. apply negb_true_iff in Ht. by apply String.eqb_neq in Ht.
  - intros (s & -> & Hs). simpl. apply String.eqb_neq in Hs. by rewrite Hs.
Qed.

Lemma includes_oneOf (l : list string) v : includes l v = true ↔ Shape.oneOf l v.
Proof.
  unfold includes, Shape.oneOf. split.
  - destruct v as [[| | |s| |]|]; try discriminate. intros Hs%bool_decide_eq_true. eauto.
  - intros (s & -> & Hs). by apply bool_decide_eq_true.
Qed.

Lemma typeOf_number v : bool_decide (typeOf v = TNumber) = true ↔ Shape.number v.
Proof.
  unfold Shape.number. rewrite bool_decide_eq_true. split.
  - destruct v as [[| |n| | |]|]; try discriminate. eauto.
  - by intros (n & ->).
Qed.

Lemma finite_number v : Shape.finite v → Shape.number v.
Proof. intros (n & -> & _). by exists n. Qed.

Lemma text_prop_not_null (k : string) c : Shape.text (prop k c) → isNull c = false.
Proof. intros (s & Hs & _). by destruct c. Qed.

Lemma number_position c :
  Shape.number (propOf "x" (prop "position" c)) →
  truthy (prop "position" c) = true ∧ typeOf (prop "position" c) = TObject.
Proof.
  intros (n & Hn). destruct (prop "position" c) as [[| | | | |]|]; try discriminate. done.
Qed.

Lemma attribute_checks a :
  Shape.attribute a ↔
  isNull a = false ∧ Validator.notAString (prop "id" a) = false
  ∧ Validator.notAString (prop "name" a) = false
  ∧ Validator.notAString (prop "type" a) = false
  ∧ includes Validator.allowedTypes (prop "type" a) = true.
Proof.
  unfold Shape.attribute. rewrite !notAString_text, includes_oneOf. split.
  - intros (Hid & Hname & Hty). split_and!; try done.
    + by eapply text_prop_not_null.
    + destruct Hty as (s & Hs & Hin). exists s. split; [done|].
      intros ->. revert Hin. compute_done.
  - naive_solver.
Qed.

Lemma validateAttributes_accepts (className : string) (attrs : list Json.t) (i : nat) :
  Validator.validateAttributes className attrs i = Done (Validator.Accepted ())
  ↔ Forall Shape.attribute attrs.
Proof.
  revert i. induction attrs as [|a attrs IH]; intros i; simpl; [done|].
  rewrite Forall_cons, attribute_checks, <-(IH (S i)).
  destruct (isNull a); [naive_solver|].
  destruct (Validator.notAString (prop "id" a)); [naive_solver|].
  destruct (Validator.notAString (prop "name" a)); [naive_solver|].
  destruct (Validator.notAString (prop "type" a)); [naive_solver|].
  destruct (includes Validator.allowedTypes (prop "type" a)); simpl; naive_solver.
Qed.

(** What [validateUMLClass] checks of the value it is given: any number
    will do as a coordinate. *)
Lemma class_checks c :
  Shape.classWith Shape.number c ↔
  (bool_decide (typeOf (Some c) = TObject) = true ∧ isNull c = false)
  ∧ Validator.notAString (prop "id" c) = false
  ∧ Validator.notAString (prop "name" c) = false
  ∧ (truthy (prop "attributes" c) = true ∧ isArray (prop "attributes" c) = true)
  ∧ (truthy (prop "position" c) = true
     ∧ bool_decide (typeOf (prop "position" c) = TObject) = true)
  ∧ (bool_decide (typeOf (propOf "x" (prop "position" c)) = TNumber) = true
     ∧ bool_decide (typeOf (propOf "y" (prop "position" c)) = TNumber) = true)
  ∧ Forall Shape.attribute (elements (prop "attributes" c)).
Proof.
  unfold Shape.classWith. rewrite !notAString_text, !typeOf_number. split.
  - intros (Hid & Hname & (attrs & Hattrs & Hall) & Hx & Hy).
    destruct (number_position c Hx) as [Htr Hobj].
    rewrite Hattrs. split_and!; try done.
    + destruct Hid as (s & Hs & _). by destruct c.
    + by eapply text_prop_not_null.
    + by apply bool_decide_eq_true.
  - intros (_ & Hid & Hname & [_ Harr] & _ & [Hx Hy] & Hall). split_and!; try done.
    destruct (prop "attributes" c) as [[| | | |attrs|]|]; try discriminate. eauto.
Qed.

Lemma validateUMLClass_accepts c (i : nat) :
  Validator.validateUMLClass c i = Done (Validator.Accepted ())
  ↔ Shape.classWith Shape.number c.
Proof.
  rewrite class_checks. unfold Validator.validateUMLClass.
  destruct (bool_decide (typeOf (Some c) = TObject)); simpl; [|naive_solver].
  destruct (isNull c); simpl; [naive_solver|].
  destruct (Validator.notAString (prop "id" c)); [naive_solver|].
  destruct (Validator.notAString (prop "name" c)); [naive_solver|].
  destruct (truthy (prop "attributes" c)); simpl; [|naive_solver].
  destruct (isArray (prop "attributes" c)); simpl; [|naive_solver].
  destruct (truthy (prop "position" c)); simpl; [|naive_solver].
  destruct (bool_decide (typeOf (prop "position" c) = TObject)); simpl; [|naive_solver].
  destruct (bool_decide (typeOf (propOf "x" (prop "position" c)) = TNumber)); simpl;
    [|naive_solver].
  destruct (bool_decide (typeOf (propOf "y" (prop "position" c)) = TNumber)); simpl;
    [|naive_solver].
  rewrite validateAttributes_accepts. naive_solver.
Qed.

Lemma validateClasses_accepts (classes : list Json.t) (i : nat) :
  Validator.validateClasses classes i = Done (Validator.Accepted ())
  ↔ Forall (Shape.classWith Shape.number) classes.
Proof.
  revert i. induction classes as [|c classes IH]; intros i; simpl; [done|].
  rewrite Forall_cons, <-(IH (S i)), <-(validateUMLClass_accepts c i).
  destruct (Validator.validateUMLClass c i) as [[[]|error]|message]; naive_solver.
Qed.

Lemma validateUMLClassesJSON_accepts (jsonString : Json.Text) (classes : list Json.t) :
  Validator.validateUMLClassesJSON jsonString = Validator.Accepted classes
  ↔ jsonString = Parsed (JArr classes) ∧ Forall (Shape.classWith Shape.number) classes.
Proof.
  unfold Validator.validateUMLClassesJSON.
  destruct jsonString as [parsed|message]; [|naive_solver].
  destruct parsed as [| | | |items|]; simpl; try naive_solver.
  rewrite <-(validateClasses_accepts classes 0).
  destruct (Validator.validateClasses items 0) as [[[]|error]|msg] eqn:Hv.
  - split; [by intros [= ->] | by intros [[= ->] _]].
  - split; [done | intros [[= ->] Hc]; congruence].
  - split; [done | intros [[= ->] Hc]; congruence].
Qed.

Lemma association_checks (classIds : list string) a :
  Shape.association classIds a ↔
  (bool_decide (typeOf (Some a) = TObject) = true ∧ isNull a = false)
  ∧ Validator.notAString (prop "id" a) = false
  ∧ Validator.notAString (prop "fromClassId" a) = false
  ∧ Validator.notAString (prop "toClassId" a) = false
  ∧ includes classIds (prop "fromClassId" a) = true
  ∧ includes classIds (prop "toClassId" a) = true
  ∧ includes Validator.validRelationships (prop "relationshipType" a) = true
  ∧ includes Validator.validMultiplicities (prop "fromMultiplicity" a) = true
  ∧ includes Validator.validMultiplicities (prop "toMultiplicity" a) = true.
Proof.
  unfold Shape.association. rewrite !notAString_text, !includes_oneOf. split.
  - intros (Hid & Hfrom & Hto & Hfi & Hti & Hrel & Hfm & Htm). split_and!; try done.
    + destruct Hid as (s & Hs & _). by destruct a.
    + by eapply text_prop_not_null.
  - naive_solver.
Qed.

Lemma validateUMLAssociation_accepts a (i : nat) (classIds : list string) :
  Validator.validateUMLAssociation a i classIds = Validator.Accepted ()
  ↔ Shape.association classIds a.
Proof.
  rewrite association_checks. unfold Validator.validateUMLAssociation.
  destruct (bool_decide (typeOf (Some a) = TObject)); simpl; [|naive_solver].
  destruct (isNull a); simpl; [naive_solver|].
  destruct (Validator.notAString (prop "id" a)); [naive_solver|].
  destruct (Validator.notAString (prop "fromClassId" a)); [naive_solver|].
  destruct (Validator.notAString (prop "toClassId" a)); [naive_solver|].
  destruct (includes classIds (prop "fromClassId" a)); simpl; [|naive_solver].
  destruct (includes classIds (prop "toClassId" a)); simpl; [|naive_solver].
  destruct (includes Validator.validRelationships (prop "relationshipType" a)); simpl;
    [|naive_solver].
  destruct (includes Validator.validMultiplicities (prop "fromMultiplicity" a)); simpl;
    [|naive_solver].
  destruct (includes Validator.validMultiplicities (prop "toMultiplicity" a)); simpl;
    naive_solver.
Qed.

Lemma validateAssociations_accepts (assocs : list Json.t) (i : nat)
    (classIds : list string) :
  Validator.validateAssociations assocs i classIds = Validator.Accepted ()
  ↔ Forall (Shape.association classIds) assocs.
Proof.
  revert i. induction assocs as [|a assocs IH]; intros i; simpl; [done|].
  rewrite Forall_cons, <-(IH (S i)), <-(validateUMLAssociation_accepts a i classIds).
  destruct (Validator.validateUMLAssociation a i classIds) as [[]|error]; naive_solver.
Qed.

Lemma validateUMLAssociationsJSON_accepts (jsonString : Json.Text)
    (classIds : list string) (assocs : list Json.t) :
  Validator.validateUMLAssociationsJSON jsonString classIds = Validator.Accepted assocs
  ↔ jsonString = Parsed (JArr assocs) ∧ Forall (Shape.association classIds) assocs.
Proof.
  unfold Validator.validateUMLAssociationsJSON.
  destruct jsonString as [parsed|message]; [|naive_solver].
  destruct parsed as [| | | |items|]; simpl; try naive_solver.
  rewrite <-(validateAssociations_accepts assocs 0 classIds).
  destruct (Validator.validateAssociations items 0 classIds) as [[]|error] eqn:Hv.
  - split; [by intros [= ->] | by intros [[= ->] _]].
  - split; [done | intros [[= ->] Hc]; congruence].
Qed.

End ValidatorFacts.

(* ===================================================================== *)
(** * What [JSON.stringify] keeps *)
(* ===================================================================== *)

Section RoundTripFacts.
Context `{Json.Engine}.
Import Json.
Implicit Types (v : option Json.t) (c a d w : Json.t) (fields : JsMap.t Json.t).

Lemma roundTrip_fields_get (k : string) fields :
  JsMap.get k (map (λ kv, let '(k, w) := kv in (k, roundTrip w)) fields)
  = roundTrip <$> JsMap.get k fields.
Proof.
  induction fields as [|[k' w] fields IH]; simpl; [done|]. by case_decide.
Qed.

Lemma roundTrip_fields_keys fields :
  JsMap.keys (map (λ kv, let '(k, w) := kv in (k, roundTrip w)) fields)
  = JsMap.keys fields.
Proof.
  unfold JsMap.keys. induction fields as [|[k' w] fields IH]; simpl; [done|].
  f_equal. exact IH.
Qed.

Lemma prop_roundTrip (k : string) c : prop k (roundTrip c) = roundTrip <$> prop k c.
Proof.
  destruct c as [| |n| | |fields]; simpl; try done.
  - by destruct (isFinite n).
  - apply roundTrip_fields_get.
Qed.

Lemma propOf_roundTrip (k : string) v :
  propOf k (roundTrip <$> v) = roundTrip <$> propOf k v.
Proof. destruct v as [w|]; simpl; [apply prop_roundTrip|done]. Qed.

Lemma roundTrip_str w (s : string) : roundTrip w = JStr s ↔ w = JStr s.
Proof. destruct w as [| |n| | |]; simpl; try done. by destruct (isFinite n). Qed.

Lemma roundTrip_arr w (items : list Json.t) :
  roundTrip w = JArr items ↔ ∃ l, w = JArr l ∧ items = map roundTrip l.
Proof.
  split.
  - destruct w as [| |n| |l|]; simpl; try done.
    + by destruct (isFinite n).
    + intros [= <-]. by exists l.
  - by intros (l & -> & ->).
Qed.

Lemma roundTrip_num w n :
  roundTrip w = JNum n ↔ w = JNum n ∧ isFinite n = true.
Proof.
  split.
  - destruct w as [| |m| | |]; simpl; try done.
    destruct (isFinite m) eqn:Hm; [|done]. by intros [= <-].
  - intros [-> Hfin]. simpl. by rewrite Hfin.
Qed.

Lemma text_roundTrip v : Shape.text (roundTrip <$> v) ↔ Shape.text v.
Proof.
  unfold Shape.text. destruct v as [w|]; simpl; [|naive_solver]. split.
  - intros (s & [= Hs] & Hne). apply (proj1 (roundTrip_str _ _)) in Hs. subst w. eauto.
  - intros (s & [= ->] & Hne). eauto.
Qed.

Lemma oneOf_roundTrip (l : list string) v :
  Shape.oneOf l (roundTrip <$> v) ↔ Shape.oneOf l v.
Proof.
  unfold Shape.oneOf. destruct v as [w|]; simpl; [|naive_solver]. split.
  - intros (s & [= Hs] & Hin). apply (proj1 (roundTrip_str _ _)) in Hs. subst w. eauto.
  - intros (s & [= ->] & Hin). eauto.
Qed.

Lemma number_roundTrip v : Shape.number (roundTrip <$> v) ↔ Shape.finite v.
Proof.
  unfold Shape.number, Shape.finite. destruct v as [w|]; simpl; [|naive_solver]. split.
  - intros (n & [= Hn]). apply (proj1 (roundTrip_num _ _)) in Hn as [-> Hfin]. eauto.
  - intros (n & [= ->] & Hfin). exists n. simpl. by rewrite Hfin.
Qed.

Lemma finite_roundTrip v : Shape.finite v → Shape.finite (roundTrip <$> v).
Proof. intros (n & -> & Hfin). exists n. simpl. by rewrite Hfin. Qed.

Lemma str_roundTrip v : str (roundTrip <$> v) = str v.
Proof. destruct v as [[| |n| | |]|]; simpl; try done. by destruct (isFinite n). Qed.

Lemma isArray_roundTrip v : isArray (roundTrip <$> v) = isArray v.
Proof. destruct v as [[| |n| | |]|]; simpl; try done. by destruct (isFinite n). Qed.

Lemma truthy_roundTrip v : truthy (roundTrip <$> v) = true → truthy v = true.
Proof. destruct v as [[| |n| | |]|]; simpl; try done. by destruct (isFinite n). Qed.

Lemma attribute_roundTrip a : Shape.attribute (roundTrip a) ↔ Shape.attribute a.
Proof.
  unfold Shape.attribute. by rewrite !prop_roundTrip, !text_roundTrip, oneOf_roundTrip.
Qed.

Lemma attributes_roundTrip (attrs : list Json.t) :
  Forall Shape.attribute (map roundTrip attrs) ↔ Forall Shape.attribute attrs.
Proof.
  rewrite Forall_fmap. apply Forall_proper; [|done]. intros a. apply attribute_roundTrip.
Qed.

Lemma attributes_prop_roundTrip c :
  (∃ attrs, prop "attributes" (roundTrip c) = Some (JArr attrs)
            ∧ Forall Shape.attribute attrs)
  ↔ (∃ attrs, prop "attributes" c = Some (JArr attrs) ∧ Forall Shape.attribute attrs).
Proof.
  rewrite prop_roundTrip. split.
  - intros (attrs & Hp & Hall). destruct (prop "attributes" c) as [w|]; [|done].
    simpl in Hp. injection Hp as Hp. apply (proj1 (roundTrip_arr _ _)) in Hp as (l & -> & ->).
    exists l. split; [done|]. by apply attributes_roundTrip.
  - intros (attrs & -> & Hall). exists (map roundTrip attrs).
    split; [done|]. by apply attributes_roundTrip.
Qed.

(** The classes that the validator of classes accepts once
    [JSON.stringify] has written them are the classes with finite
    coordinates. *)
Lemma class_roundTrip c : Shape.classWith Shape.number (roundTrip c) ↔ Shape.class c.
Proof.
  unfold Shape.class, Shape.classWith.
  rewrite attributes_prop_roundTrip.
  rewrite !prop_roundTrip, !propOf_roundTrip, !text_roundTrip, !number_roundTrip. done.
Qed.

Lemma classes_roundTrip (classes : list Json.t) :
  Forall (Shape.classWith Shape.number) (map roundTrip classes)
  ↔ Forall Shape.class classes.
Proof.
  rewrite Forall_fmap. apply Forall_proper; [|done]. intros c. apply class_roundTrip.
Qed.

Lemma class_stays c : Shape.class c → Shape.class (roundTrip c).
Proof.
  unfold Shape.class, Shape.classWith.
  rewrite attributes_prop_roundTrip.
  rewrite !prop_roundTrip, !propOf_roundTrip, !text_roundTrip.
  intros (? & ? & ? & ? & ?). split_and!; try done; by apply finite_roundTrip.
Qed.

Lemma association_roundTrip (classIds : list string) a :
  Shape.association classIds (roundTrip a) ↔ Shape.association classIds a.
Proof.
  unfold Shape.association.
  by rewrite !prop_roundTrip, !text_roundTrip, !oneOf_roundTrip.
Qed.

Lemma associations_roundTrip (classIds : list string) (assocs : list Json.t) :
  Forall (Shape.association classIds) (map roundTrip assocs)
  ↔ Forall (Shape.association classIds) assocs.
Proof.
  rewrite Forall_fmap. apply Forall_proper; [|done]. intros a.
  apply association_roundTrip.
Qed.

Lemma classIds_roundTrip (classes : list Json.t) :
  Shape.classIds (map roundTrip classes) = Shape.classIds classes.
Proof.
  unfold Shape.classIds. rewrite map_map. apply map_ext. intros c.
  by rewrite prop_roundTrip, str_roundTrip.
Qed.

End RoundTripFacts.

Section DiagramFacts.
Context `{Json.Engine}.
Import Json.
Implicit Types (v : option Json.t) (c a d : Json.t).

Lemma class_id_text c : Shape.class c → prop "id" c = Some (JStr (str (prop "id" c))).
Proof. intros ((s & Hs & _) & _). by rewrite Hs. Qed.

(** The check of [data.classes]: the validator of classes sees what
    [JSON.stringify] wrote of them. *)
Lemma classes_check d (seen : list Json.t) :
  Validator.validateUMLClassesJSON (reparse (prop "classes" d)) = Validator.Accepted seen
  ↔ ∃ classes, prop "classes" d = Some (JArr classes)
               ∧ seen = map roundTrip classes ∧ Forall Shape.class classes.
Proof.
  rewrite validateUMLClassesJSON_accepts. unfold reparse, stringify.
  destruct (prop "classes" d) as [w|]; [|naive_solver]. split.
  - intros [[= Hw] Hall]. apply (proj1 (roundTrip_arr _ _)) in Hw as (classes & -> & ->).
    exists classes. split_and!; [done|done|]. by apply classes_roundTrip.
  - intros (classes & [= ->] & -> & Hall). split; [done|]. by apply classes_roundTrip.
Qed.

Lemma associations_check (assocs seen : list Json.t) (classIds : list string) :
  Validator.validateUMLAssociationsJSON (reparse (Some (JArr assocs))) classIds
  = Validator.Accepted seen
  ↔ seen = map roundTrip assocs ∧ Forall (Shape.association classIds) assocs.
Proof.
  rewrite validateUMLAssociationsJSON_accepts. unfold reparse, stringify. simpl. split.
  - intros [[= <-] Hall]. split; [done|]. by apply associations_roundTrip.
  - intros [-> Hall]. split; [done|]. by apply associations_roundTrip.
Qed.

Lemma validateUMLDiagramJSON_accepts (jsonString : Json.Text) d :
  Validator.validateUMLDiagramJSON jsonString = Validator.Accepted d
  ↔ jsonString = Parsed d ∧ Shape.diagram d.
Proof.
  unfold Validator.validateUMLDiagramJSON, Shape.diagram.
  destruct jsonString as [data|message]; [|naive_solver].
  destruct (isNull data) eqn:Hnull.
  { split; [done|]. intros [[= ->] (classes & Hc & _)]. by destruct d. }
  destruct (Validator.validateUMLClassesJSON (reparse (prop "classes" data)))
    as [seen|error] eqn:Hclasses.
  - apply classes_check in Hclasses as (classes & Hc & -> & Hall).
    rewrite Hc. simpl elements. fold (Shape.classIds classes).
    destruct (truthy (prop "associations" data)) eqn:Htruthy.
    + destruct (isArray (prop "associations" data)) eqn:Harr; simpl.
      * destruct (prop "associations" data) as [[| | | |assocs|]|] eqn:Ha; try discriminate.
        destruct (Validator.validateUMLAssociationsJSON (reparse (Some (JArr assocs)))
                    (Shape.classIds classes)) as [l|error] eqn:Hassocs.
        -- apply associations_check in Hassocs as [-> Hl].
           split; [intros [= ->]|intros [[= ->] _]; done].
           split; [done|]. exists classes. rewrite Ha. naive_solver.
        -- split; [done|]. intros [[= ->] (classes' & Hc' & _ & Hshape)].
           rewrite Hc in Hc'. injection Hc' as <-.
           rewrite Ha in Hshape.
           destruct (Hshape Htruthy) as (assocs' & Ha' & Hl). injection Ha' as <-.
           assert (Validator.validateUMLAssociationsJSON (reparse (Some (JArr assocs)))
                     (Shape.classIds classes)
                   = Validator.Accepted (map roundTrip assocs)) as Hok
             by (by apply associations_check).
           congruence.
      * split; [done|]. intros [[= ->] (classes' & _ & _ & Hshape)].
        destruct (Hshape Htruthy) as (assocs & Ha & _). by rewrite Ha in Harr.
    + split; [intros [= ->]|intros [[= ->] _]; done].
      split; [done|]. exists classes. split_and!; [done|done|]. by rewrite Htruthy.
  - split; [done|]. intros [[= ->] (classes & Hc & Hall & _)].
    assert (Validator.validateUMLClassesJSON (reparse (prop "classes" d))
            = Validator.Accepted (map roundTrip classes)) as Hok.
    { apply classes_check. by exists classes. }
    congruence.
Qed.

(** A diagram is still one after [JSON.stringify] has written it, with the
    same class ids. *)
Lemma diagram_stays d : Shape.diagram d → Shape.diagram (roundTrip d).
Proof.
  intros (classes & Hc & Hall & Hassocs). exists (map roundTrip classes).
  rewrite !prop_roundTrip, Hc. split_and!.
  - done.
  - rewrite Forall_fmap. eapply Forall_impl; [exact Hall|]. intros c. apply class_stays.
  - intros Htruthy%truthy_roundTrip.
    destruct (Hassocs Htruthy) as (assocs & -> & Hl). exists (map roundTrip assocs).
    split; [done|]. rewrite classIds_roundTrip. by apply associations_roundTrip.
Qed.

End DiagramFacts.

(** X20.  What [validateUMLDiagramJSON] accepts.  A text is accepted
    exactly when it is JSON for an object whose [classes] is an array of
    classes, each with a non-empty string [id], a non-empty string [name],
    an array [attributes] of attributes (non-empty strings [id] and [name],
    a [type] among the seven allowed) and a [position] with finite numbers
    [x] and [y], and whose [associations], if it has any, is an array of
    associations, each with non-empty strings [id], [fromClassId] and
    [toClassId], the two ends among the ids of the classes, and a kind and
    two multiplicities among the allowed ones.  A coordinate that
    [JSON.parse] read as [Infinity] does not do: the classes are checked
    on the copy that [JSON.stringify] wrote, in which it is [null].  The
    value accepted is the value of the text, and in it both ends of every
    association are ids of classes of the diagram. *)
Theorem validator_accepts_well_formed_diagrams `{Json.Engine}
    (jsonString : Json.Text) (data : Json.t) :
  (Validator.validateUMLDiagramJSON jsonString = Validator.Accepted data
   ↔ jsonString = Json.Parsed data ∧ Shape.diagram data)
  ∧ (Validator.validateUMLDiagramJSON jsonString = Validator.Accepted data →
     ∀ classes,
       Json.prop "classes" data = Some (Json.JArr classes) →
       (∀ cls, cls ∈ classes →
          ∃ x y, Json.propOf "x" (Json.prop "position" cls) = Some (Json.JNum x)
                 ∧ Json.propOf "y" (Json.prop "position" cls) = Some (Json.JNum y)
                 ∧ Json.isFinite x = true ∧ Json.isFinite y = true)
       ∧ ∀ assocs assoc,
           Json.prop "associations" data = Some (Json.JArr assocs) →
           assoc ∈ assocs →
           (∃ cls, cls ∈ classes ∧ Json.prop "id" cls = Json.prop "fromClassId" assoc)
           ∧ (∃ cls, cls ∈ classes ∧ Json.prop "id" cls = Json.prop "toClassId" assoc)).
Proof.
  split; [apply validateUMLDiagramJSON_accepts|].
  intros [_ (classes' & Hc' & Hall & Hshape)]%validateUMLDiagramJSON_accepts.
  intros classes Hc. rewrite Hc in Hc'. injection Hc' as <-.
  rewrite Forall_forall in Hall. split.
  - intros cls Hin.
    destruct (Hall cls Hin) as (_ & _ & _ & (x & Hx & Hfx) & (y & Hy & Hfy)).
    by exists x, y.
  - intros assocs assoc Ha Hin.
    rewrite Ha in Hshape. destruct (Hshape eq_refl) as (assocs' & [= <-] & Hl).
    rewrite Forall_forall in Hl.
    destruct (Hl assoc Hin) as (_ & _ & _ & (f & Hf & Hfin) & (t & Ht & Htin) & _).
    unfold Shape.classIds in Hfin, Htin.
    apply list_elem_of_fmap in Hfin as (cf & -> & Hcf).
    apply list_elem_of_fmap in Htin as (ct & -> & Hct).
    split; [exists cf|exists ct]; (split; [done|]).
    + rewrite Hf. by apply class_id_text, Hall.
    + rewrite Ht. by apply class_id_text, Hall.
Qed.

(* ===================================================================== *)
(** * Repairing positions *)
(* ===================================================================== *)

Section FixFacts.
Context `{Json.Engine}.
Import Json.
Implicit Types (v : option Json.t) (c d w : Json.t) (fields : JsMap.t Json.t).

Lemma set_same {V : Type} (k : string) (x : V) (m : JsMap.t V) :
  JsMap.get k m = Some x → JsMap.set k x m = m.
Proof.
  induction m as [|[k' x'] m IH]; simpl; [done|].
  case_decide; [by intros [= ->]|]. intros Hg. by rewrite IH.
Qed.

Lemma repaired_position x y fields :
  JsMap.get "position" (Fix.repaired x y fields) = Some (JObj [("x", x); ("y", y)]).
Proof. unfold Fix.repaired. by rewrite !get_delete_ne, get_set_eq. Qed.

Lemma repaired_other x y fields (k : string) :
  k ≠ "x" → k ≠ "y" → k ≠ "position" →
  JsMap.get k (Fix.repaired x y fields) = JsMap.get k fields.
Proof.
  intros Hx Hy Hp. unfold Fix.repaired.
  rewrite !get_delete_ne, get_set_ne by done. done.
Qed.

Lemma repaired_coordinates x y fields :
  NoDup (JsMap.keys fields) →
  JsMap.get "x" (Fix.repaired x y fields) = None
  ∧ JsMap.get "y" (Fix.repaired x y fields) = None.
Proof.
  intros Hnd. unfold Fix.repaired.
  assert (NoDup (JsMap.keys (JsMap.set "position" (JObj [("x", x); ("y", y)]) fields)))
    as Hnd' by (by apply keys_set_NoDup).
  split.
  - rewrite get_delete_ne by done. by apply get_delete_eq.
  - apply get_delete_eq. unfold JsMap.keys.
    eapply sublist_NoDup; [exact Hnd'|]. apply fmap_sublist, delete_sublist.
Qed.

(** What [fixClass] returns: the class as it is, or the class repaired. *)
Lemma fixClass_cases c c' :
  Fix.fixClass c = Done c' →
  c' = c
  ∨ ∃ fields x y, c = JObj fields ∧ c' = JObj (Fix.repaired x y fields)
                  ∧ JsMap.get "x" fields = Some x ∧ JsMap.get "y" fields = Some y
                  ∧ truthy (JsMap.get "position" fields) = false.
Proof.
  unfold Fix.fixClass. destruct (isNull c); [done|].
  destruct (prop "x" c) as [x|] eqn:Hx; [|intros [= <-]; by left].
  destruct (prop "y" c) as [y|] eqn:Hy; [|intros [= <-]; by left].
  destruct (truthy (prop "position" c)) eqn:Hp; simpl; [intros [= <-]; by left|].
  destruct c as [| | | | |fields]; try (intros [= <-]; by left).
  intros [= <-]. right. by exists fields, x, y.
Qed.

Lemma fixClass_unchanged c :
  isNull c = false → truthy (prop "position" c) = true → Fix.fixClass c = Done c.
Proof.
  intros Hn Hp. unfold Fix.fixClass. rewrite Hn, Hp. simpl.
  by destruct (prop "x" c), (prop "y" c).
Qed.

Lemma fixClass_again c c' : Fix.fixClass c = Done c' → Fix.fixClass c' = Done c'.
Proof.
  intros Hfix. destruct (fixClass_cases c c' Hfix)
    as [->|(fields & x & y & -> & -> & _)]; [done|].
  apply fixClass_unchanged; [done|]. simpl. by rewrite repaired_position.
Qed.

Lemma fixClasses_again (classes classes' : list Json.t) :
  Fix.fixClasses classes = Done classes' → Fix.fixClasses classes' = Done classes'.
Proof.
  revert classes'. induction classes as [|c classes IH]; intros classes'; simpl.
  - by intros [= <-].
  - destruct (Fix.fixClass c) as [c'|] eqn:Hc; [|done].
    destruct (Fix.fixClasses classes) as [rest'|] eqn:Hrest; [|done].
    intros [= <-]. simpl. by rewrite (fixClass_again c c' Hc), (IH rest' eq_refl).
Qed.

Lemma fixClass_class c : Shape.class c → Fix.fixClass c = Done c.
Proof.
  intros Hc. apply fixClass_unchanged.
  - destruct Hc as ((s & Hs & _) & _). by destruct c.
  - destruct Hc as (_ & _ & _ & Hx & _). by apply number_position, finite_number.
Qed.

Lemma fixClasses_classes (classes : list Json.t) :
  Forall Shape.class classes → Fix.fixClasses classes = Done classes.
Proof.
  induction 1 as [|c classes Hc Hall IH]; simpl; [done|].
  by rewrite (fixClass_class c Hc), IH.
Qed.

(** The repair of a class written with [x] and [y]. *)
Lemma fixClass_flat c :
  Shape.flatClass c →
  ∃ c', Fix.fixClass c = Done c' ∧ Shape.class c'
        ∧ prop "id" c' = prop "id" c
        ∧ prop "x" c' = None ∧ prop "y" c' = None.
Proof.
  intros (fields & -> & Hnd & Hid & Hname & Hattrs & (x & Hx & Hfx) & (y & Hy & Hfy) & Hp).
  simpl in *. exists (JObj (Fix.repaired (JNum x) (JNum y) fields)).
  destruct (repaired_coordinates (JNum x) (JNum y) fields Hnd) as [Hgx Hgy].
  split_and!; try done.
  - unfold Fix.fixClass. simpl. by rewrite Hx, Hy, Hp.
  - unfold Shape.class, Shape.classWith. simpl.
    rewrite !repaired_other, repaired_position by done. simpl.
    split_and!; try done; unfold Shape.finite; eauto.
  - simpl. by rewrite repaired_other.
Qed.

Lemma fixClasses_mixed (classes : list Json.t) :
  Forall (λ c, Shape.class c ∨ Shape.flatClass c) classes →
  ∃ classes', Fix.fixClasses classes = Done classes'
              ∧ Forall Shape.class classes'
              ∧ Shape.classIds classes' = Shape.classIds classes.
Proof.
  induction 1 as [|c classes Hc Hall (rest' & Hrest & Hok & Hids)]; simpl.
  - by exists [].
  - destruct Hc as [Hc|Hc].
    + exists (c :: rest'). rewrite (fixClass_class c Hc), Hrest.
      split_and!; [done|by constructor|]. simpl. by rewrite Hids.
    + destruct (fixClass_flat c Hc) as (c' & Hfix & Hc' & Hid & _).
      exists (c' :: rest'). rewrite Hfix, Hrest.
      split_and!; [done|by constructor|]. simpl. by rewrite Hids, Hid.
Qed.

Lemma flat_not_class c : Shape.flatClass c → ¬ Shape.class c.
Proof.
  intros (fields & -> & _ & _ & _ & _ & _ & _ & Hp) (_ & _ & _ & (n & Hn & _) & _).
  simpl in *. by rewrite Hp in Hn.
Qed.

Lemma fixClasses_null (classes : list Json.t) :
  JNull ∈ classes → ∃ message, Fix.fixClasses classes = Thrown message.
Proof.
  induction classes as [|c classes IH]; [by intros ?%elem_of_nil|].
  intros [<-|Hin]%elem_of_cons; simpl.
  - eauto.
  - destruct (Fix.fixClass c); [|eauto]. destruct (IH Hin) as (m & ->). eauto.
Qed.

(** The ways of [fixPositionFormat]: the text comes back as it is, or the
    value is written as it is, or it is written with its classes
    repaired. *)
Lemma fixPositionFormat_cases (jsonString : Json.Text) :
  Fix.fixPositionFormat jsonString = jsonString
  ∨ (∃ parsed, jsonString = Parsed parsed ∧ isArray (prop "classes" parsed) = false
               ∧ Fix.fixPositionFormat jsonString = stringify parsed)
  ∨ ∃ fields classes classes',
      jsonString = Parsed (JObj fields)
      ∧ JsMap.get "classes" fields = Some (JArr classes)
      ∧ Fix.fixClasses classes = Done classes'
      ∧ Fix.fixPositionFormat jsonString
        = stringify (JObj (JsMap.set "classes" (JArr classes') fields)).
Proof.
  unfold Fix.fixPositionFormat. destruct jsonString as [parsed|message]; [|by left].
  destruct (isNull parsed); [by left|].
  destruct (isArray (prop "classes" parsed)) eqn:Harr.
  - destruct parsed as [| | | | |fields]; try done. simpl in *.
    destruct (JsMap.get "classes" fields) as [[| | | |classes|]|] eqn:Hc; try done.
    simpl. destruct (Fix.fixClasses classes) as [classes'|message] eqn:Hfix; [|by left].
    right. right. by exists fields, classes, classes'.
  - rewrite andb_false_r. right. left. by exists parsed.
Qed.

End FixFacts.

(* ===================================================================== *)
(** * Values that [JSON.stringify] writes as they are *)
(* ===================================================================== *)

Section NormalFacts.
Context `{Json.Engine}.
Import Json.
Implicit Types (v : option Json.t) (c d w : Json.t) (fields : JsMap.t Json.t).

Lemma json_ind (P : Json.t → Prop) :
  P JNull → (∀ b, P (JBool b)) → (∀ n, P (JNum n)) → (∀ s, P (JStr s)) →
  (∀ items, Forall P items → P (JArr items)) →
  (∀ fields, Forall (λ kv, P kv.2) fields → P (JObj fields)) →
  ∀ w, P w.
Proof.
  intros Hnull Hbool Hnum Hstr Harr Hobj.
  fix IH 1. intros [|b|n|s|items|fields].
  - exact Hnull.
  - apply Hbool.
  - apply Hnum.
  - apply Hstr.
  - apply Harr. induction items as [|w items IHitems]; constructor; [apply IH|exact IHitems].
  - apply Hobj. induction fields as [|[k w] fields IHfields]; constructor;
      [apply IH|exact IHfields].
Qed.

Lemma roundTrip_idem w : roundTrip (roundTrip w) = roundTrip w.
Proof.
  induction w as [|b|n|s|items IH|fields IH] using json_ind; simpl; try done.
  - destruct (isFinite n) eqn:Hn; simpl; [by rewrite Hn|done].
  - f_equal. rewrite map_map. apply map_ext_Forall. exact IH.
  - f_equal. rewrite map_map. apply map_ext_Forall.
    eapply Forall_impl; [exact IH|]. intros [k w] Hw. simpl in *. by rewrite Hw.
Qed.

Lemma normal_fields fields :
  roundTrip (JObj fields) = JObj fields ↔ Forall (λ kv, roundTrip kv.2 = kv.2) fields.
Proof.
  simpl. split.
  - intros [= Hmap]. induction fields as [|[k w] fields IH]; [constructor|].
    simpl in Hmap. injection Hmap as Hw Hrest. constructor; [done|by apply IH].
  - intros Hall. f_equal. induction Hall as [|[k w] fields Hw Hall IH]; [done|].
    simpl in *. by rewrite Hw, IH.
Qed.

Lemma normal_items (items : list Json.t) :
  roundTrip (JArr items) = JArr items ↔ Forall (λ w, roundTrip w = w) items.
Proof.
  simpl. split.
  - intros [= Hmap]. induction items as [|w items IH]; [constructor|].
    simpl in Hmap. injection Hmap as Hw Hrest. constructor; [done|by apply IH].
  - intros Hall. f_equal. induction Hall as [|w items Hw Hall IH]; [done|].
    simpl. by rewrite Hw, IH.
Qed.

Lemma Forall_set {V : Type} (P : string * V → Prop) (k : string) (x : V) (m : JsMap.t V) :
  (∀ k', P (k', x)) → Forall P m → Forall P (JsMap.set k x m).
Proof.
  intros Hx Hm. induction Hm as [|[k' x'] m Hk' Hm IH]; simpl.
  - by constructor.
  - case_decide; by constructor.
Qed.

Lemma Forall_delete {V : Type} (P : string * V → Prop) (k : string) (m : JsMap.t V) :
  Forall P m → Forall P (JsMap.delete k m).
Proof.
  intros Hm. induction Hm as [|[k' x'] m Hk' Hm IH]; simpl; [constructor|].
  case_decide; [done|by constructor].
Qed.

Lemma Forall_get {V : Type} (P : string * V → Prop) (k : string) (x : V) (m : JsMap.t V) :
  Forall P m → JsMap.get k m = Some x → ∃ k', P (k', x).
Proof.
  intros Hm. induction Hm as [|[k' x'] m Hk' Hm IH]; simpl; [done|].
  case_decide; [intros [= <-]; eauto|done].
Qed.

Lemma fixClass_normal c c' :
  roundTrip c = c → Fix.fixClass c = Done c' → roundTrip c' = c'.
Proof.
  intros Hc Hfix. destruct (fixClass_cases c c' Hfix)
    as [->|(fields & x & y & -> & -> & Hx & Hy & _)]; [done|].
  apply normal_fields in Hc. apply normal_fields. unfold Fix.repaired.
  destruct (Forall_get _ _ _ _ Hc Hx) as (? & Hnx).
  destruct (Forall_get _ _ _ _ Hc Hy) as (? & Hny). simpl in Hnx, Hny.
  apply Forall_delete, Forall_delete, Forall_set; [|done].
  intros k'. simpl. by rewrite Hnx, Hny.
Qed.

Lemma fixClasses_normal (classes classes' : list Json.t) :
  Forall (λ w, roundTrip w = w) classes →
  Fix.fixClasses classes = Done classes' →
  Forall (λ w, roundTrip w = w) classes'.
Proof.
  intros Hall. revert classes'.
  induction Hall as [|c classes Hc Hall IH]; intros classes'; simpl.
  - intros [= <-]. constructor.
  - destruct (Fix.fixClass c) as [c'|] eqn:Hfix; [|done].
    destruct (Fix.fixClasses classes) as [rest'|] eqn:Hrest; [|done].
    intros [= <-]. constructor; [by eapply fixClass_normal|by apply IH].
Qed.

(** On a value that [JSON.stringify] writes as it is, repairing twice is
    repairing once. *)
Lemma fixPositionFormat_normal w :
  roundTrip w = w →
  Fix.fixPositionFormat (Fix.fixPositionFormat (Parsed w)) = Fix.fixPositionFormat (Parsed w).
Proof.
  intros Hw.
  destruct (fixPositionFormat_cases (Parsed w))
    as [Hsame|[(parsed & [= <-] & Harr & Hfix)
              |(fields & classes & classes' & [= ->] & Hc & Hfix & Hout)]].
  - by rewrite !Hsame.
  - rewrite Hfix. unfold stringify. rewrite Hw. rewrite Hfix. unfold stringify.
    by rewrite Hw.
  - assert (roundTrip (JObj (JsMap.set "classes" (JArr classes') fields))
            = JObj (JsMap.set "classes" (JArr classes') fields)) as Hnormal.
    { apply normal_fields. apply normal_fields in Hw. apply Forall_set; [|done].
      intros k'. apply normal_items. eapply fixClasses_normal; [|exact Hfix].
      destruct (Forall_get _ _ _ _ Hw Hc) as (? & Hcl). by apply normal_items. }
    rewrite Hout. unfold stringify. rewrite Hnormal.
    unfold Fix.fixPositionFormat. simpl. rewrite get_set_eq. simpl.
    rewrite (fixClasses_again _ _ Hfix).
    rewrite (set_same "classes" (JArr classes')) by apply get_set_eq.
    unfold stringify. by rewrite Hnormal.
Qed.

Lemma fixPositionFormat_thrice (jsonString : Json.Text) :
  Fix.fixPositionFormat (Fix.fixPositionFormat (Fix.fixPositionFormat jsonString))
  = Fix.fixPositionFormat (Fix.fixPositionFormat jsonString).
Proof.
  destruct (fixPositionFormat_cases jsonString)
    as [Hsame|[(parsed & -> & Harr & Hfix)
              |(fields & classes & classes' & -> & Hc & Hfix & Hout)]].
  - by rewrite !Hsame.
  - rewrite Hfix. apply fixPositionFormat_normal, roundTrip_idem.
  - rewrite Hout. apply fixPositionFormat_normal, roundTrip_idem.
Qed.

End NormalFacts.

(** X21.  What [fixPositionFormat] does to an answer that needs no repair,
    and how often it has to run.  The text of a diagram that the validator
    accepts comes back as [JSON.stringify] writes its value, and is
    accepted again.  A text that is not JSON, the text [null] and a text
    with a [null] among its classes come back as they are.  Repairing
    twice is repairing once on a text without a number out of range, but
    not on every text: a class with finite [x] and [y] whose [position] is
    a number out of range is left alone by the first run, which writes
    [null] for its position, and is repaired by the second.  From the
    second run on nothing changes any more. *)
Theorem fixPositionFormat_stable `{Json.Engine} :
  (∀ jsonString data,
     Validator.validateUMLDiagramJSON jsonString = Validator.Accepted data →
     Fix.fixPositionFormat jsonString = Json.stringify data
     ∧ Validator.validateUMLDiagramJSON (Fix.fixPositionFormat jsonString)
       = Validator.Accepted (Json.roundTrip data))
  ∧ (∀ message, Fix.fixPositionFormat (Json.Malformed message) = Json.Malformed message)
  ∧ Fix.fixPositionFormat (Json.Parsed Json.JNull) = Json.Parsed Json.JNull
  ∧ (∀ fields classes,
       JsMap.get "classes" fields = Some (Json.JArr classes) → Json.JNull ∈ classes →
       Fix.fixPositionFormat (Json.Parsed (Json.JObj fields))
       = Json.Parsed (Json.JObj fields))
  ∧ (∀ data,
       Json.roundTrip data = data →
       Fix.fixPositionFormat (Fix.fixPositionFormat (Json.Parsed data))
       = Fix.fixPositionFormat (Json.Parsed data))
  ∧ (∀ x y n,
       Json.isFinite x = true → Json.isFinite y = true →
       Json.isFinite n = false → Json.isZero n = false →
       let answer cls := Json.Parsed (Json.JObj [("classes", Json.JArr [cls])]) in
       let once :=
         Fix.fixPositionFormat
           (answer (Json.JObj [("x", Json.JNum x); ("y", Json.JNum y);
                               ("position", Json.JNum n)])) in
       once
       = answer (Json.JObj [("x", Json.JNum x); ("y", Json.JNum y);
                            ("position", Json.JNull)])
       ∧ Fix.fixPositionFormat once
         = answer (Json.JObj
                     [("position", Json.JObj [("x", Json.JNum x); ("y", Json.JNum y)])])
       ∧ Fix.fixPositionFormat once ≠ once)
  ∧ (∀ jsonString,
       Fix.fixPositionFormat (Fix.fixPositionFormat (Fix.fixPositionFormat jsonString))
       = Fix.fixPositionFormat (Fix.fixPositionFormat jsonString)).
Proof.
  split_and!.
  - intros jsonString data Hv.
    assert (Hshape := Hv). apply validateUMLDiagramJSON_accepts in Hshape as [-> Hd].
    assert (Fix.fixPositionFormat (Json.Parsed data) = Json.stringify data) as Hfix.
    { destruct Hd as (classes & Hc & Hall & _).
      unfold Fix.fixPositionFormat. destruct data as [| | | | |fields]; try done.
      simpl in *. rewrite Hc. simpl. rewrite (fixClasses_classes classes Hall).
      by rewrite set_same. }
    split; [exact Hfix|]. rewrite Hfix. apply validateUMLDiagramJSON_accepts.
    split; [done|]. by apply diagram_stays.
  - done.
  - done.
  - intros fields classes Hc Hnull. unfold Fix.fixPositionFormat. simpl. rewrite Hc. simpl.
    by destruct (fixClasses_null classes Hnull) as (message & ->).
  - intros data. apply fixPositionFormat_normal.
  - intros x y n Hx Hy Hn Hz. cbv zeta.
    unfold Fix.fixPositionFormat, Fix.fixClasses, Fix.fixClass, Json.stringify. simpl.
    rewrite Hz. simpl. rewrite Hx, Hy, Hn. simpl. rewrite Hx, Hy. done.
  - apply fixPositionFormat_thrice.
Qed.

(** X22.  [fixPositionFormat] makes an answer acceptable whose classes
    carry [x] and [y] beside their other fields instead of a [position].
    Take the text of an object whose [classes] is an array of classes each
    of which is either as the validator wants it or is so except that it
    has finite numbers [x] and [y] and no [position], and whose
    [associations], if any, are as the validator wants them.  The repaired
    text is accepted, with the same class ids and with the associations as
    [JSON.stringify] writes them; the text itself is rejected as soon as
    one class is of the second kind. *)
Theorem fixPositionFormat_repairs `{Json.Engine} (data : Json.t) (classes : list Json.t) :
  Json.prop "classes" data = Some (Json.JArr classes) →
  Forall (λ c, Shape.class c ∨ Shape.flatClass c) classes →
  (Json.truthy (Json.prop "associations" data) = true →
   ∃ assocs, Json.prop "associations" data = Some (Json.JArr assocs)
             ∧ Forall (Shape.association (Shape.classIds classes)) assocs) →
  (∃ data' classes',
     Fix.fixPositionFormat (Json.Parsed data) = Json.Parsed data'
     ∧ Validator.validateUMLDiagramJSON (Json.Parsed data') = Validator.Accepted data'
     ∧ Json.prop "classes" data' = Some (Json.JArr classes')
     ∧ Forall Shape.class classes'
     ∧ Shape.classIds classes' = Shape.classIds classes
     ∧ Json.prop "associations" data'
       = Json.roundTrip <$> Json.prop "associations" data)
  ∧ (Exists Shape.flatClass classes →
     ∃ error, Validator.validateUMLDiagramJSON (Json.Parsed data)
              = Validator.Rejected error).
Proof.
  intros Hc Hmixed Hassocs. split.
  - destruct (fixClasses_mixed classes Hmixed) as (classes' & Hfix & Hall & Hids).
    destruct data as [| | | | |fields]; try done. simpl in Hc, Hassocs.
    assert (Shape.diagram (Json.JObj (JsMap.set "classes" (Json.JArr classes') fields)))
      as Hd.
    { exists classes'. simpl. rewrite get_set_eq, get_set_ne, Hids by done. done. }
    exists (Json.roundTrip (Json.JObj (JsMap.set "classes" (Json.JArr classes') fields))),
      (map Json.roundTrip classes').
    split_and!.
    + unfold Fix.fixPositionFormat. simpl. rewrite Hc. simpl. by rewrite Hfix.
    + apply validateUMLDiagramJSON_accepts. split; [done|]. by apply diagram_stays.
    + rewrite prop_roundTrip. simpl. by rewrite get_set_eq.
    + rewrite Forall_fmap. eapply Forall_impl; [exact Hall|]. intros c. apply class_stays.
    + by rewrite classIds_roundTrip.
    + rewrite prop_roundTrip. simpl. by rewrite get_set_ne.
  - intros Hflat.
    destruct (Validator.validateUMLDiagramJSON (Json.Parsed data)) as [d|error] eqn:Hv;
      [|by exists error].
    apply validateUMLDiagramJSON_accepts in Hv as [[= <-] (classes' & Hc' & Hall & _)].
    rewrite Hc in Hc'. injection Hc' as <-.
    apply Exists_exists in Hflat as (c & Hin & Hflat).
    rewrite Forall_forall in Hall. by destruct (flat_not_class c Hflat (Hall c Hin)).
Qed.

(* ===================================================================== *)
(** * A modification that succeeds *)
(* ===================================================================== *)

Lemma viaMap_NoDup {A : Type} `{HasId A} (l : list A) : NoDup (ids (Dedup.viaMap l)).
Proof. rewrite viaMap_ids. apply filterSeen_NoDup. Qed.

(** X23.  A modification round whose answer passes validation.  The
    request was made with the classes and associations that the panel had
    at the click; the answer reaches the panel and the page as they are by
    then.  When the answer has associations, the page shows exactly what
    the merge engine returned for the diagram of the request (the filter
    of [handleModifyDiagram] has nothing to drop): no id is repeated,
    every class of the request is there under its id, every class shown
    has the id of a class of the request or of the answer, whatever the
    page held in the meantime, and the selection, the drag state and the
    timers of the page are untouched.  The panel is reset: prompt emptied,
    modification mode off, no error and nothing in its red box.  When the
    answer has no array of [associations], [.map] throws and the [catch]
    block answers: with the overload failure if the message of the error
    has "overloaded" in it, else with the failure that carries the message.
    The panel stores [response.error || response.message], which is the
    message of the error in the second case, keeps the prompt and the
    mode, and renders nothing of it while in modification mode; the page
    stays as it is. *)
Theorem modify_valid_answer_shows_merge `{JS.Lowering} `{Gemini.MapError}
    (validation : Gemini.Validation) (d : Gemini.UMLDiagramJSON)
    (existingClasses : list UMLClass.t) (existingAssociations : list Association.t)
    (panel : AiPanel.State) (page : Editor.State) :
  Gemini.isValid validation = true →
  Gemini.validatedDiagram validation = Some d →
  let out :=
    AiPanel.modifyRound validation existingClasses existingAssociations panel page in
  match Gemini.jsonAssociations d with
  | Some assocs =>
      let r := Merge.mergeDiagramModifications existingClasses existingAssociations
                 (Gemini.jsonClasses d) (map Gemini.toAssociation assocs) in
      out.1 = {| AiPanel.isChatMode := AiPanel.isChatMode panel;
                 AiPanel.modificationPrompt := ""; AiPanel.modificationMode := false;
                 AiPanel.error := None; AiPanel.isModifying := false |}
      ∧ AiPanel.errorBox out.1 = None
      ∧ Editor.classes out.2 = Merge.resultClasses r
      ∧ Editor.associations out.2 = Merge.resultAssociations r
      ∧ Page.uniqueIds out.2
      ∧ (∀ k, k ∈ ids existingClasses → k ∈ ids (Editor.classes out.2))
      ∧ (∀ k, k ∈ ids (Editor.classes out.2) →
              k ∈ ids existingClasses ∨ k ∈ ids (Gemini.jsonClasses d))
      ∧ Editor.selectedClass out.2 = Editor.selectedClass page
      ∧ Editor.isDraggingRef out.2 = Editor.isDraggingRef page
      ∧ Editor.dragTimeoutRef out.2 = Editor.dragTimeoutRef page
      ∧ Editor.timers out.2 = Editor.timers page
  | None =>
      let response := Gemini.caughtError Gemini.mapError in
      out = ({| AiPanel.isChatMode := AiPanel.isChatMode panel;
                AiPanel.modificationPrompt := AiPanel.modificationPrompt panel;
                AiPanel.modificationMode := AiPanel.modificationMode panel;
                AiPanel.error := Some (AiPanel.errorMsg response);
                AiPanel.isModifying := false |}, page)
      ∧ (JS.includes "overloaded" Gemini.mapError = true →
         response
         = {| Gemini.success := false; Gemini.diagram := None;
              Gemini.message :=
                "El modelo de IA está sobrecargado. Por favor, intenta de nuevo en unos momentos.";
              Gemini.error :=
                Some "Modelo sobrecargado - Servicio temporalmente no disponible" |})
      ∧ (JS.includes "overloaded" Gemini.mapError = false →
         response
         = {| Gemini.success := false; Gemini.diagram := None;
              Gemini.message := "Error modifying diagram with AI service";
              Gemini.error := Some Gemini.mapError |}
         ∧ (Gemini.mapError ≠ "" → AiPanel.errorMsg response = Gemini.mapError))
      ∧ (AiPanel.modificationMode panel = true → AiPanel.errorBox out.1 = None)
  end.
Proof.
  intros Hvalid Hd. cbv zeta.
  unfold AiPanel.modifyRound, Gemini.modifyExistingDiagram. rewrite Hvalid, Hd.
  destruct (Gemini.jsonAssociations d) as [assocs|].
  - unfold AiPanel.handleModifyDiagram, Editor.handleModifyDiagram.
    cbn [Gemini.success Gemini.diagram Gemini.classes Gemini.associations fst snd
         Merge.resultClasses Merge.resultAssociations Merge.mergeDiagramModifications
         Editor.classes Editor.associations Editor.setClasses Editor.setAssociations
         Editor.selectedClass Editor.isDraggingRef Editor.dragTimeoutRef Editor.timers].
    unfold Merge.finalClasses, Merge.finalAssociations.
    rewrite !uniqueById_id by apply viaMap_NoDup.
    split_and!; try reflexivity.
    + unfold AiPanel.errorBox. simpl. by destruct (AiPanel.isChatMode panel).
    + split; apply viaMap_NoDup.
    + intros k Hk. rewrite viaMap_ids_elem. by apply existing_ids_survive.
    + intros k Hk. rewrite viaMap_ids_elem in Hk. by apply mergedClassList_id_origin.
  - assert (Gemini.success (Gemini.caughtError Gemini.mapError) = false) as Hfail
      by (unfold Gemini.caughtError; by destruct (JS.includes _ _)).
    unfold AiPanel.handleModifyDiagram. rewrite Hfail. split_and!.
    + reflexivity.
    + intros Hover. unfold Gemini.caughtError. by rewrite Hover.
    + intros Hover. unfold Gemini.caughtError. rewrite Hover. split; [done|].
      intros Hne. unfold AiPanel.errorMsg, JS.orStr. simpl.
      destruct (String.eqb_spec Gemini.mapError ""); [done|].
      by destruct (String.eqb_spec Gemini.mapError "").
    + intros Hmode. unfold AiPanel.errorBox. simpl. rewrite Hmode.
      by destruct (AiPanel.isChatMode panel).
Qed.

Section modify_valid_answer_examples.
#[local] Existing Instance Sample.lowering.
#[local] Existing Instance Sample.mapOfUndefined.

(** The request was made for the classes A and B; by the time the answer
    comes, a class Z has joined the page, and it is gone afterwards. *)
Lemma modify_valid_answer_shows_merge_witness :
  Editor.classes
    (AiPanel.modifyRound
       {| Gemini.isValid := true;
          Gemini.validatedDiagram :=
            Some {| Gemini.jsonClasses := [Sample.cls "B" "Account"; Sample.cls "C" "C"];
                    Gemini.jsonAssociations := Some [] |};
          Gemini.validationError := None |}
       (Editor.classes Sample.pageAB) (Editor.associations Sample.pageAB)
       {| AiPanel.isChatMode := false;
          AiPanel.modificationPrompt := "rename B"; AiPanel.modificationMode := true;
          AiPanel.error := None; AiPanel.isModifying := true |}
       (Page.addClass (Sample.cls "Z" "Z") Sample.pageAB)).2
  = [Sample.cls "B" "Account"; Sample.cls "C" "C"; Sample.cls "A" "A"].
Proof.
  refine (eq_trans
            (proj1 (proj2 (proj2
               (modify_valid_answer_shows_merge
                  {| Gemini.isValid := true;
                     Gemini.validatedDiagram :=
                       Some {| Gemini.jsonClasses :=
                                 [Sample.cls "B" "Account"; Sample.cls "C" "C"];
                               Gemini.jsonAssociations := Some [] |};
                     Gemini.validationError := None |}
                  {| Gemini.jsonClasses := [Sample.cls "B" "Account"; Sample.cls "C" "C"];
                     Gemini.jsonAssociations := Some [] |}
                  (Editor.classes Sample.pageAB) (Editor.associations Sample.pageAB)
                  {| AiPanel.isChatMode := false;
                     AiPanel.modificationPrompt := "rename B";
                     AiPanel.modificationMode := true;
                     AiPanel.error := None; AiPanel.isModifying := true |}
                  (Page.addClass (Sample.cls "Z" "Z") Sample.pageAB) _ _)))) _).
  - reflexivity.
  - reflexivity.
  - reflexivity.
Defined.

End modify_valid_answer_examples.

(* ===================================================================== *)
(** * Errors of the AI service *)
(* ===================================================================== *)

Section ServiceFacts.

Lemma caught_fails (error : Retry.ApiError) :
  Gemini.success (Service.caught error) = false
  ∧ Gemini.diagram (Service.caught error) = None.
Proof.
  unfold Service.caught. cbv zeta.
  destruct (_ || _ || _ || _); [done|].
  destruct (bool_decide _); [done|]. by destruct (_ || _).
Qed.

(** The [catch] block on an error without an [error] property, such as
    the [TypeError] of [.map]. *)
Lemma caughtError_caught (message : string) :
  Gemini.caughtError message
  = Service.caught {| Retry.code := None; Retry.status := None;
                      Retry.message := message |}.
Proof.
  unfold Gemini.caughtError, Service.caught, Service.includes, Service.failure,
    JS.includes. simpl.
  by destruct (String.index 0 "overloaded" message).
Qed.

End ServiceFacts.

(** X24.  What the user is told when the AI service throws.  A call that
    throws a 401, 403 or 400 is not repeated: one call, no waiting.  Three
    calls that each throw a 503, a 429 or an UNAVAILABLE are all that is
    tried, with waits of 2000 and 4000 ms between them.  The error last
    thrown decides the message: a 503 or an UNAVAILABLE status is reported
    as overload, and so is any error whose message contains "overloaded";
    otherwise a 429 is reported as rate limit, a 401 or 403 as an
    authentication error, and anything else with its own message.  In every
    case the response is a failure without a diagram. *)
Theorem modify_service_errors `{JS.Lowering} `{Gemini.MapError}
    (fn : nat → Retry.Outcome Gemini.Validation)
    (existingClasses : list UMLClass.t) (existingAssociations : list Association.t) :
  let run := Retry.callModel fn in
  let response := Service.modifyExistingDiagram fn existingClasses existingAssociations in
  (∀ error, Retry.settled run = Retry.Threw error →
            Gemini.success response = false ∧ Gemini.diagram response = None)
  ∧ (∀ error, fn 0%nat = Retry.Rejected error → Retry.notRetried error = true →
              Retry.calls run = 1%nat ∧ Retry.delays run = []
              ∧ response = Service.caught error)
  ∧ (∀ last,
       (∀ i, (i < 3)%nat →
             ∃ error, fn i = Retry.Rejected error
                      ∧ Retry.notRetried error = false ∧ Retry.retried error = true) →
       fn 2%nat = Retry.Rejected last →
       Retry.calls run = 3%nat ∧ Retry.delays run = [2000; 4000]
       ∧ response = Service.caught last)
  ∧ (∀ error,
       Retry.code error = Some 503 ∨ Retry.status error = Some "UNAVAILABLE" →
       Gemini.message (Service.caught error)
       = "El modelo de IA está sobrecargado. Por favor, intenta de nuevo en unos momentos.")
  ∧ (∀ error,
       Retry.status error ≠ Some "UNAVAILABLE" →
       Service.includes "overloaded" (Retry.message error) = false →
       (Retry.code error = Some 429 →
        Gemini.error (Service.caught error) = Some "Límite de tasa excedido")
       ∧ (Retry.code error = Some 401 ∨ Retry.code error = Some 403 →
          Gemini.error (Service.caught error) = Some "Error de autenticación")
       ∧ (Retry.code error ∉ [Some 503; Some 429; Some 401; Some 403] →
          Service.caught error
          = Service.failure "Error modifying diagram with AI service"
              (Retry.message error))).
Proof.
  cbv zeta. split_and!.
  - intros error Hs. unfold Service.modifyExistingDiagram. rewrite Hs.
    destruct error as [e|]; [apply caught_fails|done].
  - intros error Hfn Hnot.
    assert (Retry.callModel fn
            = {| Retry.settled := Retry.Threw (Some error); Retry.calls := 1;
                 Retry.delays := [] |}) as Hrun.
    { unfold Retry.callModel.
      rewrite (retry_stops_at fn 3 2000 0); [by rewrite Hfn|lia| |].
      - intros i Hi. lia.
      - right. rewrite Hfn. by left. }
    unfold Service.modifyExistingDiagram. by rewrite Hrun.
  - intros last Hall Hfn.
    assert (Retry.callModel fn
            = {| Retry.settled := Retry.Threw (Some last); Retry.calls := 3;
                 Retry.delays := [2000; 4000] |}) as Hrun.
    { unfold Retry.callModel.
      rewrite (retry_stops_at fn 3 2000 2); [by rewrite Hfn|lia| |by left].
      intros i Hi. apply Hall. lia. }
    unfold Service.modifyExistingDiagram. by rewrite Hrun.
  - intros error Hover. unfold Service.caught. cbv zeta.
    destruct Hover as [Hc|Hs].
    + by rewrite (bool_decide_eq_true_2 _ Hc).
    + rewrite (bool_decide_eq_true_2 _ Hs), orb_true_r. done.
  - intros error Hs Hmsg. unfold Service.caught. cbv zeta.
    rewrite (bool_decide_eq_false_2 _ Hs), Hmsg, !orb_false_r. split_and!.
    + intros Hc. rewrite Hc. done.
    + intros [Hc|Hc]; rewrite Hc; done.
    + intros Hc. rewrite !not_elem_of_cons in Hc. destruct Hc as (H1 & H2 & H3 & H4 & _).
      by rewrite !bool_decide_eq_false_2.
Qed.

Section modify_service_errors_examples.
#[local] Existing Instance Sample.mapOfUndefined.
#[local] Existing Instance Sample.lowering.

Lemma modify_service_errors_witness :
  Service.modifyExistingDiagram
    (λ _, Retry.Rejected {| Retry.code := Some 401; Retry.status := Some "UNAVAILABLE";
                            Retry.message := "API key not valid" |})
    [] []
  = Service.failure
      "El modelo de IA está sobrecargado. Por favor, intenta de nuevo en unos momentos."
      "Modelo sobrecargado - Servicio temporalmente no disponible".
Proof.
  refine (eq_trans
            (proj2 (proj2
               (proj1 (proj2
                  (modify_service_errors
                     (λ _, Retry.Rejected
                             {| Retry.code := Some 401; Retry.status := Some "UNAVAILABLE";
                                Retry.message := "API key not valid" |})
                     [] []))
                  {| Retry.code := Some 401; Retry.status := Some "UNAVAILABLE";
                     Retry.message := "API key not valid" |} _ _))) _).
  - reflexivity.
  - reflexivity.
  - reflexivity.
Defined.

End modify_service_errors_examples.

Section ValidatorRejects.
Context `{Json.Engine}.
Import Json.

Lemma validateClasses_skip (pre rest : list Json.t) (i : nat) :
  Forall (Shape.classWith Shape.number) pre →
  Validator.validateClasses (pre ++ rest) i
  = Validator.validateClasses rest (i + length pre).
Proof.
  intros Hpre. revert i. induction Hpre as [|c pre Hc Hpre IH]; intros i; simpl.
  - by rewrite Nat.add_0_r.
  - apply (validateUMLClass_accepts c i) in Hc. rewrite Hc, IH. f_equal. lia.
Qed.

Lemma validateAssociations_skip (pre rest : list Json.t) (i : nat) (classIds : list string) :
  Forall (Shape.association classIds) pre →
  Validator.validateAssociations (pre ++ rest) i classIds
  = Validator.validateAssociations rest (i + length pre) classIds.
Proof.
  intros Hpre. revert i. induction Hpre as [|a pre Ha Hpre IH]; intros i; simpl.
  - by rewrite Nat.add_0_r.
  - apply (validateUMLAssociation_accepts a i classIds) in Ha. rewrite Ha, IH. f_equal. lia.
Qed.

(** The check of the classes stops at the first class that is refused. *)
Lemma classes_check_stops (d : Json.t) (pre post : list Json.t) (c : Json.t) (error : string) :
  isNull d = false →
  prop "classes" d = Some (JArr (pre ++ c :: post)) →
  Forall Shape.class pre →
  Validator.validateUMLClass (roundTrip c) (length pre) = Done (Validator.Rejected error) →
  Validator.validateUMLDiagramJSON (Parsed d)
  = Validator.Rejected ("Classes validation failed: " +:+ error).
Proof.
  intros Hnull Hc Hpre Hbad. unfold Validator.validateUMLDiagramJSON.
  rewrite Hnull, Hc. unfold reparse, stringify. simpl. rewrite map_app. simpl.
  rewrite validateClasses_skip by (by apply classes_roundTrip). simpl.
  by rewrite length_map, Hbad.
Qed.

Lemma not_object_roundTrip (c : Json.t) :
  typeOf (Some c) ≠ TObject ∨ c = JNull →
  negb (bool_decide (typeOf (Some (roundTrip c)) = TObject)) || isNull (roundTrip c) = true.
Proof.
  intros [Hty| ->]; [|done]. destruct c as [| |n| | |]; simpl in *; try done.
  by destruct (isFinite n).
Qed.

End ValidatorRejects.

(** X25.  What [validateUMLDiagramJSON] answers to a text it refuses.  A
    text that is not JSON, and the text [null], are refused as invalid
    JSON, with the message of the error thrown.  An object without
    [classes] is refused with the message of the parse error of
    [undefined].  When the classes before it are as they should be, an
    element of [classes] that is not an object is reported with its index,
    and so is a class, sound up to there, whose [position] is an object
    without a finite number for [x] or for [y]: a coordinate out of range
    is refused like a missing one.  With good classes, an [associations]
    that is not an array (and is not falsy) is refused as such; and when
    the associations before it are as they should be, an association whose
    [fromClassId] is a string that is the id of no class is reported with
    its index and that string.  The texts are the ones of the four failing
    returns. *)
Theorem validator_rejections `{Json.Engine} :
  (∀ message,
     Validator.validateUMLDiagramJSON (Json.Malformed message)
     = Validator.Rejected (Gemini.failureText (Gemini.InvalidJSON message)))
  ∧ Validator.validateUMLDiagramJSON (Json.Parsed Json.JNull)
    = Validator.Rejected
        (Gemini.failureText (Gemini.InvalidJSON (Json.cannotReadNull "classes")))
  ∧ (∀ data,
       Json.isNull data = false → Json.prop "classes" data = None →
       Validator.validateUMLDiagramJSON (Json.Parsed data)
       = Validator.Rejected
           (Gemini.failureText
              (Gemini.ClassesInvalid ("Invalid JSON format: " +:+ Json.undefinedIsNotJson))))
  ∧ (∀ data pre c post,
       Json.prop "classes" data = Some (Json.JArr (pre ++ c :: post)) →
       Forall Shape.class pre →
       Json.typeOf (Some c) ≠ Json.TObject ∨ c = Json.JNull →
       Validator.validateUMLDiagramJSON (Json.Parsed data)
       = Validator.Rejected
           (Gemini.failureText
              (Gemini.ClassesInvalid
                 ("Class at index " +:+ pretty (length pre) +:+ " must be an object"))))
  ∧ (∀ data pre c post attrs position,
       Json.prop "classes" data = Some (Json.JArr (pre ++ c :: post)) →
       Forall Shape.class pre →
       Shape.text (Json.prop "id" c) → Shape.text (Json.prop "name" c) →
       Json.prop "attributes" c = Some (Json.JArr attrs) →
       Json.prop "position" c = Some (Json.JObj position) →
       ¬ Shape.finite (JsMap.get "x" position) ∨ ¬ Shape.finite (JsMap.get "y" position) →
       Validator.validateUMLDiagramJSON (Json.Parsed data)
       = Validator.Rejected
           (Gemini.failureText
              (Gemini.ClassesInvalid
                 ("Class at index " +:+ pretty (length pre)
                  +:+ " position must have numeric x and y coordinates"))))
  ∧ (∀ data classes,
       Json.prop "classes" data = Some (Json.JArr classes) →
       Forall Shape.class classes →
       Json.truthy (Json.prop "associations" data) = true →
       Json.isArray (Json.prop "associations" data) = false →
       Validator.validateUMLDiagramJSON (Json.Parsed data)
       = Validator.Rejected (Gemini.failureText Gemini.AssociationsNotArray))
  ∧ (∀ data classes pre a post id from to,
       Json.prop "classes" data = Some (Json.JArr classes) →
       Forall Shape.class classes →
       Json.prop "associations" data = Some (Json.JArr (pre ++ a :: post)) →
       Forall (Shape.association (Shape.classIds classes)) pre →
       Json.prop "id" a = Some (Json.JStr id) → id ≠ "" →
       Json.prop "fromClassId" a = Some (Json.JStr from) → from ≠ "" →
       Json.prop "toClassId" a = Some (Json.JStr to) → to ≠ "" →
       from ∉ Shape.classIds classes →
       Validator.validateUMLDiagramJSON (Json.Parsed data)
       = Validator.Rejected
           (Gemini.failureText
              (Gemini.AssociationsInvalid
                 ("Association " +:+ pretty (length pre) +:+ ": fromClassId "
                  +:+ Validator.quote +:+ from +:+ Validator.quote
                  +:+ " does not exist")))).
Proof.
  split_and!.
  - done.
  - done.
  - intros data Hnull Hc. unfold Validator.validateUMLDiagramJSON.
    by rewrite Hnull, Hc.
  - intros data pre c post Hc Hpre Hbad.
    apply (classes_check_stops data pre post c); [by destruct data|done|done|].
    unfold Validator.validateUMLClass. by rewrite (not_object_roundTrip c Hbad).
  - intros data pre c post attrs position Hc Hpre Hid Hname Hattrs Hpos Hbad.
    apply (classes_check_stops data pre post c); [by destruct data|done|done|].
    unfold Validator.validateUMLClass.
    assert (∃ fields, c = Json.JObj fields) as (fields & ->)
      by (destruct c; try done; eauto).
    cbn [Json.roundTrip Json.typeOf Json.isNull]. rewrite bool_decide_eq_true_2 by done.
    cbn [negb orb].
    rewrite <-(text_roundTrip (Json.prop "id" (Json.JObj fields))) in Hid.
    rewrite <-(text_roundTrip (Json.prop "name" (Json.JObj fields))) in Hname.
    rewrite <-prop_roundTrip in Hid, Hname. apply notAString_text in Hid, Hname.
    cbn [Json.roundTrip] in Hid, Hname. rewrite Hid, Hname.
    change (Json.JObj (map (λ kv, let '(k, w) := kv in (k, Json.roundTrip w)) fields))
      with (Json.roundTrip (Json.JObj fields)).
    rewrite !prop_roundTrip, Hattrs, Hpos. simpl.
    rewrite !roundTrip_fields_get.
    assert (bool_decide (Json.typeOf (Json.roundTrip <$> JsMap.get "x" position)
                         = Json.TNumber)
            && bool_decide (Json.typeOf (Json.roundTrip <$> JsMap.get "y" position)
                            = Json.TNumber) = false) as Hnum.
    { apply andb_false_iff. destruct Hbad as [Hx|Hy]; [left|right];
        apply not_true_iff_false; by rewrite typeOf_number, number_roundTrip. }
    apply andb_false_iff in Hnum as [->| ->]; [done|].
    by rewrite orb_true_r.
  - intros data classes Hc Hall Htruthy Harr. unfold Validator.validateUMLDiagramJSON.
    assert (Json.isNull data = false) as -> by (by destruct data).
    assert (Validator.validateUMLClassesJSON (Json.reparse (Json.prop "classes" data))
            = Validator.Accepted (map Json.roundTrip classes)) as ->.
    { apply classes_check. by exists classes. }
    by rewrite Htruthy, Harr.
  - intros data classes pre a post id from to Hc Hall Ha Hpre Hid Hidne Hfrom Hfromne
      Hto Htone Hout.
    unfold Validator.validateUMLDiagramJSON.
    assert (Json.isNull data = false) as -> by (by destruct data).
    assert (Validator.validateUMLClassesJSON (Json.reparse (Json.prop "classes" data))
            = Validator.Accepted (map Json.roundTrip classes)) as ->.
    { apply classes_check. by exists classes. }
    rewrite Ha, Hc. simpl. fold (Shape.classIds classes).
    rewrite map_app. simpl.
    rewrite (validateAssociations_skip (map Json.roundTrip pre))
      by (by apply associations_roundTrip).
    simpl. rewrite length_map.
    unfold Validator.validateUMLAssociation.
    assert (∃ fields, a = Json.JObj fields) as (fields & ->)
      by (destruct a; try done; eauto).
    cbn [Json.roundTrip Json.typeOf Json.isNull]. rewrite bool_decide_eq_true_2 by done.
    cbn [negb orb].
    change (Json.JObj (map (λ kv, let '(k, w) := kv in (k, Json.roundTrip w)) fields))
      with (Json.roundTrip (Json.JObj fields)).
    assert (∀ s, s ≠ "" → Validator.notAString (Some (Json.JStr s)) = false) as Hstr.
    { intros s Hs. apply notAString_text. by exists s. }
    rewrite !prop_roundTrip, Hid, Hfrom, Hto. simpl. rewrite !Hstr by done. simpl.
    by rewrite (bool_decide_eq_false_2 _ Hout).
Qed.

Section validator_examples.
#[local] Existing Instance Answer.engine.

Lemma validator_accepts_well_formed_diagrams_witness :
  ∃ cls, cls ∈ [Answer.cls "A" "A" 0 0; Answer.cls "B" "B" 10 20]
         ∧ Json.prop "id" cls = Json.prop "fromClassId" (Answer.link "ab" "B" "A").
Proof.
  refine (proj1 (proj2 (proj2
            (validator_accepts_well_formed_diagrams
               (Json.Parsed
                  (Answer.diagram [Answer.cls "A" "A" 0 0; Answer.cls "B" "B" 10 20]
                     [Answer.link "ab" "B" "A"]))
               (Answer.diagram [Answer.cls "A" "A" 0 0; Answer.cls "B" "B" 10 20]
                  [Answer.link "ab" "B" "A"]))
            _ _ _) [Answer.link "ab" "B" "A"] (Answer.link "ab" "B" "A") _ _)).
  - reflexivity.
  - reflexivity.
  - reflexivity.
  - apply list_elem_of_singleton. reflexivity.
Defined.

(** An answer with [x] and [y] beside a [position] that was written
    [1e400]. *)
Lemma fixPositionFormat_stable_witness :
  let answer cls := Json.Parsed (Json.JObj [("classes", Json.JArr [cls])]) in
  let once :=
    Fix.fixPositionFormat
      (answer (Json.JObj [("x", Json.JNum (Answer.Int 1)); ("y", Json.JNum (Answer.Int 2));
                          ("position", Json.JNum Answer.Infinity)])) in
  once
  = answer (Json.JObj [("x", Json.JNum (Answer.Int 1)); ("y", Json.JNum (Answer.Int 2));
                       ("position", Json.JNull)])
  ∧ Fix.fixPositionFormat once
    = answer (Json.JObj
                [("position",
                  Json.JObj [("x", Json.JNum (Answer.Int 1));
                             ("y", Json.JNum (Answer.Int 2))])])
  ∧ Fix.fixPositionFormat once ≠ once.
Proof.
  exact (proj1 (proj2 (proj2 (proj2 (proj2 (proj2 fixPositionFormat_stable)))))
           (Answer.Int 1) (Answer.Int 2) Answer.Infinity eq_refl eq_refl eq_refl eq_refl).
Defined.

Lemma fixPositionFormat_repairs_witness :
  ∃ error,
    Validator.validateUMLDiagramJSON
      (Json.Parsed (Answer.diagram [Answer.cls "A" "A" 0 0; Answer.flat "B" "B" 10 20]
                      [Answer.link "ab" "B" "A"]))
    = Validator.Rejected error.
Proof.
  assert (∀ s : string, s ≠ "" → Shape.text (Some (Json.JStr s)))
    as Htext by (intros s Hs; by exists s).
  assert (∀ (l : list string) (s : string), s ∈ l → Shape.oneOf l (Some (Json.JStr s)))
    as Hone by (intros l s Hs; by exists s).
  assert (∀ n : Z, Shape.finite (Some (Json.JNum (Answer.Int n))))
    as Hnum by (intros n; by exists (Answer.Int n)).
  apply (fixPositionFormat_repairs
           (Answer.diagram [Answer.cls "A" "A" 0 0; Answer.flat "B" "B" 10 20]
              [Answer.link "ab" "B" "A"])
           [Answer.cls "A" "A" 0 0; Answer.flat "B" "B" 10 20]).
  - reflexivity.
  - apply Forall_cons. split; [|apply Forall_cons; split; [|constructor]].
    + left. split_and!; [by apply Htext|by apply Htext|by exists []|apply Hnum|apply Hnum].
    + right. eexists. split_and!; [reflexivity|compute_done|by apply Htext|by apply Htext
        |by exists []|apply Hnum|apply Hnum|reflexivity].
  - intros _. eexists. split; [reflexivity|]. apply Forall_cons. split; [|constructor].
    split_and!; try (by apply Htext); apply Hone; compute_done.
  - apply Exists_cons_tl, Exists_cons_hd.
    eexists. split_and!; [reflexivity|compute_done|by apply Htext|by apply Htext
      |by exists []|apply Hnum|apply Hnum|reflexivity].
Defined.

(** The repaired answer of that example, as the validator gets it. *)
Example fixPositionFormat_repairs_example :
  Fix.fixPositionFormat
    (Json.Parsed (Answer.diagram [Answer.flat "B" "B" 10 20] []))
  = Json.Parsed
      (Answer.diagram
         [Json.JObj [("id", Json.JStr "B"); ("name", Json.JStr "B");
                     ("attributes", Json.JArr []);
                     ("position", Json.JObj [("x", Json.JNum (Answer.Int 10));
                                             ("y", Json.JNum (Answer.Int 20))])]] [])
  ∧ Validator.validateUMLDiagramJSON
      (Fix.fixPositionFormat (Json.Parsed (Answer.diagram [Answer.flat "B" "B" 10 20] [])))
    = Validator.Accepted (Answer.diagram [Answer.cls "B" "B" 10 20] []).
Proof. split; reflexivity. Qed.

(** A class whose [x] was written [1e400]. *)
Lemma validator_rejections_witness :
  Validator.validateUMLDiagramJSON
    (Json.Parsed
       (Answer.diagram
          [Answer.cls "A" "A" 0 0; Answer.placed "B" "B" Answer.Infinity (Answer.Int 0)] []))
  = Validator.Rejected
      "Classes validation failed: Class at index 1 position must have numeric x and y coordinates".
Proof.
  refine (proj1 (proj2 (proj2 (proj2 (proj2 validator_rejections)))) _
            [Answer.cls "A" "A" 0 0]
            (Answer.placed "B" "B" Answer.Infinity (Answer.Int 0)) [] []
            [("x", Json.JNum Answer.Infinity); ("y", Json.JNum (Answer.Int 0))]
            _ _ _ _ _ _ _).
  - reflexivity.
  - apply Forall_cons. split; [|constructor].
    split_and!; [by exists "A"|by exists "A"|by exists []
                |by exists (Answer.Int 0)|by exists (Answer.Int 0)].
  - by exists "B".
  - by exists "B".
  - reflexivity.
  - reflexivity.
  - left. intros (n & Hn & Hfin). injection Hn as <-. discriminate.
Defined.

(** An element of [classes] that is a string. *)
Example validator_rejects_string_class :
  Validator.validateUMLDiagramJSON
    (Json.Parsed (Answer.diagram [Answer.cls "A" "A" 0 0; Json.JStr "B"] []))
  = Validator.Rejected "Classes validation failed: Class at index 1 must be an object".
Proof. reflexivity. Qed.

End validator_examples.
